(** * abpcrawler: a shallow embedding of the crawler engine

    The development follows the JavaScript sources:
    - the action library ([Action], the first part of the crawler sources),
    - the two crawler modules (the one built on [PageInfoListener] and the
      one built on [LoadListener]), each with its own [TabAllocator],
      [crawl_urls] and [crawl_url],
    - [gatherPageInfo] of lib/child/processScript.js and
      lib/child/frameScript.js, and the listeners of the two scripts that
      send what it gathers,
    - [LoadListener], [run] and the logging service ([Logger]).

    JavaScript runs every callback to completion on one thread, so each
    function of the sources becomes a function on an explicit state, and
    the host (browser, timers, promises, XMLHttpRequest) is an explicit
    list of events that the theorems quantify over. *)

From Stdlib Require Import ZArith Lia DecimalString.
From stdpp Require Import base option list gmap strings.

Local Open Scope Z_scope.

(** ** JavaScript values shared by all modules *)

(** A thrown value, with enough structure to compute [String(e)]. *)
Inductive JsExn :=
| JsError (message : string)      (* new Error(message) *)
| JsTypeError (message : string)  (* raised by the engine *)
| JsThrown (image : string).      (* any other value, by its String() image *)

(** [Error.prototype.toString]: the name alone when the message is
    empty, and else name + ": " + message. *)
Definition Error_toString (name message : string) : string :=
  match message with
  | EmptyString => name
  | _ => name +:+ ": " +:+ message
  end.

(** [String(e)], which is also what [text + e] appends. *)
Definition String_of (e : JsExn) : string :=
  match e with
  | JsError m => Error_toString "Error" m
  | JsTypeError m => Error_toString "TypeError" m
  | JsThrown s => s
  end.

#[global] Instance JsExn_eq_dec : EqDecision JsExn.
Proof. solve_decision. Defined.

(** ** The action library *)

Module Action.

(** [Action.State], an enum of numbers. *)
Inductive State := Init | Ready | Running | Done | Exception.

Definition State_code (s : State) : Z :=
  match s with
  | Init => 0 | Ready => 1 | Running => 2 | Done => 3 | Exception => 4
  end.

#[global] Instance State_eq_dec : EqDecision State.
Proof. solve_decision. Defined.

(** A user callback ([try_f], [catch_f], [finally_f]).  The library only
    calls it; what the call does to the library is whether it returns or
    throws. *)
Record Callback := { cb_name : string; cb_throws : option JsExn }.

(** The prototype chain an object was built on decides which [_go] and
    [_body] it has. *)
Inductive Class := Asynchronous_Action_proto | Defer_proto | Delay_proto.

Record Asynchronous_Action := {
  class_of : Class;
  _state : option State;          (* None: the property is undefined *)
  finally_f : option Callback;
  catch_f : option Callback;
  try_f : option Callback;
  duration : option Z;
  timer_id : option nat
}.

Definition set_state (s : State) (a : Asynchronous_Action) :=
  {| class_of := class_of a; _state := Some s; finally_f := finally_f a;
     catch_f := catch_f a; try_f := try_f a; duration := duration a;
     timer_id := timer_id a |}.

Definition set_handlers (f c : option Callback) (a : Asynchronous_Action) :=
  {| class_of := class_of a; _state := _state a; finally_f := f;
     catch_f := c; try_f := try_f a; duration := duration a;
     timer_id := timer_id a |}.

Definition set_timer_id (t : nat) (a : Asynchronous_Action) :=
  {| class_of := class_of a; _state := _state a; finally_f := finally_f a;
     catch_f := catch_f a; try_f := try_f a; duration := duration a;
     timer_id := Some t |}.

(** What a method call did to the outside world. *)
Inductive Effect :=
| Dispatch                         (* Async_Platform.dispatch(this._body.bind(this)) *)
| Set_timer (d : option Z)         (* Async_Platform.set_timer(this._body.bind(this), d) *)
| Invoke (cb : Callback).          (* a user callback was called *)

#[global] Instance Callback_eq_dec : EqDecision Callback.
Proof. solve_decision. Defined.
#[global] Instance Effect_eq_dec : EqDecision Effect.
Proof. solve_decision. Defined.

(** The outcome of a method call: the object afterwards, the effects in
    order, and the exception that left the call, if any. *)
Record Outcome := {
  obj : Asynchronous_Action;
  effects : list Effect;
  thrown : option JsExn
}.

Definition returns (a : Asynchronous_Action) (es : list Effect) : Outcome :=
  {| obj := a; effects := es; thrown := None |}.
Definition throws (a : Asynchronous_Action) (es : list Effect) (e : JsExn) : Outcome :=
  {| obj := a; effects := es; thrown := Some e |}.

Section Platform.

(** [Async_Platform] is not part of the sources: the identifier that
    [set_timer] returns is a parameter. *)
Variable Async_Platform_set_timer : option Z -> nat.

(** Constructors.  [new Action.Asynchronous_Action()] and the two class
    constructors assign no [_state]; the instance constructors call
    [Action.Asynchronous_Action.init]. *)
Definition new_Asynchronous_Action : Asynchronous_Action :=
  {| class_of := Asynchronous_Action_proto; _state := None; finally_f := None;
     catch_f := None; try_f := None; duration := None; timer_id := None |}.

Definition new_Defer_class : Asynchronous_Action :=
  {| class_of := Defer_proto; _state := None; finally_f := None;
     catch_f := None; try_f := None; duration := None; timer_id := None |}.

Definition new_Delay_class : Asynchronous_Action :=
  {| class_of := Delay_proto; _state := None; finally_f := None;
     catch_f := None; try_f := None; duration := None; timer_id := None |}.

(** [Action.Asynchronous_Action.init]: this._state = Action.State.Ready *)
Definition init (a : Asynchronous_Action) : Asynchronous_Action :=
  set_state Ready a.

Definition new_Defer (f : option Callback) : Asynchronous_Action :=
  let a := init new_Defer_class in
  {| class_of := class_of a; _state := _state a; finally_f := finally_f a;
     catch_f := catch_f a; try_f := f; duration := duration a;
     timer_id := timer_id a |}.

Definition new_Delay (f : option Callback) (d : option Z) : Asynchronous_Action :=
  let a := init new_Delay_class in
  {| class_of := class_of a; _state := _state a; finally_f := finally_f a;
     catch_f := catch_f a; try_f := f; duration := d;
     timer_id := timer_id a |}.

(** [this._state != Action.State.Ready]: an undefined [_state] is not
    equal to the number 1. *)
Definition state_is_not (s : State) (a : Asynchronous_Action) : bool :=
  match _state a with
  | Some s' => negb (State_code s' =? State_code s)
  | None => true
  end.

(** [_go]: Defer dispatches its body, Delay arms a timer and keeps its id;
    the bare [Asynchronous_Action] prototype has no [_go] at all. *)
Definition _go (a : Asynchronous_Action) : Outcome :=
  match class_of a with
  | Asynchronous_Action_proto =>
      throws a [] (JsTypeError "this._go is not a function")
  | Defer_proto => returns a [Dispatch]
  | Delay_proto =>
      returns (set_timer_id (Async_Platform_set_timer (duration a)) a)
              [Set_timer (duration a)]
  end.

Definition go (f c : option Callback) (a : Asynchronous_Action) : Outcome :=
  if state_is_not Ready a then
    throws a [] (JsError "Call to go() is invalid because the action is not in state 'Ready'.")
  else
    _go (set_state Running (set_handlers f c a)).

(** [if (f) f()] *)
Definition call_if_set (f : option Callback) : list Effect * option JsExn :=
  match f with
  | Some cb => ([Invoke cb], cb_throws cb)
  | None => ([], None)
  end.

Definition end_well (a : Asynchronous_Action) : Outcome :=
  let a1 := set_state Done a in
  let '(es, x) := call_if_set (finally_f a1) in
  {| obj := a1; effects := es; thrown := x |}.

(** try { state = Exception; catch_f(e) } finally { finally_f() }: an
    exception of the finally function replaces the one of the catch
    function. *)
Definition end_badly (e : JsExn) (a : Asynchronous_Action) : Outcome :=
  let a1 := set_state Exception a in
  let '(es1, x1) := call_if_set (catch_f a1) in
  let '(es2, x2) := call_if_set (finally_f a1) in
  {| obj := a1; effects := es1 ++ es2;
     thrown := match x2 with Some _ => x2 | None => x1 end |}.

Definition _body (a : Asynchronous_Action) : Outcome :=
  match class_of a with
  | Asynchronous_Action_proto =>
      throws a [] (JsTypeError "this._body is not a function")
  | _ =>
      let '(es, x) := call_if_set (try_f a) in
      match x with
      | Some e =>
          let o := end_badly e a in
          {| obj := obj o; effects := es ++ effects o; thrown := thrown o |}
      | None =>
          let o := end_well a in
          {| obj := obj o; effects := es ++ effects o; thrown := thrown o |}
      end
  end.

(** The life of one action object: a constructor, then method calls. *)
Inductive Ctor :=
| New_Asynchronous_Action | New_Defer_class | New_Delay_class
| New_Defer (f : option Callback) | New_Delay (f : option Callback) (d : option Z).

Definition construct (c : Ctor) : Asynchronous_Action :=
  match c with
  | New_Asynchronous_Action => new_Asynchronous_Action
  | New_Defer_class => new_Defer_class
  | New_Delay_class => new_Delay_class
  | New_Defer f => new_Defer f
  | New_Delay f d => new_Delay f d
  end.

Inductive Call :=
| Call_go (f c : option Callback)
| Call_body
| Call_end_well
| Call_end_badly (e : JsExn).

Definition perform (c : Call) (a : Asynchronous_Action) : Outcome :=
  match c with
  | Call_go f k => go f k a
  | Call_body => _body a
  | Call_end_well => end_well a
  | Call_end_badly e => end_badly e a
  end.

(** All calls of a life, each with its outcome, oldest first. *)
Fixpoint history (a : Asynchronous_Action) (cs : list Call) : list (Call * Outcome) :=
  match cs with
  | [] => []
  | c :: cs' => let o := perform c a in (c, o) :: history (obj o) cs'
  end.

Fixpoint after (a : Asynchronous_Action) (cs : list Call) : Asynchronous_Action :=
  match cs with
  | [] => a
  | c :: cs' => after (obj (perform c a)) cs'
  end.

(** The subprogram is started by a [Dispatch] or a [Set_timer]. *)
Definition is_start (e : Effect) : bool :=
  match e with Dispatch | Set_timer _ => true | Invoke _ => false end.

Definition starts (h : list (Call * Outcome)) : nat :=
  length (filter (fun e => is_start e = true) (concat (map (fun co => effects (snd co)) h))).

Definition is_go (c : Call) : bool :=
  match c with Call_go _ _ => true | _ => false end.

(** Calls of [go] that returned normally. *)
Definition successful_gos (h : list (Call * Outcome)) : nat :=
  length (filter (fun co => is_go (fst co) = true /\ thrown (snd co) = None) h).

End Platform.
End Action.

(** ** Page information and job records *)

(** The payload of an "abpcrawler:pageInfoGathered" message and the object
    [gatherPageInfo] returns: a JavaScript object whose properties may be
    absent. *)
Record PageInfo := {
  pi_headers : option (list string);
  pi_screenshot : option string;
  pi_source : option string;
  pi_error : option string
}.

#[global] Instance PageInfo_eq_dec : EqDecision PageInfo.
Proof. solve_decision. Defined.

(** [{}] *)
Definition empty_object : PageInfo :=
  {| pi_headers := None; pi_screenshot := None; pi_source := None; pi_error := None |}.

(** [{error: "timeout"}] *)
Definition timeout_result : PageInfo :=
  {| pi_headers := None; pi_screenshot := None; pi_source := None;
     pi_error := Some "timeout"%string |}.

(** ** lib/child/processScript.js and lib/child/frameScript.js *)

Module ChildScript.

(** A host call either returns a value or throws. *)
Definition Host (A : Type) : Type := JsExn + A.

(** The DOM objects [gatherPageInfo] touches, with the behaviour of each
    host method it calls. *)
Record Element := { scrollWidth : Z; scrollHeight : Z }.

Record Context2d := {
  (* context.drawWindow(wnd, 0, 0, width, height, "rgb(255, 255, 255)") *)
  drawWindow : Z -> Z -> Host unit
}.

Record Canvas := {
  (* the value read back from canvas.width / canvas.height after
     assigning it *)
  stored_dimension : Z -> Z;
  getContext : Host Context2d;          (* canvas.getContext("2d") *)
  toDataURL : Host string               (* canvas.toDataURL("image/jpeg", 0.8) *)
}.

Record XMLSerializer := {
  serializeToString : Element -> Host string
}.

(** Reading a property of a host object may throw (a dead wrapper, a
    failing getter), and what is read may be null. *)
Record Document := {
  documentElement : Host (option Element);   (* document.documentElement *)
  createElementNS : Host Canvas              (* createElementNS(xhtml, "canvas") *)
}.

Record Window := {
  document : Host (option Document);         (* wnd.document *)
  new_XMLSerializer : Host XMLSerializer     (* new wnd.XMLSerializer() *)
}.

(** [x.property] for an [x] that may be null. *)
Definition of_object {A} (what : string) (x : option A) : Host A :=
  match x with
  | Some a => inr a
  | None => inl (JsTypeError (what +:+ " is null"))
  end.

(** The function body runs on a store: the [result] object under
    construction and what [reportException] was given.  A statement either
    completes or throws; the store survives a throw, as the properties
    already assigned to [result] do in JavaScript. *)
Record Store := { result : PageInfo; reported : list JsExn }.

Definition Stmt (A : Type) : Type := Store -> (JsExn + A) * Store.

Definition ret {A} (a : A) : Stmt A := fun s => (inr a, s).

Definition bind {A B} (m : Stmt A) (k : A -> Stmt B) : Stmt B :=
  fun s => match m s with
           | (inr a, s') => k a s'
           | (inl e, s') => (inl e, s')
           end.

Definition host {A} (h : Host A) : Stmt A := fun s => (h, s).

(** try { body } catch (e) { handler(e) } *)
Definition try_catch (body : Stmt unit) (handler : JsExn -> Stmt unit) : Stmt unit :=
  fun s => match body s with
           | (inr tt, s') => (inr tt, s')
           | (inl e, s') => handler e s'
           end.

Notation "'let!' x ':=' m 'in' k" := (bind m (fun x => k))
  (at level 10, x name, m at level 200, k at level 200).
Notation "'do!' m 'in' k" := (bind m (fun _ => k))
  (at level 10, m at level 200, k at level 200).

Definition set_screenshot (v : string) : Stmt unit := fun s =>
  (inr tt, {| result := {| pi_headers := pi_headers (result s); pi_screenshot := Some v;
                           pi_source := pi_source (result s); pi_error := pi_error (result s) |};
              reported := reported s |}).

Definition set_source (v : string) : Stmt unit := fun s =>
  (inr tt, {| result := {| pi_headers := pi_headers (result s); pi_screenshot := pi_screenshot (result s);
                           pi_source := Some v; pi_error := pi_error (result s) |};
              reported := reported s |}).

Definition set_error (v : string) : Stmt unit := fun s =>
  (inr tt, {| result := {| pi_headers := pi_headers (result s); pi_screenshot := pi_screenshot (result s);
                           pi_source := pi_source (result s); pi_error := Some v |};
              reported := reported s |}).

(** [reportException(e)]: it reads e.stack, calls Cu.reportError(e) and
    dump(e + ...).  [logging e] says whether all that returns for [e] or
    throws; the call is recorded either way. *)
Definition reportException (logging : JsExn -> Host unit) (e : JsExn) : Stmt unit := fun s =>
  (logging e, {| result := result s; reported := reported s ++ [e] |}).

Definition get_result : Stmt PageInfo := fun s => (inr (result s), s).

(** The try block: the screenshot, then the source. *)
Definition try_block (wnd : Window) (document : Document) (root : Element) : Stmt unit :=
  let! canvas := host (createElementNS document) in
  let width := stored_dimension canvas (scrollWidth root) in
  let height := stored_dimension canvas (scrollHeight root) in
  do! (if (0 <? width) && (0 <? height) then
         let! context := host (getContext canvas) in
         do! host (drawWindow context width height) in
         let! data := host (toDataURL canvas) in
         set_screenshot data
       else ret tt) in
  let! serializer := host (new_XMLSerializer wnd) in
  let! text := host (serializeToString serializer root) in
  set_source text.

(** The body shared, word for word, by the two files.  [wnd] is None
    when the argument is null.  The two reads before the try block,
    [wnd.document] and [document.documentElement], throw to the caller,
    and so does an exception of reportException in the catch block. *)
Definition gather_body (logging : JsExn -> Host unit) (wnd : option Window) : Stmt PageInfo :=
  let! w := host (of_object "wnd" wnd) in
  let! d := host (document w) in
  let! document := host (of_object "document" d) in
  let! root := host (documentElement document) in
  do! match root with
      | Some root =>
          try_catch (try_block w document root)
            (fun e => do! reportException logging e in set_error "Cannot gather page info")
      | None => ret tt
      end in
  get_result.

(** [let result = {}] opens the function. *)
Definition fresh_store : Store := {| result := empty_object; reported := [] |}.

Module processScript.
Definition gatherPageInfo (logging : JsExn -> Host unit) (wnd : option Window)
  : (JsExn + PageInfo) * Store :=
  gather_body logging wnd fresh_store.
End processScript.

Module frameScript.
Definition gatherPageInfo (logging : JsExn -> Host unit) (wnd : option Window)
  : (JsExn + PageInfo) * Store :=
  gather_body logging wnd fresh_store.
End frameScript.

End ChildScript.

(** ** PageInfoListener (the crawler built on page-info messages) *)

Module PageInfoListener.

(** How a promise made by [expect] stands. *)
Inductive PromiseState :=
| Pending
| Fulfilled (v : PageInfo)
| Rejected (e : JsExn).

#[global] Instance PromiseState_eq_dec : EqDecision PromiseState.
Proof. solve_decision. Defined.

(** The closure [onDone] made by one call of [expect]: it captures the
    window id, the timer id and the [resolve] function of its promise. *)
Record OnDone := { od_window : Z; od_timer : nat; od_promise : nat }.

#[global] Instance OnDone_eq_dec : EqDecision OnDone.
Proof. solve_decision. Defined.

(** An armed timer: setTimeout(onDone.bind(this, arg), delay). *)
Record Timer := { tm_callback : OnDone; tm_argument : PageInfo; tm_delay : Z }.

(** The listener object together with the part of the host it uses:
    armed timers and promises, both named by numbers the host hands out
    in sequence. *)
Record t := {
  _timeout : Z;
  _pageInfoSetters : gmap Z OnDone;
  timers : gmap nat Timer;
  promises : gmap nat PromiseState;
  next_timer : nat;
  next_promise : nat
}.

(** [new PageInfoListener(timeout)] *)
Definition new (timeout : Z) : t :=
  {| _timeout := timeout; _pageInfoSetters := ∅; timers := ∅; promises := ∅;
     next_timer := 0; next_promise := 0 |}.

(** [resolve(v)] of a promise: settles it unless it is settled already. *)
Definition resolve (p : nat) (v : PageInfo) (ps : gmap nat PromiseState) : gmap nat PromiseState :=
  match ps !! p with
  | Some Pending => <[p := Fulfilled v]> ps
  | _ => ps
  end.

(** The body of [onDone]:
    this._pageInfoSetters.delete(outerWindowID); clearTimeout(timerID);
    resolve(pageInfo) *)
Definition onDone (c : OnDone) (pageInfo : PageInfo) (l : t) : t :=
  {| _timeout := _timeout l;
     _pageInfoSetters := delete (od_window c) (_pageInfoSetters l);
     timers := delete (od_timer c) (timers l);
     promises := resolve (od_promise c) pageInfo (promises l);
     next_timer := next_timer l;
     next_promise := next_promise l |}.

(** [expect(outerWindowID)]: returns the promise and the new state. *)
Definition expect (outerWindowID : Z) (l : t) : nat * t :=
  let p := next_promise l in
  let timerID := next_timer l in
  let c := {| od_window := outerWindowID; od_timer := timerID; od_promise := p |} in
  (p,
   {| _timeout := _timeout l;
      _pageInfoSetters := <[outerWindowID := c]> (_pageInfoSetters l);
      timers := <[timerID := {| tm_callback := c; tm_argument := timeout_result;
                                tm_delay := _timeout l |}]> (timers l);
      promises := <[p := Pending]> (promises l);
      next_timer := S timerID;
      next_promise := S p |}).

(** [setPageInfo(outerWindowID, pageInfo)] *)
Definition setPageInfo (outerWindowID : Z) (pageInfo : PageInfo) (l : t) : t :=
  match _pageInfoSetters l !! outerWindowID with
  | Some pageInfoSetter => onDone pageInfoSetter pageInfo l
  | None => l
  end.

(** The host runs the callback of an armed timer once its delay has
    elapsed; a cleared timer never runs. *)
Definition disarm (timerID : nat) (l : t) : t :=
  {| _timeout := _timeout l; _pageInfoSetters := _pageInfoSetters l;
     timers := delete timerID (timers l); promises := promises l;
     next_timer := next_timer l; next_promise := next_promise l |}.

Definition timer_fires (timerID : nat) (l : t) : t :=
  match timers l !! timerID with
  | Some tm => onDone (tm_callback tm) (tm_argument tm) (disarm timerID l)
  | None => l
  end.

(** Everything that can happen to a listener. *)
Inductive Event :=
| Expect (outerWindowID : Z)
| SetPageInfo (outerWindowID : Z) (pageInfo : PageInfo)
| TimerFires (timerID : nat).

Definition step (l : t) (e : Event) : t :=
  match e with
  | Expect k => snd (expect k l)
  | SetPageInfo k v => setPageInfo k v l
  | TimerFires n => timer_fires n l
  end.

Definition run (es : list Event) (l : t) : t := fold_left step es l.

Definition is_signal_for (k : Z) (e : Event) : bool :=
  match e with SetPageInfo k' _ => bool_decide (k' = k) | _ => false end.

Definition is_firing_of (n : nat) (e : Event) : bool :=
  match e with TimerFires n' => bool_decide (n' = n) | _ => false end.

(** A key has a pending registration when it is in the map of setters. *)
Definition registered (k : Z) (l : t) : Prop := is_Some (_pageInfoSetters l !! k).

End PageInfoListener.

(** ** Tabs, requests and the tabbed browser, shared by both crawlers *)

(** A tab is named by the number the browser gave it; a request is one
    call of [getTab], named by its caller. *)
Definition Tab := nat.
Definition Request := nat.

(** What an allocator did, in order.  The promise a request receives
    always stands for one tab that [addTab] has returned already, so the
    tab is recorded with the request. *)
Inductive PoolEvent :=
| Added (tab : Tab)                          (* browser.addTab *)
| Removed (tab : Tab)                        (* browser.removeTab *)
| Got_keep_alive (r : Request) (tab : Tab)   (* getTab returned this._tab *)
| Got_new (r : Request) (tab : Tab)          (* getTab returned _createTab() *)
| Deferred (r : Request) (tab : Tab)         (* getTab returned this._tab.then(...) *)
| Queued (r : Request)                       (* getTab pushed a resolver *)
| Handed_keep_alive (r : Request) (tab : Tab)  (* a resolver got this._tab *)
| Handed_new (r : Request) (tab : Tab)       (* a resolver got _createTab() *)
| Released (tab : Tab)                       (* releaseTab was called *)
| Initialised (tab : Tab).                   (* the promise of _createTab resolved *)

#[global] Instance PoolEvent_eq_dec : EqDecision PoolEvent.
Proof. solve_decision. Defined.

(** [browser.removeTab(tab)] and [browser.removeAllTabsBut(tab)] on the
    list of open tabs. *)
Definition removeTab (tab : Tab) (open : list Tab) : list Tab :=
  filter (fun t => t ≠ tab) open.

Definition removeAllTabsBut (tab : Tab) (open : list Tab) : list Tab :=
  filter (fun t => t = tab) open.

(** What the clients of an allocator and the browser do to it. *)
Inductive PoolOp :=
| GetTab (r : Request)
| ReleaseTab (tab : Tab)
| TabReady (tab : Tab).     (* the tab is initialised: Browser:Init, or at once *)

(** The request a tab was given to, if any, on a trace. *)
Definition given (e : PoolEvent) : option (Request * Tab) :=
  match e with
  | Got_keep_alive r t | Got_new r t | Handed_keep_alive r t | Handed_new r t => Some (r, t)
  | _ => None
  end.

(** Tabs given to a request and not released since: the tabs in use. *)
Fixpoint in_use (trace : list PoolEvent) (held : list Tab) : list Tab :=
  match trace with
  | [] => held
  | e :: rest =>
      match e with
      | Released t => in_use rest (filter (fun x => x ≠ t) held)
      | _ => match given e with
             | Some (_, t) => in_use rest (held ++ [t])
             | None => in_use rest held
             end
      end
  end.

Definition tabs_in_use (trace : list PoolEvent) : list Tab := in_use trace [].

(** Requests in the order they were queued, and in the order a resolver
    was called. *)
Definition queued (trace : list PoolEvent) : list Request :=
  omap (fun e => match e with Queued r => Some r | _ => None end) trace.

Definition handed (trace : list PoolEvent) : list Request :=
  omap (fun e => match e with
                 | Handed_keep_alive r _ | Handed_new r _ => Some r
                 | _ => None end) trace.

(** The waiting line after a trace, or None when the trace broke the
    line: a resolver call must serve the request at the head of the line,
    and no request may be given a tab directly while another one waits.
    With [strict] off, taking the keep-alive tab directly is let through. *)
Fixpoint line_after (strict : bool) (waiting : list Request) (trace : list PoolEvent)
  : option (list Request) :=
  match trace with
  | [] => Some waiting
  | e :: rest =>
      match e with
      | Queued r => line_after strict (waiting ++ [r]) rest
      | Handed_keep_alive r _ | Handed_new r _ =>
          match waiting with
          | r' :: others =>
              if bool_decide (r' = r) then line_after strict others rest else None
          | [] => None
          end
      | Got_new _ _ =>
          match waiting with
          | [] => line_after strict waiting rest
          | _ :: _ => None
          end
      | Got_keep_alive _ _ =>
          match waiting with
          | [] => line_after strict waiting rest
          | _ :: _ => if strict then None else line_after strict waiting rest
          end
      | _ => line_after strict waiting rest
      end
  end.

(** First come, first served. *)
Definition first_come_first_served (trace : list PoolEvent) : bool :=
  bool_decide (is_Some (line_after true [] trace)).

(** First come, first served, but for requests that took the keep-alive
    tab. *)
Definition first_come_first_served_but_keep_alive (trace : list PoolEvent) : bool :=
  bool_decide (is_Some (line_after false [] trace)).

(** ** Job records and the steps of a job, shared by both crawlers *)

(** One entry pushed by the callback given to [RequestNotifier]. *)
Record RequestEntry := { rq_location : string; rq_contentType : string; rq_filter : option string }.

#[global] Instance RequestEntry_eq_dec : EqDecision RequestEntry.
Proof. solve_decision. Defined.

(** The object sent to the target URL for one crawled URL.  A property
    that was never assigned is [None]. *)
Record JobRecord := {
  url : string;
  requests : option (list RequestEntry);
  startTime : option Z;
  endTime : option Z;
  finalUrl : option string;
  channelStatus : option Z;
  headers : option (list string);
  screenshot : option string;
  source : option string;
  error : option string
}.

#[global] Instance JobRecord_eq_dec : EqDecision JobRecord.
Proof. solve_decision. Defined.

(** [{url, requests: []}] *)
Definition new_result (u : string) : JobRecord :=
  {| url := u; requests := Some []; startTime := None; endTime := None;
     finalUrl := None; channelStatus := None; headers := None;
     screenshot := None; source := None; error := None |}.

Definition with_startTime (v : Z) (r : JobRecord) : JobRecord :=
  {| url := url r; requests := requests r; startTime := Some v; endTime := endTime r;
     finalUrl := finalUrl r; channelStatus := channelStatus r; headers := headers r;
     screenshot := screenshot r; source := source r; error := error r |}.

Definition with_endTime (v : Z) (r : JobRecord) : JobRecord :=
  {| url := url r; requests := requests r; startTime := startTime r; endTime := Some v;
     finalUrl := finalUrl r; channelStatus := channelStatus r; headers := headers r;
     screenshot := screenshot r; source := source r; error := error r |}.

Definition with_finalUrl (v : string) (r : JobRecord) : JobRecord :=
  {| url := url r; requests := requests r; startTime := startTime r; endTime := endTime r;
     finalUrl := Some v; channelStatus := channelStatus r; headers := headers r;
     screenshot := screenshot r; source := source r; error := error r |}.

Definition with_load (status : Z) (hs : list string) (r : JobRecord) : JobRecord :=
  {| url := url r; requests := requests r; startTime := startTime r; endTime := endTime r;
     finalUrl := finalUrl r; channelStatus := Some status; headers := Some hs;
     screenshot := screenshot r; source := source r; error := error r |}.

Definition with_screenshot (v : string) (r : JobRecord) : JobRecord :=
  {| url := url r; requests := requests r; startTime := startTime r; endTime := endTime r;
     finalUrl := finalUrl r; channelStatus := channelStatus r; headers := headers r;
     screenshot := Some v; source := source r; error := error r |}.

Definition with_source (v : string) (r : JobRecord) : JobRecord :=
  {| url := url r; requests := requests r; startTime := startTime r; endTime := endTime r;
     finalUrl := finalUrl r; channelStatus := channelStatus r; headers := headers r;
     screenshot := screenshot r; source := Some v; error := error r |}.

Definition with_error (v : string) (r : JobRecord) : JobRecord :=
  {| url := url r; requests := requests r; startTime := startTime r; endTime := endTime r;
     finalUrl := finalUrl r; channelStatus := channelStatus r; headers := headers r;
     screenshot := screenshot r; source := source r; error := Some v |}.

(** The callback of the notifier: if (!entry) return; result.requests.push(...) *)
Definition push_requests (seen : list (option RequestEntry)) (r : JobRecord) : JobRecord :=
  {| url := url r;
     requests := match requests r with
                 | Some l => Some (l ++ omap id seen)
                 | None => None
                 end;
     startTime := startTime r; endTime := endTime r;
     finalUrl := finalUrl r; channelStatus := channelStatus r; headers := headers r;
     screenshot := screenshot r; source := source r; error := error r |}.

Definition overwrite {A} (old new : option A) : option A :=
  match new with Some _ => new | None => old end.

(** [Object.assign(result, pageInfo)]: every property of [pageInfo]
    overwrites the one of [result]. *)
Definition Object_assign (r : JobRecord) (p : PageInfo) : JobRecord :=
  {| url := url r; requests := requests r; startTime := startTime r; endTime := endTime r;
     finalUrl := finalUrl r; channelStatus := channelStatus r;
     headers := overwrite (headers r) (pi_headers p);
     screenshot := overwrite (screenshot r) (pi_screenshot p);
     source := overwrite (source r) (pi_source p);
     error := overwrite (error r) (pi_error p) |}.

(** The tab object a job receives: its name in the browser and
    [tab.linkedBrowser.outerWindowID]. *)
Record TabObject := { tab_name : Tab; outerWindowID : Z }.

(** What a job does to its collaborators, in order. *)
Inductive JobEffect :=
| Called_getTab
| Made_RequestNotifier (window : Z)
| Called_expect (window : Z)
| Called_loadURI (u : string)
| Called_waitForLoad (tab : Tab)
| Called_reportException (e : JsExn)
| Called_shutdown
| Called_releaseTab (tab : Tab).

#[global] Instance JobEffect_eq_dec : EqDecision JobEffect.
Proof. solve_decision. Defined.

(** A generator run by Task.spawn: where it is suspended, or how it ended.
    [Threw] also keeps the [result] object the generator was filling when
    it threw (None when it threw before making one); JavaScript drops that
    object, it is kept here to compare it with what is reported. *)
Inductive Generator (Await : Type) :=
| Awaiting_tab
| Awaiting_load (tab : TabObject) (result : JobRecord) (waiting : Await)
| Returned (result : JobRecord)
| Threw (e : JsExn) (abandoned : option JobRecord).

Arguments Awaiting_tab {Await}.
Arguments Awaiting_load {Await} tab result waiting.
Arguments Returned {Await} result.
Arguments Threw {Await} e abandoned.

Definition exited {Await} (g : Generator Await) : bool :=
  match g with Returned _ | Threw _ _ => true | _ => false end.


(** How often [releaseTab] was called on a tab, and on any tab. *)
Fixpoint releases (tab : Tab) (es : list JobEffect) : nat :=
  match es with
  | [] => 0
  | Called_releaseTab t :: rest =>
      ((if bool_decide (t = tab) then 1 else 0) + releases tab rest)%nat
  | _ :: rest => releases tab rest
  end.

Fixpoint all_releases (es : list JobEffect) : nat :=
  match es with
  | [] => 0
  | Called_releaseTab _ :: rest => S (all_releases rest)
  | _ :: rest => all_releases rest
  end.

(** The [finally] block of both [crawl_url] generators:
    if (requestNotifier) requestNotifier.shutdown(); tabAllocator.releaseTab(tab);
    [shutdown] says whether the call of shutdown throws. *)
Definition finally_block (shutdown : option JsExn) (requestNotifier : bool) (tab : TabObject)
  : list JobEffect * option JsExn :=
  if requestNotifier then
    match shutdown with
    | Some e => ([Called_shutdown], Some e)
    | None => ([Called_shutdown; Called_releaseTab (tab_name tab)], None)
    end
  else ([Called_releaseTab (tab_name tab)], None).

(** try { ... } finally { ... } return result: how the generator ends when
    the try block completed as [completion] with [result] as it then is. *)
Definition leave {Await} (shutdown : option JsExn) (requestNotifier : bool) (tab : TabObject)
    (completion : option JsExn) (result : JobRecord) (done : list JobEffect)
  : Generator Await * list JobEffect :=
  let '(es, x) := finally_block shutdown requestNotifier tab in
  match x with
  | Some e' => (Threw e' (Some result), done ++ es)
  | None =>
      match completion with
      | Some e => (Threw e (Some result), done ++ es)
      | None => (Returned result, done ++ es)
      end
  end.

(** ** The crawler built on page-info messages *)

Module Crawler.

Module TabAllocator.

(** The [then] callback attached to a promise of [_createTab()]. *)
Inductive Reaction :=
| Remove_old (tabToRemove : Tab)   (* constructor: this._browser.removeTab(tabToRemove) *)
| Release_again (tab : Tab).       (* releaseTab: this.releaseTab(tab) *)

Record t := {
  _tabs : Z;
  _maxtabs : Z;
  _resolvers : list Request;
  _tab : option Tab;                (* the promise kept in this._tab resolves to this tab *)
  browser : list Tab;               (* this._browser.tabs *)
  next_tab : Tab;                   (* the name addTab gives to the next tab *)
  reactions : list (Tab * Reaction);
  trace : list PoolEvent
}.

Definition log (e : PoolEvent) (a : t) : t :=
  {| _tabs := _tabs a; _maxtabs := _maxtabs a; _resolvers := _resolvers a;
     _tab := _tab a; browser := browser a; next_tab := next_tab a;
     reactions := reactions a; trace := trace a ++ [e] |}.

Definition set_tab (v : option Tab) (a : t) : t :=
  {| _tabs := _tabs a; _maxtabs := _maxtabs a; _resolvers := _resolvers a;
     _tab := v; browser := browser a; next_tab := next_tab a;
     reactions := reactions a; trace := trace a |}.

Definition set_resolvers (v : list Request) (a : t) : t :=
  {| _tabs := _tabs a; _maxtabs := _maxtabs a; _resolvers := v;
     _tab := _tab a; browser := browser a; next_tab := next_tab a;
     reactions := reactions a; trace := trace a |}.

Definition set_reactions (v : list (Tab * Reaction)) (a : t) : t :=
  {| _tabs := _tabs a; _maxtabs := _maxtabs a; _resolvers := _resolvers a;
     _tab := _tab a; browser := browser a; next_tab := next_tab a;
     reactions := v; trace := trace a |}.

(** this._browser.removeTab(tab) *)
Definition browser_removeTab (tab : Tab) (a : t) : t :=
  log (Removed tab)
    {| _tabs := _tabs a; _maxtabs := _maxtabs a; _resolvers := _resolvers a;
       _tab := _tab a; browser := removeTab tab (browser a); next_tab := next_tab a;
       reactions := reactions a; trace := trace a |}.

(** [_createTab()]: this._tabs++; addTab.  The promise it returns resolves
    to the new tab at the later event [TabReady]. *)
Definition _createTab (a : t) : Tab * t :=
  let tab := next_tab a in
  (tab,
   log (Added tab)
     {| _tabs := _tabs a + 1; _maxtabs := _maxtabs a; _resolvers := _resolvers a;
        _tab := _tab a; browser := browser a ++ [tab]; next_tab := S tab;
        reactions := reactions a; trace := trace a |}).

(** [new TabAllocator(browser, maxtabs)], for a browser whose first tab is
    [first] and whose other tabs are [others]. *)
Definition new (first : Tab) (others : list Tab) (maxtabs : Z) : t :=
  let tabToRemove := first in
  let a0 := {| _tabs := 0; _maxtabs := maxtabs; _resolvers := []; _tab := None;
               browser := removeAllTabsBut tabToRemove (first :: others);
               next_tab := S (foldr Nat.max first others);
               reactions := []; trace := [] |} in
  let '(tab, a1) := _createTab a0 in
  set_tab (Some tab) (set_reactions [(tab, Remove_old tabToRemove)] a1).

Definition getTab (r : Request) (a : t) : t :=
  match _tab a with
  | Some tab => log (Got_keep_alive r tab) (set_tab None a)
  | None =>
      if _tabs a <? _maxtabs a then
        let '(tab, a1) := _createTab a in log (Got_new r tab) a1
      else
        log (Queued r) (set_resolvers (_resolvers a ++ [r]) a)
  end.

Definition decrement_tabs (a : t) : t :=
  {| _tabs := _tabs a - 1; _maxtabs := _maxtabs a; _resolvers := _resolvers a;
     _tab := _tab a; browser := browser a; next_tab := next_tab a;
     reactions := reactions a; trace := trace a |}.

Definition releaseTab (tab : Tab) (a : t) : t :=
  let a := log (Released tab) a in
  if _tabs a =? 1 then
    let '(resultTab, a1) := _createTab a in
    set_tab (Some resultTab)
      (set_reactions (reactions a1 ++ [(resultTab, Release_again tab)]) a1)
  else
    let a1 := decrement_tabs (browser_removeTab tab a) in
    match _resolvers a1 with
    | [] => a1
    | r :: rest =>
        match _tab a1 with
        | Some kept =>
            set_tab None (log (Handed_keep_alive r kept) (set_resolvers rest a1))
        | None =>
            if _tabs a1 <? _maxtabs a1 then
              let '(tab', a2) := _createTab (set_resolvers rest a1) in
              log (Handed_new r tab') a2
            else a1
        end
    end.

Definition react (a : t) (x : Tab * Reaction) : t :=
  match snd x with
  | Remove_old tabToRemove => browser_removeTab tabToRemove a
  | Release_again tab => releaseTab tab a
  end.

(** A created tab is initialised: the callbacks attached to its promise
    run, in the order they were attached. *)
Definition tabReady (tab : Tab) (a : t) : t :=
  let mine := filter (fun x => fst x = tab) (reactions a) in
  let others := filter (fun x => fst x ≠ tab) (reactions a) in
  fold_left react mine (log (Initialised tab) (set_reactions others a)).

Definition step (a : t) (o : PoolOp) : t :=
  match o with
  | GetTab r => getTab r a
  | ReleaseTab tab => releaseTab tab a
  | TabReady tab => tabReady tab a
  end.

Definition run (ops : list PoolOp) (a : t) : t := fold_left step ops a.

End TabAllocator.

(** *** crawl_url *)

(** What the collaborators of one job do when the job calls them: the
    clock, the constructor of the request notifier, the page-info
    listener, the browser of the tab. *)
Record Collaborators := {
  now_at_start : Z;                       (* Date.now() for result.startTime *)
  new_RequestNotifier : option JsExn;     (* None: the constructor returns *)
  expect : option JsExn;                  (* pageInfoListener.expect(...) *)
  loadURI : option JsExn;                 (* tab.linkedBrowser.loadURI(url, null, null) *)
  seen : list (option RequestEntry);      (* entries given to the notifier's callback *)
  currentURI_spec : JsExn + string;       (* tab.linkedBrowser.currentURI.spec *)
  now_at_end : Z;                         (* Date.now() for result.endTime *)
  shutdown : option JsExn                 (* requestNotifier.shutdown() *)
}.

(** let tab = yield tabAllocator.getTab() *)
Definition start : Generator unit * list JobEffect := (Awaiting_tab, [Called_getTab]).

(** The promise of [getTab] settles: the generator runs up to
    [yield pageInfoFuture], or leaves through the [finally] block. *)
Definition resume_with_tab (c : Collaborators) (u : string) (x : JsExn + TabObject)
  : Generator unit * list JobEffect :=
  match x with
  | inl e => (Threw e None, [])
  | inr tab =>
      let result := with_startTime (now_at_start c) (new_result u) in
      match new_RequestNotifier c with
      | Some e => leave (shutdown c) false tab (Some e) result []
      | None =>
          let made := [Made_RequestNotifier (outerWindowID tab)] in
          match expect c with
          | Some e => leave (shutdown c) true tab (Some e) result made
          | None =>
              let expected := made ++ [Called_expect (outerWindowID tab)] in
              match loadURI c with
              | Some e => leave (shutdown c) true tab (Some e) result (expected ++ [Called_loadURI u])
              | None => (Awaiting_load tab result tt, expected ++ [Called_loadURI u])
              end
          end
      end
  end.

(** [pageInfoFuture] settles: the rest of the try block, then [finally]. *)
Definition resume_with_pageInfo (c : Collaborators) (g : Generator unit) (x : JsExn + PageInfo)
  : Generator unit * list JobEffect :=
  match g with
  | Awaiting_load tab result _ =>
      let result := push_requests (seen c) result in
      match x with
      | inl e => leave (shutdown c) true tab (Some e) result []
      | inr pageInfo =>
          match currentURI_spec c with
          | inl e => leave (shutdown c) true tab (Some e) result []
          | inr spec =>
              let result := with_finalUrl spec result in
              let result := Object_assign result pageInfo in
              let result := with_endTime (now_at_end c) result in
              leave (shutdown c) true tab None result []
          end
      end
  | _ => (g, [])
  end.

(** One job from start to wherever it gets: [tab] and [pageInfo] say how
    the two promises it waits for settle, None meaning not (yet). *)
Definition crawl_url (c : Collaborators) (u : string)
    (tab : option (JsExn + TabObject)) (pageInfo : option (JsExn + PageInfo))
  : Generator unit * list JobEffect :=
  let '(g0, es0) := start in
  match tab with
  | None => (g0, es0)
  | Some x =>
      let '(g1, es1) := resume_with_tab c u x in
      match g1, pageInfo with
      | Awaiting_load _ _ _, Some y =>
          let '(g2, es2) := resume_with_pageInfo c g1 y in (g2, es0 ++ es1 ++ es2)
      | _, _ => (g1, es0 ++ es1)
      end
  end.

(** *** crawl_urls *)

Inductive JobStatus :=
| Spawned        (* the task runs *)
| Reporting      (* the XMLHttpRequest with the record is in flight *)
| Finished.      (* taskDone ran for it *)

#[global] Instance JobStatus_eq_dec : EqDecision JobStatus.
Proof. solve_decision. Defined.

Inductive BatchEffect :=
| Sent (job : nat) (body : JobRecord)    (* request.send(JSON.stringify(...)) *)
| Logged (e : JsExn)                     (* reportException(exception) *)
| Stopped_windowCloser
| Called_onDone.

#[global] Instance BatchEffect_eq_dec : EqDecision BatchEffect.
Proof. solve_decision. Defined.

Record Batch := {
  running : Z;
  jobs : list (string * JobStatus);      (* one task per url, in the order of urls *)
  did : list BatchEffect
}.

(** running++; Task.spawn(...).then(..., ...) for one url *)
Definition spawn (b : Batch) (u : string) : Batch :=
  {| running := running b + 1; jobs := jobs b ++ [(u, Spawned)]; did := did b |}.

(** [crawl_urls]: the loop over urls; no callback runs before it ends. *)
Definition crawl_urls (urls : list string) : Batch :=
  fold_left spawn urls {| running := 0; jobs := []; did := [] |}.

Definition taskDone (b : Batch) : Batch :=
  let n := running b - 1 in
  if n <=? 0 then
    {| running := n; jobs := jobs b; did := did b ++ [Stopped_windowCloser; Called_onDone] |}
  else
    {| running := n; jobs := jobs b; did := did b |}.

(** The record built by the rejection handler. *)
Definition failure_record (u : string) (now : Z) (exception : JsExn) : JobRecord :=
  {| url := u; requests := None; startTime := Some now; endTime := None;
     finalUrl := None; channelStatus := None; headers := None;
     screenshot := None; source := None; error := Some (String_of exception) |}.

Definition set_status (i : nat) (st : JobStatus) (b : Batch) : Batch :=
  {| running := running b;
     jobs := alter (fun x => (fst x, st)) i (jobs b);
     did := did b |}.

Definition do_effects (es : list BatchEffect) (b : Batch) : Batch :=
  {| running := running b; jobs := jobs b; did := did b ++ es |}.

(** What the host delivers to the batch: the promise of a task settles
    (each promise settles once), with the clock reading at that moment;
    an XMLHttpRequest fires "load" or "error" (one of them, once). *)
Inductive BatchEvent :=
| Task_settled (job : nat) (outcome : JsExn + JobRecord) (now : Z)
| Xhr_finished (job : nat) (loaded : bool).

Definition batch_step (b : Batch) (e : BatchEvent) : Batch :=
  match e with
  | Task_settled i outcome now =>
      match jobs b !! i with
      | Some (u, Spawned) =>
          match outcome with
          | inr result => set_status i Reporting (do_effects [Sent i result] b)
          | inl exception =>
              set_status i Reporting
                (do_effects [Logged exception; Sent i (failure_record u now exception)] b)
          end
      | _ => b
      end
  | Xhr_finished i _ =>
      match jobs b !! i with
      | Some (_, Reporting) => taskDone (set_status i Finished b)
      | _ => b
      end
  end.

Definition batch_run (es : list BatchEvent) (b : Batch) : Batch := fold_left batch_step es b.

Definition onDone_calls (b : Batch) : nat :=
  length (filter (fun e => e = Called_onDone) (did b)).

Definition is_sent (e : BatchEffect) : bool :=
  match e with Sent _ _ => true | _ => false end.

Definition records_of (job : nat) (es : list BatchEffect) : list JobRecord :=
  omap (fun e => match e with
                 | Sent j r => if bool_decide (j = job) then Some r else None
                 | _ => None end) es.

(** Records sent before the first call of onDone. *)
Fixpoint sent_before_onDone (es : list BatchEffect) : nat :=
  match es with
  | [] => 0
  | Called_onDone :: _ => 0
  | Sent _ _ :: rest => S (sent_before_onDone rest)
  | _ :: rest => sent_before_onDone rest
  end.

Definition all_finished (b : Batch) : Prop :=
  Forall (fun x => snd x = Finished) (jobs b).

End Crawler.

(** ** The crawler built on LoadListener *)

Module LoadCrawler.

Module TabAllocator.

(** The value of a property used as a number: [undefined++] stores NaN. *)
Inductive JsNumber := NaN | Num (z : Z).

(** [x++] on a property that may be undefined *)
Definition increment (x : option JsNumber) : option JsNumber :=
  match x with
  | Some (Num z) => Some (Num (z + 1))
  | Some NaN => Some NaN
  | None => Some NaN
  end.

(** The [then] callback attached to a promise of [_createTab()]. *)
Inductive Reaction :=
| Boot                             (* constructor: delete this._tab; removeAllTabsBut(tab) *)
| Release_again (tab : Tab).       (* releaseTab: delete this._tab; this.releaseTab(tab) *)

Record t := {
  _tabs : Z;
  tabs : option JsNumber;           (* the property [tabs] that _createTab increments *)
  _maxtabs : Z;
  _resolvers : list Request;
  _tabInUse : bool;
  _tab : option Tab;                (* the promise kept in this._tab resolves to this tab *)
  browser : list Tab;
  next_tab : Tab;
  reactions : list (Tab * Reaction);
  deferred : list (Tab * Request);  (* () => this.getTab() attached to the promise this._tab *)
  trace : list PoolEvent
}.

Definition log (e : PoolEvent) (a : t) : t :=
  {| _tabs := _tabs a; tabs := tabs a; _maxtabs := _maxtabs a; _resolvers := _resolvers a;
     _tabInUse := _tabInUse a; _tab := _tab a; browser := browser a; next_tab := next_tab a;
     reactions := reactions a; deferred := deferred a; trace := trace a ++ [e] |}.

Definition set_tab (v : option Tab) (a : t) : t :=
  {| _tabs := _tabs a; tabs := tabs a; _maxtabs := _maxtabs a; _resolvers := _resolvers a;
     _tabInUse := _tabInUse a; _tab := v; browser := browser a; next_tab := next_tab a;
     reactions := reactions a; deferred := deferred a; trace := trace a |}.

Definition set_tabInUse (v : bool) (a : t) : t :=
  {| _tabs := _tabs a; tabs := tabs a; _maxtabs := _maxtabs a; _resolvers := _resolvers a;
     _tabInUse := v; _tab := _tab a; browser := browser a; next_tab := next_tab a;
     reactions := reactions a; deferred := deferred a; trace := trace a |}.

Definition set_resolvers (v : list Request) (a : t) : t :=
  {| _tabs := _tabs a; tabs := tabs a; _maxtabs := _maxtabs a; _resolvers := v;
     _tabInUse := _tabInUse a; _tab := _tab a; browser := browser a; next_tab := next_tab a;
     reactions := reactions a; deferred := deferred a; trace := trace a |}.

Definition set_reactions (v : list (Tab * Reaction)) (a : t) : t :=
  {| _tabs := _tabs a; tabs := tabs a; _maxtabs := _maxtabs a; _resolvers := _resolvers a;
     _tabInUse := _tabInUse a; _tab := _tab a; browser := browser a; next_tab := next_tab a;
     reactions := v; deferred := deferred a; trace := trace a |}.

Definition set_deferred (v : list (Tab * Request)) (a : t) : t :=
  {| _tabs := _tabs a; tabs := tabs a; _maxtabs := _maxtabs a; _resolvers := _resolvers a;
     _tabInUse := _tabInUse a; _tab := _tab a; browser := browser a; next_tab := next_tab a;
     reactions := reactions a; deferred := v; trace := trace a |}.

Definition set_browser (v : list Tab) (a : t) : t :=
  {| _tabs := _tabs a; tabs := tabs a; _maxtabs := _maxtabs a; _resolvers := _resolvers a;
     _tabInUse := _tabInUse a; _tab := _tab a; browser := v; next_tab := next_tab a;
     reactions := reactions a; deferred := deferred a; trace := trace a |}.

Definition browser_removeTab (tab : Tab) (a : t) : t :=
  log (Removed tab) (set_browser (removeTab tab (browser a)) a).

(** [_createTab()]: this.tabs++; addTab.  It is [tabs] that is
    incremented, [_tabs] is left as it is. *)
Definition _createTab (a : t) : Tab * t :=
  let tab := next_tab a in
  (tab,
   log (Added tab)
     {| _tabs := _tabs a; tabs := increment (tabs a); _maxtabs := _maxtabs a;
        _resolvers := _resolvers a; _tabInUse := _tabInUse a; _tab := _tab a;
        browser := browser a ++ [tab]; next_tab := S tab;
        reactions := reactions a; deferred := deferred a; trace := trace a |}).

(** [new TabAllocator(browser, maxtabs)] for a browser with the tabs [open]. *)
Definition new (open : list Tab) (maxtabs : Z) : t :=
  let a0 := {| _tabs := 0; tabs := None; _maxtabs := maxtabs; _resolvers := [];
               _tabInUse := false; _tab := None; browser := open;
               next_tab := S (foldr Nat.max 0%nat open);
               reactions := []; deferred := []; trace := [] |} in
  let '(tab, a1) := _createTab a0 in
  set_tab (Some tab) (set_reactions [(tab, Boot)] a1).

Definition getTab (r : Request) (a : t) : t :=
  match _tab a with
  | Some tab =>
      if negb (_tabInUse a) then
        log (Got_keep_alive r tab) (set_tabInUse true a)
      else
        log (Deferred r tab) (set_deferred (deferred a ++ [(tab, r)]) a)
  | None =>
      if _tabs a <? _maxtabs a then
        let '(tab, a1) := _createTab a in log (Got_new r tab) a1
      else
        log (Queued r) (set_resolvers (_resolvers a ++ [r]) a)
  end.

Definition decrement_tabs (a : t) : t :=
  {| _tabs := _tabs a - 1; tabs := tabs a; _maxtabs := _maxtabs a; _resolvers := _resolvers a;
     _tabInUse := _tabInUse a; _tab := _tab a; browser := browser a; next_tab := next_tab a;
     reactions := reactions a; deferred := deferred a; trace := trace a |}.

Definition releaseTab (tab : Tab) (a : t) : t :=
  let a := log (Released tab) a in
  if bool_decide (_resolvers a = []) && (_tabs a =? 1) then
    let '(resultTab, a1) := _createTab (set_tabInUse false a) in
    set_tab (Some resultTab)
      (set_reactions (reactions a1 ++ [(resultTab, Release_again tab)]) a1)
  else
    let a1 := browser_removeTab tab a in
    match _resolvers a1 with
    | r :: rest =>
        let '(tab', a2) := _createTab (set_resolvers rest a1) in
        log (Handed_new r tab') a2
    | [] => decrement_tabs a1
    end.

Definition react (a : t) (x : Tab * Reaction) : t :=
  match snd x with
  | Boot =>
      let a1 := set_tab None a in
      set_browser (removeAllTabsBut (fst x) (browser a1)) a1
  | Release_again tab => releaseTab tab (set_tab None a)
  end.

(** A created tab is initialised: the callback attached to its promise
    runs, then the promise that was kept in this._tab resolves and the
    calls of getTab deferred on it are made, oldest first.  The job that
    was given this._tab itself is resumed by the same promise, ahead of
    the deferred calls; the step covers the runs in which that job does
    not get as far as releaseTab before they are made, that is, in which
    it waits for its load. *)
Definition tabReady (tab : Tab) (a : t) : t :=
  let mine := filter (fun x => fst x = tab) (reactions a) in
  let others := filter (fun x => fst x ≠ tab) (reactions a) in
  let a1 := fold_left react mine (log (Initialised tab) (set_reactions others a)) in
  let again := filter (fun x => fst x = tab) (deferred a1) in
  let kept := filter (fun x => fst x ≠ tab) (deferred a1) in
  fold_left (fun s x => getTab (snd x) s) again (set_deferred kept a1).

Definition step (a : t) (o : PoolOp) : t :=
  match o with
  | GetTab r => getTab r a
  | ReleaseTab tab => releaseTab tab a
  | TabReady tab => tabReady tab a
  end.

Definition run (ops : list PoolOp) (a : t) : t := fold_left step ops a.

End TabAllocator.

(** *** crawl_url *)

Record Collaborators := {
  now_at_start : Z;
  new_RequestNotifier : option JsExn;
  loadURI : option JsExn;
  waitForLoad : option JsExn;             (* loadListener.waitForLoad(tab), up to its return *)
  seen : list (option RequestEntry);
  now_at_end : Z;
  currentURI_spec : JsExn + string;
  contentDocument : ChildScript.Host ChildScript.Document;   (* tab.linkedBrowser.contentDocument *)
  reportException : JsExn -> option JsExn;   (* reportException(e) of the inner catch block *)
  new_XMLSerializer : ChildScript.Host ChildScript.XMLSerializer;
  shutdown : option JsExn
}.

(** The try block around the screenshot, up to canvas.toDataURL. *)
Definition capture (d : ChildScript.Document) (root : ChildScript.Element) : ChildScript.Host string :=
  match ChildScript.createElementNS d with
  | inl e => inl e
  | inr canvas =>
      let width := ChildScript.stored_dimension canvas (ChildScript.scrollWidth root) in
      let height := ChildScript.stored_dimension canvas (ChildScript.scrollHeight root) in
      match ChildScript.getContext canvas with
      | inl e => inl e
      | inr context =>
          match ChildScript.drawWindow context width height with
          | inl e => inl e
          | inr _ => ChildScript.toDataURL canvas
          end
      end
  end.

Definition start : Generator unit * list JobEffect := (Awaiting_tab, [Called_getTab]).

Definition resume_with_tab (c : Collaborators) (u : string) (x : JsExn + TabObject)
  : Generator unit * list JobEffect :=
  match x with
  | inl e => (Threw e None, [])
  | inr tab =>
      let result := with_startTime (now_at_start c) (new_result u) in
      match new_RequestNotifier c with
      | Some e => leave (shutdown c) false tab (Some e) result []
      | None =>
          let made := [Made_RequestNotifier (outerWindowID tab)] in
          match loadURI c with
          | Some e => leave (shutdown c) true tab (Some e) result (made ++ [Called_loadURI u])
          | None =>
              let loading := made ++ [Called_loadURI u; Called_waitForLoad (tab_name tab)] in
              match waitForLoad c with
              | Some e => leave (shutdown c) true tab (Some e) result loading
              | None => (Awaiting_load tab result tt, loading)
              end
          end
      end
  end.

(** The promise of [waitForLoad] settles with [status, headers]. *)
Definition resume_with_load (c : Collaborators) (g : Generator unit)
    (x : JsExn + (Z * list string)) : Generator unit * list JobEffect :=
  match g with
  | Awaiting_load tab result _ =>
      let result := push_requests (seen c) result in
      match x with
      | inl e => leave (shutdown c) true tab (Some e) result []
      | inr (status, hs) =>
          let result := with_endTime (now_at_end c) (with_load status hs result) in
          match currentURI_spec c with
          | inl e => leave (shutdown c) true tab (Some e) result []
          | inr spec =>
              let result := with_finalUrl spec result in
              match contentDocument c with
              | inl e => leave (shutdown c) true tab (Some e) result []
              | inr document =>
                  match ChildScript.documentElement document with
                  | inl e => leave (shutdown c) true tab (Some e) result []
                  | inr None => leave (shutdown c) true tab None result []
                  | inr (Some root) =>
                      let '(caught, result, es) :=
                        match capture document root with
                        | inr data => (None, with_screenshot data result, [])
                        | inl e =>
                            match reportException c e with
                            | Some e' => (Some e', result, [Called_reportException e])
                            | None =>
                                (None,
                                 with_error ("Capturing screenshot failed: " +:+ String_of e)
                                   result,
                                 [Called_reportException e])
                            end
                        end in
                      match caught with
                      | Some e' => leave (shutdown c) true tab (Some e') result es
                      | None =>
                          match new_XMLSerializer c with
                          | inl e => leave (shutdown c) true tab (Some e) result es
                          | inr serializer =>
                              match ChildScript.serializeToString serializer root with
                              | inl e => leave (shutdown c) true tab (Some e) result es
                              | inr text =>
                                  leave (shutdown c) true tab None (with_source text result) es
                              end
                          end
                      end
                  end
              end
          end
      end
  | _ => (g, [])
  end.

Definition crawl_url (c : Collaborators) (u : string)
    (tab : option (JsExn + TabObject)) (load : option (JsExn + (Z * list string)))
  : Generator unit * list JobEffect :=
  let '(g0, es0) := start in
  match tab with
  | None => (g0, es0)
  | Some x =>
      let '(g1, es1) := resume_with_tab c u x in
      match g1, load with
      | Awaiting_load _ _ _, Some y =>
          let '(g2, es2) := resume_with_load c g1 y in (g2, es0 ++ es1 ++ es2)
      | _, _ => (g1, es0 ++ es1)
      end
  end.

End LoadCrawler.

(** ** State listeners: flags and response headers *)

(** The two constants of [Ci.nsIWebProgressListener] the sources test.
    The interface is the platform's: its values are parameters. *)
Record nsIWebProgressListener := { STATE_STOP : Z; STATE_IS_WINDOW : Z }.

(** [a & b]: both operands are converted to 32-bit integers. *)
Definition ToInt32 (n : Z) : Z :=
  let m := n mod 2 ^ 32 in if m <? 2 ^ 31 then m else m - 2 ^ 32.

Definition bit_and (a b : Z) : Z := Z.land (ToInt32 a) (ToInt32 b).

(** A number used as a condition: every number but zero is true. *)
Definition truthy (n : Z) : bool := negb (n =? 0).

(** [(flags & STATE_STOP) && (flags & STATE_IS_WINDOW)] *)
Definition window_stopped (Ci : nsIWebProgressListener) (flags : Z) : bool :=
  truthy (bit_and flags (STATE_STOP Ci)) && truthy (bit_and flags (STATE_IS_WINDOW Ci)).

(** An nsIHttpChannel, as the listeners use it: reading a property may
    throw; [visitResponseHeaders] calls the visitor on some headers, in
    order, and may then throw. *)
Record HttpChannel := {
  responseStatus : JsExn + Z;
  responseStatusText : JsExn + string;
  visitResponseHeaders : list (string * string) * option JsExn
}.

(** [request instanceof Ci.nsIHttpChannel] *)
Inductive ChannelRequest :=
| HttpRequest (channel : HttpChannel)
| OtherRequest.

(** The string of an integer, as [+] makes it. *)
Definition Number_toString (n : Z) : string := NilZero.string_of_int (Z.to_int n).

(** The body of the try block of all three state listeners:
    headers.push("HTTP/x.x " + request.responseStatus + " " + request.responseStatusText);
    request.visitResponseHeaders((header, value) => headers.push(header + ": " + value));
    it gives the array afterwards and the exception that ended it. *)
Definition push_headers (request : HttpChannel) (headers : list string)
  : list string * option JsExn :=
  match responseStatus request with
  | inl e => (headers, Some e)
  | inr status =>
      match responseStatusText request with
      | inl e => (headers, Some e)
      | inr text =>
          let headers := headers ++ ["HTTP/x.x " +:+ Number_toString status +:+ " " +:+ text] in
          let '(visited, x) := visitResponseHeaders request in
          (headers ++ map (fun hv => fst hv +:+ ": " +:+ snd hv) visited, x)
      end
  end.

(** ** The messages of the child scripts *)

Module ChildMessages.

Import ChildScript.

(** How a block of statements ends. *)
Inductive Completion (A : Type) :=
| Falls_through
| Returns (v : A)
| Throws (e : JsExn).

Arguments Falls_through {A}.
Arguments Returns {A} v.
Arguments Throws {A} e.

(** try { block } catch (e) {} *)
Definition swallow {A} (block : Completion A) : Completion A :=
  match block with Throws _ => Falls_through | _ => block end.

(** block; rest *)
Definition and_then {A} (block rest : Completion A) : Completion A :=
  match block with Falls_through => rest | _ => block end.

(** *** getRequestWindow (processScript.js) *)

(** The objects [getRequestWindow] reads; a window that is null is None. *)
Record NotificationCallbacks := {
  (* getInterface(Ci.nsILoadContext).associatedWindow *)
  associatedWindow : Host (option Window)
}.

Record LoadGroup := {
  group_notificationCallbacks : Host (option NotificationCallbacks)
}.

Record Channel := {
  notificationCallbacks : Host (option NotificationCallbacks);
  loadGroup : Host (option LoadGroup)
}.

(** if (callbacks) return callbacks.getInterface(...).associatedWindow *)
Definition return_associatedWindow (callbacks : Host (option NotificationCallbacks))
  : Completion (option Window) :=
  match callbacks with
  | inl e => Throws e
  | inr None => Falls_through
  | inr (Some cb) =>
      match associatedWindow cb with
      | inl e => Throws e
      | inr w => Returns w
      end
  end.

(** channel.loadGroup && channel.loadGroup.notificationCallbacks *)
Definition loadGroup_notificationCallbacks (channel : Channel)
  : Host (option NotificationCallbacks) :=
  match loadGroup channel with
  | inl e => inl e
  | inr None => inr None
  | inr (Some g) => group_notificationCallbacks g
  end.

Definition getRequestWindow (channel : Channel) : Completion (option Window) :=
  and_then (swallow (return_associatedWindow (notificationCallbacks channel)))
    (and_then (swallow (return_associatedWindow (loadGroup_notificationCallbacks channel)))
       (Returns None)).

(** *** The "abpcrawler:pageInfoGathered" messages *)

(** The data of a message: processScript.js sends {outerWindowID,
    pageInfo}, frameScript.js sends the page info itself. *)
Inductive MessageData :=
| With_outerWindowID (outerWindowID : Z) (pageInfo : PageInfo)
| Bare (pageInfo : PageInfo).

(** What a listener did: the messages sendAsyncMessage took, the
    exceptions given to reportException and the exception that left the
    listener, if any. *)
Record Outcome := {
  sent : list MessageData;
  reported_exceptions : list JsExn;
  thrown : option JsExn
}.

Definition nothing : Outcome :=
  {| sent := []; reported_exceptions := []; thrown := None |}.

Definition throws (logged : list JsExn) (e : JsExn) : Outcome :=
  {| sent := []; reported_exceptions := logged; thrown := Some e |}.

(** The globals of a child script that the listeners call: the logging
    calls of reportException, and
    sendAsyncMessage("abpcrawler:pageInfoGathered", data); each returns
    or throws. *)
Record Globals := {
  logging : JsExn -> Host unit;
  sendAsyncMessage : MessageData -> Host unit
}.

(** [Object.assign(pageInfo, gathered)] *)
Definition assign (pageInfo gathered : PageInfo) : PageInfo :=
  {| pi_headers := overwrite (pi_headers pageInfo) (pi_headers gathered);
     pi_screenshot := overwrite (pi_screenshot pageInfo) (pi_screenshot gathered);
     pi_source := overwrite (pi_source pageInfo) (pi_source gathered);
     pi_error := overwrite (pi_error pageInfo) (pi_error gathered) |}.

(** [{headers: []}] with the headers pushed. *)
Definition with_headers (headers : list string) : PageInfo :=
  {| pi_headers := Some headers; pi_screenshot := None; pi_source := None; pi_error := None |}.

(** sendAsyncMessage(name, data), the last statement of a listener. *)
Definition send (g : Globals) (logged : list JsExn) (data : MessageData) : Outcome :=
  match sendAsyncMessage g data with
  | inl e => throws logged e
  | inr _ => {| sent := [data]; reported_exceptions := logged; thrown := None |}
  end.

(** The statements the two state listeners share, from
    [let pageInfo = {headers: []}] on: the try block around the headers
    with reportException in its catch block, gatherPageInfo on the
    window, Object.assign and sendAsyncMessage; [data] makes the data of
    the message from the page info. *)
Definition report_page (g : Globals)
    (gatherPageInfo : (JsExn -> Host unit) -> option Window -> Host PageInfo * Store)
    (win : option Window) (channel : HttpChannel) (data : PageInfo -> MessageData) : Outcome :=
  let '(headers, x) := push_headers channel [] in
  let logged := match x with Some e => [e] | None => [] end in
  match match x with Some e => logging g e | None => inr tt end with
  | inl e' => throws logged e'
  | inr _ =>
      match gatherPageInfo (logging g) win with
      | (inl e, s) => throws (logged ++ reported s) e
      | (inr gathered, s) =>
          send g (logged ++ reported s) (data (assign (with_headers headers) gathered))
      end
  end.

(** [webProgress.DOMWindow] throws when the progress has no window. *)
Record WebProgress := {
  isTopLevel : bool;
  DOMWindow : Host (option Window);
  (* win.QueryInterface(...).getInterface(Ci.nsIDOMWindowUtils).outerWindowID *)
  DOMWindow_outerWindowID : Host Z
}.

Module processScript.

(** [webProgressListener.onStateChange] *)
Definition onStateChange (Ci : nsIWebProgressListener) (g : Globals) (webProgress : WebProgress)
    (request : ChannelRequest) (flags status : Z) : Outcome :=
  if isTopLevel webProgress && window_stopped Ci flags then
    match request with
    | HttpRequest channel =>
        match DOMWindow webProgress with
        | inl e => throws [] e
        | inr win =>
            match of_object "win" win with
            | inl e => throws [] e
            | inr _ =>
                match DOMWindow_outerWindowID webProgress with
                | inl e => throws [] e
                | inr outerWindowID =>
                    report_page g ChildScript.processScript.gatherPageInfo win channel
                      (With_outerWindowID outerWindowID)
                end
            end
        end
    | OtherRequest => nothing
    end
  else nothing.

(** The "load" listener [onLoad] that [documentObserver.observe] attaches
    to a new window.  [chrome_outerWindowID] is
    getChromeWindow(window)...outerWindowID and [getOuterWindowWithId] is
    the method of Services.wm, which gives null for an id it does not
    know. *)
Definition onLoad (g : Globals) (chrome_outerWindowID : Host Z)
    (getOuterWindowWithId : Z -> option Window) : Outcome :=
  match chrome_outerWindowID with
  | inl e => throws [] e
  | inr outerWindowID =>
      let wnd := getOuterWindowWithId outerWindowID in
      match ChildScript.processScript.gatherPageInfo (logging g) wnd with
      | (inl e, s) => throws (reported s) e
      | (inr pageInfo, s) => send g (reported s) (With_outerWindowID outerWindowID pageInfo)
      end
  end.

End processScript.

Module frameScript.

(** [webProgressListener.onStateChange]; [content] is the global of the
    frame script, None when it is null. *)
Definition onStateChange (Ci : nsIWebProgressListener) (g : Globals) (content : option Window)
    (isTopLevel : bool) (request : ChannelRequest) (flags status : Z) : Outcome :=
  if isTopLevel && window_stopped Ci flags then
    match request with
    | HttpRequest channel =>
        report_page g ChildScript.frameScript.gatherPageInfo content channel Bare
    | OtherRequest => nothing
    end
  else nothing.

End frameScript.

(** [onWindowLoaded(msg)] of the crawler:
    pageInfoListener.setPageInfo(msg.data.outerWindowID, msg.data.pageInfo).
    The data of frameScript.js has neither property: both arguments are
    undefined, and undefined is the key of no registration, the keys
    being window ids. *)
Definition onWindowLoaded (data : MessageData) (l : PageInfoListener.t) : PageInfoListener.t :=
  match data with
  | With_outerWindowID outerWindowID pageInfo =>
      PageInfoListener.setPageInfo outerWindowID pageInfo l
  | Bare _ => l
  end.

End ChildMessages.

(** ** LoadListener *)

Module LoadListener.

(** How a promise made by [waitForLoad] stands; it is resolved with
    [status, headers]. *)
Inductive PromiseState :=
| Pending
| Resolved (status : Z) (headers : list string).

#[global] Instance PromiseState_eq_dec : EqDecision PromiseState.
Proof. solve_decision. Defined.

(** The listener with the part of the host it uses.  A browser
    ([tab.linkedBrowser]) is named by its tab; a deferred by the number
    of its promise; an armed timer holds the browser it will stop. *)
Record t := {
  _timeout : Z;
  _deferred : gmap Tab nat;
  promises : gmap nat PromiseState;
  timers : gmap nat (Tab * Z);     (* the browser to stop, the delay *)
  stopped : list Tab;              (* calls of linkedBrowser.stop() *)
  listening : bool;                (* added as tabs progress listener *)
  next_timer : nat;
  next_promise : nat
}.

(** [new LoadListener(browser, timeout)] *)
Definition new (timeout : Z) : t :=
  {| _timeout := timeout; _deferred := ∅; promises := ∅; timers := ∅; stopped := [];
     listening := true; next_timer := 0; next_promise := 0 |}.

(** [waitForLoad(tab)]: the promise and the new state. *)
Definition waitForLoad (tab : Tab) (l : t) : nat * t :=
  let deferred := next_promise l in
  (deferred,
   {| _timeout := _timeout l;
      _deferred := <[tab := deferred]> (_deferred l);
      promises := <[deferred := Pending]> (promises l);
      timers := <[next_timer l := (tab, _timeout l)]> (timers l);
      stopped := stopped l;
      listening := listening l;
      next_timer := S (next_timer l);
      next_promise := S deferred |}).

(** [stop()]: this._browser.removeTabsProgressListener(this) *)
Definition stop (l : t) : t :=
  {| _timeout := _timeout l; _deferred := _deferred l; promises := promises l;
     timers := timers l; stopped := stopped l; listening := false;
     next_timer := next_timer l; next_promise := next_promise l |}.

(** [deferred.resolve(v)]: settles the promise unless it is settled. *)
Definition resolve (p : nat) (status : Z) (headers : list string)
    (ps : gmap nat PromiseState) : gmap nat PromiseState :=
  match ps !! p with
  | Some Pending => <[p := Resolved status headers]> ps
  | _ => ps
  end.

Definition onStateChange (Ci : nsIWebProgressListener) (browser : Tab)
    (request : ChannelRequest) (flags status : Z) (l : t) : t :=
  if window_stopped Ci flags then
    match _deferred l !! browser with
    | Some deferred =>
        let headers :=
          match request with
          | HttpRequest channel => fst (push_headers channel [])
          | OtherRequest => []
          end in
        {| _timeout := _timeout l;
           _deferred := delete browser (_deferred l);
           promises := resolve deferred status headers (promises l);
           timers := timers l; stopped := stopped l; listening := listening l;
           next_timer := next_timer l; next_promise := next_promise l |}
    | None => l
    end
  else l.

(** The callback of the timer: tab.linkedBrowser.stop() *)
Definition timer_fires (timerID : nat) (l : t) : t :=
  match timers l !! timerID with
  | Some (tab, _) =>
      {| _timeout := _timeout l; _deferred := _deferred l; promises := promises l;
         timers := delete timerID (timers l); stopped := stopped l ++ [tab];
         listening := listening l;
         next_timer := next_timer l; next_promise := next_promise l |}
  | None => l
  end.

(** Everything that can happen to a listener; the browser calls
    [onStateChange] of the listeners it has. *)
Inductive Event :=
| WaitForLoad (tab : Tab)
| Stop
| StateChange (browser : Tab) (request : ChannelRequest) (flags status : Z)
| TimerFires (timerID : nat).

Definition step (Ci : nsIWebProgressListener) (l : t) (e : Event) : t :=
  match e with
  | WaitForLoad tab => snd (waitForLoad tab l)
  | Stop => stop l
  | StateChange browser request flags status =>
      if listening l then onStateChange Ci browser request flags status l else l
  | TimerFires n => timer_fires n l
  end.

Definition run (Ci : nsIWebProgressListener) (es : list Event) (l : t) : t :=
  fold_left (step Ci) es l.

(** The state change that ends the load of a browser. *)
Definition is_window_stop (Ci : nsIWebProgressListener) (browser : Tab) (e : Event) : bool :=
  match e with
  | StateChange b _ flags _ => bool_decide (b = browser) && window_stopped Ci flags
  | _ => false
  end.

End LoadListener.

(** ** run: waiting for the filters *)

Module Startup.

(** The promise made by [run], the listener it may add to FilterNotifier
    and what came of it: the calls of crawl_urls and the exceptions given
    to reportException. *)
Record t := {
  listener_added : bool;       (* onFiltersLoaded is a listener of FilterNotifier *)
  resolved : bool;
  crawl_urls_calls : nat;
  reported : list JsExn
}.

(** [resolve()], with the reactions .then(() => crawl_urls(...)) and
    .catch(reportException); [crawl_urls] says whether the call throws. *)
Definition resolve (crawl_urls : option JsExn) (s : t) : t :=
  if resolved s then s
  else {| listener_added := listener_added s; resolved := true;
          crawl_urls_calls := S (crawl_urls_calls s);
          reported := reported s ++ match crawl_urls with Some e => [e] | None => [] end |}.

(** [run(window, urls, timeout, maxtabs, targetURL, onDone)], given
    FilterStorage.subscriptions.length. *)
Definition run (subscriptions_length : Z) (crawl_urls : option JsExn) : t :=
  let s := {| listener_added := false; resolved := false; crawl_urls_calls := 0;
              reported := [] |} in
  if 0 <? subscriptions_length then resolve crawl_urls s
  else {| listener_added := true; resolved := resolved s;
          crawl_urls_calls := crawl_urls_calls s; reported := reported s |}.

(** [onFiltersLoaded(action, item, newValue, oldValue)] *)
Definition onFiltersLoaded (action : string) (crawl_urls : option JsExn) (s : t) : t :=
  if String.eqb action "load" then
    resolve crawl_urls
      {| listener_added := false; resolved := resolved s;
         crawl_urls_calls := crawl_urls_calls s; reported := reported s |}
  else s.

(** FilterNotifier calls the listeners it has. *)
Definition notify (crawl_urls : option JsExn) (s : t) (action : string) : t :=
  if listener_added s then onFiltersLoaded action crawl_urls s else s.

End Startup.

(** ** The logging service *)

Module Logger.

(** [s.lastIndexOf(pattern)]: the greatest index at which [pattern]
    occurs in [s], or -1.  [from] is the index of the first character of
    [s] in the whole string, [found] the last occurrence before it. *)
Fixpoint lastIndexOf_from (pattern s : string) (from found : Z) : Z :=
  let found := if String.prefix pattern s then from else found in
  match s with
  | EmptyString => found
  | String _ rest => lastIndexOf_from pattern rest (from + 1) found
  end.

Definition lastIndexOf (pattern s : string) : Z := lastIndexOf_from pattern s 0 (-1).

Fixpoint drop_chars (n : nat) (s : string) : string :=
  match n, s with
  | O, _ => s
  | S n', String _ rest => drop_chars n' rest
  | S _, EmptyString => EmptyString
  end.

(** [s.substr(start)]: a negative start counts from the end. *)
Definition substr (start : Z) (s : string) : string :=
  let len := Z.of_nat (String.length s) in
  drop_chars (Z.to_nat (if start <? 0 then Z.max (len + start) 0 else start)) s.

(** [Components.stack.caller] *)
Record Frame := { filename : string; lineNumber : Z }.

(** The arguments of nsIScriptError.init, null being None. *)
Record ScriptError := {
  message : string;
  sourceName : string;
  sourceLine : option string;
  error_lineNumber : Z;
  columnNumber : option Z;
  flags : Z;
  category : string
}.

(** [Logger.prototype.log]: [allow] is None when fewer than three
    arguments were given, and else the truth value of the third.  The
    result is the report given to logMessage, if any. *)
Definition log (prefix message : string) (allow : option bool) (caller : Frame)
  : option ScriptError :=
  match allow with
  | Some false => None
  | _ =>
      let filename := filename caller in
      let n := lastIndexOf " -> " filename in
      let filename := if -1 <? n then substr (n + 4) filename else filename in
      Some {| message := prefix +:+ message; sourceName := filename; sourceLine := None;
              error_lineNumber := lineNumber caller; columnNumber := None;
              flags := 1; category := "javascript" |}
  end.

(** [Logger.prototype.make_log]: the function returned is [log] with its
    first argument bound; [submodule] is None when undefined. *)
Definition make_log (module : string) (submodule : option string)
  : string -> option bool -> Frame -> option ScriptError :=
  let prefix := module in
  let prefix :=
    match submodule with
    | Some submodule =>
        if (0 <? String.length submodule)%nat then prefix +:+ "/" +:+ submodule else prefix
    | None => prefix
    end in
  let prefix := prefix +:+ ": " in
  log prefix.

End Logger.

(** ** crawl_urls of the crawler built on LoadListener *)

Module LoadCrawlerBatch.

(** The effects of the batch: those of the other crawler, and
    loadListener.stop(). *)
Inductive BatchEffect :=
| Stopped_loadListener
| Shared (e : Crawler.BatchEffect).

#[global] Instance BatchEffect_eq_dec : EqDecision BatchEffect.
Proof. solve_decision. Defined.

Record Batch := {
  running : Z;
  jobs : list (string * Crawler.JobStatus);
  did : list BatchEffect
}.

(** running++; Task.spawn(...).then(..., ...) for one url *)
Definition spawn (b : Batch) (u : string) : Batch :=
  {| running := running b + 1; jobs := jobs b ++ [(u, Crawler.Spawned)]; did := did b |}.

Definition crawl_urls (urls : list string) : Batch :=
  fold_left spawn urls {| running := 0; jobs := []; did := [] |}.

(** running--; if (running <= 0) { loadListener.stop(); windowCloser.stop(); onDone(); } *)
Definition taskDone (b : Batch) : Batch :=
  let n := running b - 1 in
  if n <=? 0 then
    {| running := n; jobs := jobs b;
       did := did b ++ [Stopped_loadListener; Shared Crawler.Stopped_windowCloser;
                        Shared Crawler.Called_onDone] |}
  else
    {| running := n; jobs := jobs b; did := did b |}.

Definition set_status (i : nat) (st : Crawler.JobStatus) (b : Batch) : Batch :=
  {| running := running b;
     jobs := alter (fun x => (fst x, st)) i (jobs b);
     did := did b |}.

Definition do_effects (es : list BatchEffect) (b : Batch) : Batch :=
  {| running := running b; jobs := jobs b; did := did b ++ es |}.

(** The two handlers given to [then] and the listeners of the request,
    word for word those of the other crawler. *)
Definition batch_step (b : Batch) (e : Crawler.BatchEvent) : Batch :=
  match e with
  | Crawler.Task_settled i outcome now =>
      match jobs b !! i with
      | Some (u, Crawler.Spawned) =>
          match outcome with
          | inr result =>
              set_status i Crawler.Reporting (do_effects [Shared (Crawler.Sent i result)] b)
          | inl exception =>
              set_status i Crawler.Reporting
                (do_effects [Shared (Crawler.Logged exception);
                             Shared (Crawler.Sent i (Crawler.failure_record u now exception))] b)
          end
      | _ => b
      end
  | Crawler.Xhr_finished i _ =>
      match jobs b !! i with
      | Some (_, Crawler.Reporting) => taskDone (set_status i Crawler.Finished b)
      | _ => b
      end
  end.

Definition batch_run (es : list Crawler.BatchEvent) (b : Batch) : Batch :=
  fold_left batch_step es b.

(** Calls of loadListener.stop(). *)
Definition stop_calls (b : Batch) : nat :=
  length (filter (fun e => e = Stopped_loadListener) (did b)).

(** The batch without the calls of loadListener.stop(). *)
Definition shared (e : BatchEffect) : option Crawler.BatchEffect :=
  match e with Shared e' => Some e' | Stopped_loadListener => None end.

Definition without_loadListener (b : Batch) : Crawler.Batch :=
  {| Crawler.running := running b; Crawler.jobs := jobs b;
     Crawler.did := omap shared (did b) |}.

End LoadCrawlerBatch.

(** * Theorems *)

(** ** The action library *)

Section ActionFacts.

Import Action.

Variable set_timer : option Z -> nat.

Lemma state_is_not_Ready_spec (a : Asynchronous_Action) :
  state_is_not Ready a = false <-> _state a = Some Ready.
Proof.
  unfold state_is_not. destruct (_state a) as [[]|]; simpl; split; congruence.
Qed.

(** An object on the bare prototype is never Ready: only the instance
    constructors of Defer and Delay call [init]. *)
Definition sound (a : Asynchronous_Action) : Prop :=
  class_of a = Asynchronous_Action_proto -> _state a <> Some Ready.

Lemma construct_sound (k : Ctor) : sound (construct k).
Proof. destruct k; unfold sound; simpl; congruence. Qed.

Lemma call_if_set_shape (f : option Callback) :
  forall es x, call_if_set f = (es, x) ->
  filter (fun e => is_start e = true) es = [].
Proof.
  intros es x. destruct f; simpl; intros [= <- <-]; reflexivity.
Qed.

Definition started (es : list Effect) : nat :=
  length (filter (fun e => is_start e = true) es).

Lemma started_app (es fs : list Effect) : started (es ++ fs) = (started es + started fs)%nat.
Proof. unfold started. by rewrite filter_app, length_app. Qed.

Lemma starts_cons (c : Call) (o : Outcome) (h : list (Call * Outcome)) :
  starts ((c, o) :: h) = (started (effects o) + starts h)%nat.
Proof. unfold starts, started. simpl. by rewrite filter_app, length_app. Qed.

Lemma successful_gos_cons (c : Call) (o : Outcome) (h : list (Call * Outcome)) :
  successful_gos ((c, o) :: h) =
  ((if is_go c then match thrown o with None => 1 | Some _ => 0 end else 0)
   + successful_gos h)%nat.
Proof.
  unfold successful_gos. rewrite filter_cons.
  destruct (decide _) as [[G T]|N]; simpl in *.
  - by rewrite G, T.
  - destruct (is_go c); [|reflexivity].
    destruct (thrown o); [reflexivity|]. exfalso. by apply N.
Qed.

Lemma end_well_facts (a : Asynchronous_Action) :
  _state (obj (end_well a)) = Some Done /\
  class_of (obj (end_well a)) = class_of a /\
  started (effects (end_well a)) = 0%nat.
Proof.
  unfold end_well. destruct (finally_f (set_state Done a)); simpl; auto.
Qed.

Lemma end_badly_facts (e : JsExn) (a : Asynchronous_Action) :
  _state (obj (end_badly e a)) = Some Exception /\
  class_of (obj (end_badly e a)) = class_of a /\
  started (effects (end_badly e a)) = 0%nat.
Proof.
  unfold end_badly.
  destruct (catch_f (set_state Exception a)), (finally_f (set_state Exception a)); simpl; auto.
Qed.

Lemma body_facts (a : Asynchronous_Action) :
  (_state (obj (_body a)) = _state a \/ _state (obj (_body a)) = Some Done
   \/ _state (obj (_body a)) = Some Exception) /\
  class_of (obj (_body a)) = class_of a /\
  started (effects (_body a)) = 0%nat.
Proof.
  unfold _body, end_well, end_badly, call_if_set, started.
  destruct (class_of a) eqn:K, (try_f a) as [cb|]; simpl; auto.
  all: try destruct (cb_throws cb) as [e|]; simpl.
  all: destruct (catch_f a), (finally_f a); simpl; auto.
Qed.

Lemma go_not_Ready (f c : option Callback) (a : Asynchronous_Action) :
  _state a <> Some Ready ->
  go set_timer f c a =
  throws a [] (JsError "Call to go() is invalid because the action is not in state 'Ready'.").
Proof.
  intros H. unfold go.
  destruct (state_is_not Ready a) eqn:E; [reflexivity|].
  apply state_is_not_Ready_spec in E. contradiction.
Qed.

Lemma go_Ready (f c : option Callback) (a : Asynchronous_Action) :
  _state a = Some Ready ->
  go set_timer f c a = _go set_timer (set_state Running (set_handlers f c a)).
Proof.
  intros H. unfold go.
  apply state_is_not_Ready_spec in H. by rewrite H.
Qed.

Lemma go_Ready_sound (f c : option Callback) (a : Asynchronous_Action) :
  sound a -> _state a = Some Ready ->
  thrown (go set_timer f c a) = None /\
  _state (obj (go set_timer f c a)) = Some Running /\
  class_of (obj (go set_timer f c a)) = class_of a /\
  started (effects (go set_timer f c a)) = 1%nat.
Proof.
  intros S H. rewrite (go_Ready f c a H). unfold _go. simpl.
  destruct (class_of a) eqn:K; simpl; auto.
  exfalso. apply S; assumption.
Qed.

Lemma perform_sound (c : Call) (a : Asynchronous_Action) :
  sound a -> sound (obj (perform set_timer c a)).
Proof.
  intros S. unfold sound. destruct c as [f k| | |e]; simpl.
  - destruct (decide (_state a = Some Ready)) as [R|R].
    + destruct (go_Ready_sound f k a S R) as (_ & -> & _). congruence.
    + rewrite (go_not_Ready f k a R). simpl. exact S.
  - destruct (body_facts a) as ([->| [-> | ->]] & -> & _); try congruence. exact S.
  - destruct (end_well_facts a) as (-> & _). congruence.
  - destruct (end_badly_facts e a) as (-> & _). congruence.
Qed.

Lemma after_sound (cs : list Call) (a : Asynchronous_Action) :
  sound a -> sound (after set_timer a cs).
Proof.
  revert a. induction cs as [|c cs IH]; simpl; intros a S; [exact S|].
  apply IH, perform_sound, S.
Qed.

(** Once an action has left Ready it never comes back, starts nothing
    and every call of go throws. *)
Lemma perform_not_Ready (c : Call) (a : Asynchronous_Action) :
  _state a <> Some Ready ->
  _state (obj (perform set_timer c a)) <> Some Ready /\
  started (effects (perform set_timer c a)) = 0%nat /\
  (is_go c = true -> thrown (perform set_timer c a) <> None).
Proof.
  intros R. destruct c as [f k| | |e]; simpl.
  - rewrite (go_not_Ready f k a R). simpl. repeat split; auto; congruence.
  - destruct (body_facts a) as ([->| [-> | ->]] & _ & ->); repeat split; congruence.
  - destruct (end_well_facts a) as (-> & _ & ->). repeat split; congruence.
  - destruct (end_badly_facts e a) as (-> & _ & ->). repeat split; congruence.
Qed.

Lemma spent (cs : list Call) (a : Asynchronous_Action) :
  _state a <> Some Ready ->
  starts (history set_timer a cs) = 0%nat /\
  successful_gos (history set_timer a cs) = 0%nat /\
  _state (after set_timer a cs) <> Some Ready.
Proof.
  revert a. induction cs as [|c cs IH]; intros a R; simpl.
  - repeat split; auto.
  - destruct (perform_not_Ready c a R) as (R' & S0 & G).
    destruct (IH _ R') as (IH1 & IH2 & IH3).
    rewrite starts_cons, successful_gos_cons, S0, IH1, IH2.
    repeat split; auto.
    destruct (is_go c); [|reflexivity].
    destruct (thrown (perform set_timer c a)); [reflexivity|].
    exfalso. by apply G.
Qed.

Lemma perform_Ready (c : Call) (a : Asynchronous_Action) :
  sound a -> _state a = Some Ready ->
  _state (obj (perform set_timer c a)) <> Some Ready /\
  (started (effects (perform set_timer c a)) <= 1)%nat.
Proof.
  intros S R. destruct c as [f k| | |e]; simpl.
  - destruct (go_Ready_sound f k a S R) as (_ & -> & _ & ->). split; [congruence|lia].
  - destruct (body_facts a) as (St & K & ->). split; [|lia].
    unfold _body in *. destruct (class_of a) eqn:C.
    + exfalso. by apply S.
    + destruct (try_f a) as [cb|]; simpl; [destruct (cb_throws cb); simpl|];
        first [ rewrite (proj1 (end_well_facts a)) | rewrite (proj1 (end_badly_facts _ a)) ];
        congruence.
    + destruct (try_f a) as [cb|]; simpl; [destruct (cb_throws cb); simpl|];
        first [ rewrite (proj1 (end_well_facts a)) | rewrite (proj1 (end_badly_facts _ a)) ];
        congruence.
  - destruct (end_well_facts a) as (-> & _ & ->). split; [congruence|lia].
  - destruct (end_badly_facts e a) as (-> & _ & ->). split; [congruence|lia].
Qed.

Lemma at_most_one_start (cs : list Call) (a : Asynchronous_Action) :
  sound a ->
  (starts (history set_timer a cs) <= 1)%nat /\
  (successful_gos (history set_timer a cs) <= 1)%nat.
Proof.
  revert a. induction cs as [|c cs IH]; intros a S; simpl.
  - unfold starts, successful_gos. simpl. lia.
  - rewrite starts_cons, successful_gos_cons.
    destruct (decide (_state a = Some Ready)) as [R|R].
    + destruct (perform_Ready c a S R) as (R' & L).
      destruct (spent cs _ R') as (-> & -> & _).
      split; [lia|]. destruct (is_go c); [|lia].
      destruct (thrown _); lia.
    + destruct (perform_not_Ready c a R) as (R' & -> & G).
      destruct (spent cs _ R') as (-> & -> & _).
      split; [lia|]. destruct (is_go c); [|lia].
      destruct (thrown _); lia.
Qed.

(** C10. [Action.Asynchronous_Action.prototype.go], on any action object
    the library can build (a constructor followed by any calls of its
    methods): go throws exactly when the state is not Ready, and then it
    is the Error of go and nothing else happens; when it does not throw it
    has set the state to Running before running [_go] (the outcome is that
    of [_go] on the object already in state Running) and has started the
    subprogram once; every later call of go on the object throws, whatever
    calls come in between; and over a whole life the subprogram is started
    at most once. *)
Theorem Action_go_only_from_Ready :
  forall (k : Ctor) (before : list Call) (f c : option Callback),
    let a := after set_timer (construct k) before in
    let o := go set_timer f c a in
    (is_Some (thrown o) <-> _state a <> Some Ready) /\
    (is_Some (thrown o) ->
       o = throws a [] (JsError "Call to go() is invalid because the action is not in state 'Ready'.")) /\
    (thrown o = None ->
       o = _go set_timer (set_state Running (set_handlers f c a)) /\
       _state (set_state Running (set_handlers f c a)) = Some Running /\
       _state (obj o) = Some Running /\
       started (effects o) = 1%nat) /\
    (forall (between : list Call) (f' c' : option Callback),
       thrown o = None ->
       is_Some (thrown (go set_timer f' c' (after set_timer (obj o) between)))) /\
    (forall (life : list Call),
       (starts (history set_timer (construct k) life) <= 1)%nat /\
       (successful_gos (history set_timer (construct k) life) <= 1)%nat).
Proof.
  intros k before f c a o.
  assert (S : sound a) by (apply after_sound, construct_sound).
  assert (iff_ : is_Some (thrown o) <-> _state a <> Some Ready).
  { subst o. destruct (decide (_state a = Some Ready)) as [R|R].
    - destruct (go_Ready_sound f c a S R) as (-> & _). split.
      + intros [x Hx]. discriminate.
      + contradiction.
    - rewrite (go_not_Ready f c a R). simpl. split; [auto|]. intros _. by eexists. }
  split; [exact iff_|]. split; [|split; [|split]].
  - intros T. apply iff_ in T. subst o. by apply go_not_Ready.
  - intros T. destruct (decide (_state a = Some Ready)) as [R|R].
    + subst o. destruct (go_Ready_sound f c a S R) as (_ & ? & _ & ?).
      rewrite <- (go_Ready f c a R). auto.
    + apply iff_ in R. destruct R as [x Hx]. congruence.
  - intros between f' c' T.
    destruct (decide (_state a = Some Ready)) as [R|R].
    + subst o. destruct (go_Ready_sound f c a S R) as (_ & Run & _).
      assert (N : _state (obj (go set_timer f c a)) <> Some Ready) by congruence.
      destruct (spent between _ N) as (_ & _ & N').
      rewrite (go_not_Ready f' c' _ N'). simpl. by eexists.
    + apply iff_ in R. destruct R as [x Hx]. congruence.
  - intros life. apply at_most_one_start, construct_sound.
Qed.

End ActionFacts.

(** ** gatherPageInfo *)

Section GatherFacts.

Import ChildScript.

(** The two files hold the same function. *)
Lemma gatherPageInfo_same (logging : JsExn -> Host unit) (wnd : option Window) :
  processScript.gatherPageInfo logging wnd = frameScript.gatherPageInfo logging wnd.
Proof. reflexivity. Qed.

Lemma gather_body_no_root (logging : JsExn -> Host unit) (w : Window) (d : Document) :
  document w = inr (Some d) -> documentElement d = inr None ->
  gather_body logging (Some w) fresh_store = (inr empty_object, fresh_store).
Proof.
  intros D H. unfold gather_body, bind, host, ret, get_result. simpl.
  rewrite D. simpl. rewrite H. reflexivity.
Qed.

(** With a root element the function ends as its try statement does: it
    returns the store of the try block, with the error added when the try
    block threw and reportException returned; an exception of
    reportException leaves the function. *)
Lemma gather_body_root (logging : JsExn -> Host unit) (w : Window) (d : Document)
    (root : Element) :
  document w = inr (Some d) -> documentElement d = inr (Some root) ->
  gather_body logging (Some w) fresh_store =
  match try_block w d root fresh_store with
  | (inr _, s) => (inr (result s), s)
  | (inl e, s) =>
      match reportException logging e s with
      | (inl e', s') => (inl e', s')
      | (inr _, s') =>
          let s'' := snd (set_error "Cannot gather page info" s') in
          (inr (result s''), s'')
      end
  end.
Proof.
  intros D H. unfold gather_body, bind, host, try_catch, get_result. simpl.
  rewrite D. simpl. rewrite H.
  destruct (try_block w d root fresh_store) as [[e|[]] s]; [|reflexivity].
  unfold reportException. destruct (logging e) as [e'|[]]; reflexivity.
Qed.

(** The try block throws exactly when one of its host calls does; the
    calls are made in this order, the three of the screenshot only for a
    canvas of positive size. *)
Definition first_throw (wnd : Window) (document : Document) (root : Element) : option JsExn :=
  match createElementNS document with
  | inl e => Some e
  | inr canvas =>
      let width := stored_dimension canvas (scrollWidth root) in
      let height := stored_dimension canvas (scrollHeight root) in
      let shot :=
        if (0 <? width) && (0 <? height) then
          match getContext canvas with
          | inl e => Some e
          | inr context =>
              match drawWindow context width height with
              | inl e => Some e
              | inr _ => match toDataURL canvas with inl e => Some e | inr _ => None end
              end
          end
        else None in
      match shot with
      | Some e => Some e
      | None =>
          match new_XMLSerializer wnd with
          | inl e => Some e
          | inr serializer =>
              match serializeToString serializer root with
              | inl e => Some e
              | inr _ => None
              end
          end
      end
  end.

Lemma try_block_throws (wnd : Window) (d : Document) (root : Element) (s : Store) :
  match fst (try_block wnd d root s) with
  | inl e => first_throw wnd d root = Some e
  | inr _ => first_throw wnd d root = None
  end.
Proof.
  unfold first_throw, try_block, bind, host, ret, set_source, set_screenshot.
  destruct (createElementNS d) as [e|canvas]; simpl; [reflexivity|].
  destruct ((0 <? _) && (0 <? _)); simpl.
  - destruct (getContext canvas) as [e|context]; simpl; [reflexivity|].
    destruct (drawWindow context _ _) as [e|[]]; simpl; [reflexivity|].
    destruct (toDataURL canvas) as [e|data]; simpl; [reflexivity|].
    destruct (new_XMLSerializer wnd) as [e|serializer]; simpl; [reflexivity|].
    destruct (serializeToString serializer root) as [e|text]; reflexivity.
  - destruct (new_XMLSerializer wnd) as [e|serializer]; simpl; [reflexivity|].
    destruct (serializeToString serializer root) as [e|text]; reflexivity.
Qed.

(** The try block gives nothing to reportException. *)
Lemma try_block_reports_nothing (wnd : Window) (d : Document) (root : Element) (s : Store) :
  reported (snd (try_block wnd d root s)) = reported s.
Proof.
  unfold try_block, bind, host, ret, set_source, set_screenshot.
  destruct (createElementNS d) as [e|canvas]; simpl; [reflexivity|].
  destruct ((0 <? _) && (0 <? _)); simpl.
  - destruct (getContext canvas) as [e|context]; simpl; [reflexivity|].
    destruct (drawWindow context _ _) as [e|[]]; simpl; [reflexivity|].
    destruct (toDataURL canvas) as [e|data]; simpl; [reflexivity|].
    destruct (new_XMLSerializer wnd) as [e|serializer]; simpl; [reflexivity|].
    destruct (serializeToString serializer root) as [e|text]; reflexivity.
  - destruct (new_XMLSerializer wnd) as [e|serializer]; simpl; [reflexivity|].
    destruct (serializeToString serializer root) as [e|text]; reflexivity.
Qed.

(** The function returns for a window that is there, whose document and
    documentElement can be read, when reportException returns for what
    the try block throws. *)
Lemma gather_body_returns (logging : JsExn -> Host unit) (w : Window) (d : Document)
    (root : option Element) :
  document w = inr (Some d) ->
  documentElement d = inr root ->
  (forall (r0 : Element) (e : JsExn),
     root = Some r0 -> fst (try_block w d r0 fresh_store) = inl e -> logging e = inr tt) ->
  exists r, fst (gather_body logging (Some w) fresh_store) = inr r.
Proof.
  intros D H L. destruct root as [r0|].
  - rewrite (gather_body_root logging w d r0 D H).
    specialize (L r0).
    destruct (try_block w d r0 fresh_store) as [[e|[]] s]; simpl; [|eauto].
    unfold reportException. rewrite (L e eq_refl eq_refl). simpl. eauto.
  - rewrite (gather_body_no_root logging w d D H). simpl. eauto.
Qed.

(** What the function returns has no headers. *)
Lemma gather_body_headers (logging : JsExn -> Host unit) (wnd : option Window)
    (gathered : PageInfo) :
  fst (gather_body logging wnd fresh_store) = inr gathered -> pi_headers gathered = None.
Proof.
  unfold gather_body, try_catch, try_block, bind, host, ret, get_result,
    set_source, set_screenshot, set_error, reportException.
  destruct wnd as [w|]; simpl; [|done].
  destruct (document w) as [?|[d|]]; simpl; try done.
  destruct (documentElement d) as [?|[root|]]; simpl; try done; [|by intros [= <-]].
  destruct (createElementNS d) as [e|canvas]; simpl;
    [destruct (logging e) as [?|[]]; simpl; [done|by intros [= <-]]|].
  destruct ((0 <? _) && (0 <? _)); simpl.
  - destruct (getContext canvas) as [e|context]; simpl;
      [destruct (logging e) as [?|[]]; simpl; [done|by intros [= <-]]|].
    destruct (drawWindow context _ _) as [e|[]]; simpl;
      [destruct (logging e) as [?|[]]; simpl; [done|by intros [= <-]]|].
    destruct (toDataURL canvas) as [e|data]; simpl;
      [destruct (logging e) as [?|[]]; simpl; [done|by intros [= <-]]|].
    destruct (new_XMLSerializer w) as [e|serializer]; simpl;
      [destruct (logging e) as [?|[]]; simpl; [done|by intros [= <-]]|].
    destruct (serializeToString serializer root) as [e|text]; simpl;
      [destruct (logging e) as [?|[]]; simpl; [done|by intros [= <-]]|by intros [= <-]].
  - destruct (new_XMLSerializer w) as [e|serializer]; simpl;
      [destruct (logging e) as [?|[]]; simpl; [done|by intros [= <-]]|].
    destruct (serializeToString serializer root) as [e|text]; simpl;
      [destruct (logging e) as [?|[]]; simpl; [done|by intros [= <-]]|by intros [= <-]].
Qed.

(** C9, as far as it holds.  [gatherPageInfo] of processScript.js and of
    frameScript.js, called with a window that is not null, whose document
    can be read and is not null and whose documentElement can be read:
    the call returns an object and no exception leaves it, provided
    reportException returns for the exception the try block throws, if
    it throws one; without a documentElement the object is the empty one
    (no screenshot, no source, no error); and when the try block
    (screenshot capture and source serialization) throws, the object
    returned has the error "Cannot gather page info" and the exception
    went to reportException only. *)
Theorem gatherPageInfo_returns_an_object :
  forall (logging : JsExn -> Host unit) (w : Window) (d : Document) (root : option Element),
    document w = inr (Some d) ->
    documentElement d = inr root ->
    (forall (r0 : Element) (e : JsExn),
       root = Some r0 -> fst (try_block w d r0 fresh_store) = inl e -> logging e = inr tt) ->
    (exists r, fst (processScript.gatherPageInfo logging (Some w)) = inr r /\
               fst (frameScript.gatherPageInfo logging (Some w)) = inr r) /\
    (root = None ->
       fst (processScript.gatherPageInfo logging (Some w)) = inr empty_object /\
       fst (frameScript.gatherPageInfo logging (Some w)) = inr empty_object) /\
    (forall (r0 : Element) (e : JsExn),
       root = Some r0 ->
       fst (try_block w d r0 fresh_store) = inl e ->
       exists r, fst (processScript.gatherPageInfo logging (Some w)) = inr r /\
                 fst (frameScript.gatherPageInfo logging (Some w)) = inr r /\
                 pi_error r = Some "Cannot gather page info"%string /\
                 reported (snd (processScript.gatherPageInfo logging (Some w))) = [e] /\
                 reported (snd (frameScript.gatherPageInfo logging (Some w))) = [e]).
Proof.
  intros logging w d root D H L.
  unfold processScript.gatherPageInfo, frameScript.gatherPageInfo.
  assert (T : forall r0 e,
            root = Some r0 -> fst (try_block w d r0 fresh_store) = inl e ->
            exists r, fst (gather_body logging (Some w) fresh_store) = inr r /\
                      pi_error r = Some "Cannot gather page info"%string /\
                      reported (snd (gather_body logging (Some w) fresh_store)) = [e]).
  { intros r0 e -> B. rewrite (gather_body_root logging w d r0 D H).
    pose proof (try_block_reports_nothing w d r0 fresh_store) as R.
    specialize (L r0 e eq_refl B).
    destruct (try_block w d r0 fresh_store) as [[e'|[]] s]; simpl in B; [|discriminate].
    injection B as ->. simpl in R. unfold reportException. rewrite L. simpl.
    rewrite R. eauto. }
  split; [|split].
  - destruct (gather_body_returns logging w d root D H L) as [r Hr]. eauto.
  - intros ->. rewrite (gather_body_no_root logging w d D H). auto.
  - intros r0 e Hr B. destruct (T r0 e Hr B) as (r & G & E & R). eauto 10.
Qed.

End GatherFacts.

(** reportException returns. *)
Definition quiet : JsExn -> ChildScript.Host unit := fun _ => inr tt.

(** The globals of a child script whose calls return. *)
Definition quiet_globals : ChildMessages.Globals :=
  {| ChildMessages.logging := quiet; ChildMessages.sendAsyncMessage := fun _ => inr tt |}.

(** A page whose canvas works and whose serializer throws: the object
    returned keeps the screenshot taken before and carries the error. *)
Definition sample_document : ChildScript.Document :=
  {| ChildScript.documentElement :=
       inr (Some {| ChildScript.scrollWidth := 800; ChildScript.scrollHeight := 600 |});
     ChildScript.createElementNS :=
       inr {| ChildScript.stored_dimension := fun v => v;
              ChildScript.getContext :=
                inr {| ChildScript.drawWindow := fun _ _ => inr tt |};
              ChildScript.toDataURL := inr "data:image/jpeg;base64,AAAA"%string |} |}.

Definition sample_window : ChildScript.Window :=
  {| ChildScript.document := inr (Some sample_document);
     ChildScript.new_XMLSerializer :=
       inr {| ChildScript.serializeToString := fun _ => inl (JsError "out of memory") |} |}.

Example gatherPageInfo_sample :
  ChildScript.processScript.gatherPageInfo quiet (Some sample_window) =
  (inr {| pi_headers := None;
          pi_screenshot := Some "data:image/jpeg;base64,AAAA"%string;
          pi_source := None;
          pi_error := Some "Cannot gather page info"%string |},
   {| ChildScript.result :=
        {| pi_headers := None;
           pi_screenshot := Some "data:image/jpeg;base64,AAAA"%string;
           pi_source := None;
           pi_error := Some "Cannot gather page info"%string |};
      ChildScript.reported := [JsError "out of memory"] |}).
Proof. reflexivity. Qed.

(** The sample page, whose try block throws. *)
Lemma gatherPageInfo_returns_an_object_witness :
  (exists r, fst (ChildScript.processScript.gatherPageInfo quiet (Some sample_window)) = inr r /\
             fst (ChildScript.frameScript.gatherPageInfo quiet (Some sample_window)) = inr r) /\
  (exists r, fst (ChildScript.processScript.gatherPageInfo quiet (Some sample_window)) = inr r /\
             pi_error r = Some "Cannot gather page info"%string /\
             ChildScript.reported
               (snd (ChildScript.processScript.gatherPageInfo quiet (Some sample_window)))
             = [JsError "out of memory"]).
Proof.
  destruct (gatherPageInfo_returns_an_object quiet sample_window sample_document
              (Some {| ChildScript.scrollWidth := 800; ChildScript.scrollHeight := 600 |})
              eq_refl eq_refl (fun _ _ _ _ => eq_refl)) as (A & _ & B).
  split; [exact A|].
  destruct (B {| ChildScript.scrollWidth := 800; ChildScript.scrollHeight := 600 |}
              (JsError "out of memory") eq_refl eq_refl) as (r & P & _ & E & R & _).
  exists r. split; [exact P|]. split; [exact E|exact R].
Defined.

(** A window whose wrapper is dead: reading its document throws. *)
Definition dead_window : ChildScript.Window :=
  {| ChildScript.document := inl (JsTypeError "can't access dead object");
     ChildScript.new_XMLSerializer := inl (JsTypeError "can't access dead object") |}.

(** A window that has no document yet. *)
Definition window_without_document : ChildScript.Window :=
  {| ChildScript.document := inr None;
     ChildScript.new_XMLSerializer := inl (JsTypeError "wnd.XMLSerializer is not a constructor") |}.

(** A window whose document is there and whose documentElement cannot be
    read. *)
Definition window_of_dead_document : ChildScript.Window :=
  {| ChildScript.document :=
       inr (Some {| ChildScript.documentElement := inl (JsTypeError "can't access dead object");
                    ChildScript.createElementNS := inl (JsTypeError "can't access dead object") |});
     ChildScript.new_XMLSerializer := inl (JsTypeError "can't access dead object") |}.

(** reportException throws: dump(e + ...) converts the exception to a
    string. *)
Definition failing_report : JsExn -> ChildScript.Host unit :=
  fun _ => inl (JsTypeError "can't convert e to string").

(** C9 does not hold of every call: [gatherPageInfo(null)] throws a
    TypeError in both files, and so does the call on a window without a
    document; an exception of reading [wnd.document] or
    [document.documentElement], which are outside the try block, leaves
    the function; and so does an exception of reportException in the
    catch block, after the try block threw.  onLoad of processScript.js
    makes the call with null when getOuterWindowWithId knows no window
    of the id: the TypeError leaves the listener and no message is
    sent. *)
Lemma gatherPageInfo_propagates_exceptions :
  fst (ChildScript.processScript.gatherPageInfo quiet None) = inl (JsTypeError "wnd is null") /\
  fst (ChildScript.frameScript.gatherPageInfo quiet None) = inl (JsTypeError "wnd is null") /\
  fst (ChildScript.processScript.gatherPageInfo quiet (Some window_without_document))
    = inl (JsTypeError "document is null") /\
  fst (ChildScript.processScript.gatherPageInfo quiet (Some dead_window))
    = inl (JsTypeError "can't access dead object") /\
  fst (ChildScript.processScript.gatherPageInfo quiet (Some window_of_dead_document))
    = inl (JsTypeError "can't access dead object") /\
  fst (ChildScript.processScript.gatherPageInfo failing_report (Some sample_window))
    = inl (JsTypeError "can't convert e to string") /\
  (let onLoad := ChildMessages.processScript.onLoad quiet_globals (inr 7) (fun _ => None) in
   ChildMessages.thrown onLoad = Some (JsTypeError "wnd is null") /\
   ChildMessages.sent onLoad = []).
Proof. repeat split; reflexivity. Qed.

(** ** PageInfoListener *)

Section ListenerFacts.

Import PageInfoListener.

(** What holds of every listener: a setter in the map is the callback of
    an armed timer; an armed timer names itself and its promise, carries
    the timeout result and its promise is pending. *)
Record wf (l : t) : Prop := {
  wf_setters : forall k c, _pageInfoSetters l !! k = Some c ->
      od_window c = k /\
      timers l !! od_timer c =
        Some {| tm_callback := c; tm_argument := timeout_result; tm_delay := _timeout l |};
  wf_timers : forall n tm, timers l !! n = Some tm ->
      od_timer (tm_callback tm) = n /\ od_promise (tm_callback tm) = n /\
      tm_argument tm = timeout_result /\ tm_delay tm = _timeout l /\
      promises l !! n = Some Pending /\ (n < next_timer l)%nat;
  wf_next : next_promise l = next_timer l
}.

Lemma wf_new (timeout : Z) : wf (new timeout).
Proof.
  split; simpl; [intros k c H | intros n tm H | reflexivity];
    rewrite lookup_empty in H; discriminate.
Qed.

Lemma wf_expect (k : Z) (l : t) : wf l -> wf (snd (expect k l)).
Proof.
  intros [W1 W2 W3]. split; simpl.
  - intros k' c. rewrite lookup_insert. case_decide as E.
    + intros [= <-]. simpl. split; [done|]. by rewrite lookup_insert_eq.
    + intros H. destruct (W1 _ _ H) as [Hk Ht]. split; [done|].
      rewrite lookup_insert_ne; [done|].
      destruct (W2 _ _ Ht) as (_ & _ & _ & _ & _ & Lt). simpl in Lt. lia.
  - intros n tm. rewrite lookup_insert. case_decide as E.
    + intros [= <-]. simpl. subst n. rewrite W3, lookup_insert_eq.
      repeat split; auto.
    + intros H. destruct (W2 _ _ H) as (A & B & C & D & P & Lt).
      split; [done|]. split; [done|]. split; [done|]. split; [done|].
      split; [|lia].
      rewrite lookup_insert_ne; [done|]. rewrite W3. done.
  - by rewrite W3.
Qed.

Lemma resolve_other (p q : nat) (v : PageInfo) (ps : gmap nat PromiseState) :
  p <> q -> resolve p v ps !! q = ps !! q.
Proof.
  intros N. unfold resolve. destruct (ps !! p) as [[]|]; try done.
  by rewrite lookup_insert_ne.
Qed.

Lemma resolve_pending (p : nat) (v : PageInfo) (ps : gmap nat PromiseState) :
  ps !! p = Some Pending -> resolve p v ps !! p = Some (Fulfilled v).
Proof. intros H. unfold resolve. rewrite H. by rewrite lookup_insert_eq. Qed.

(** [onDone] of the callback of an armed timer keeps the listener well
    formed. *)
Lemma wf_onDone (n : nat) (tm : Timer) (v : PageInfo) (l : t) :
  wf l -> timers l !! n = Some tm -> wf (onDone (tm_callback tm) v l).
Proof.
  intros [W1 W2 W3] H. destruct (W2 _ _ H) as (Tn & Pn & _).
  split; simpl.
  - intros k c G. apply lookup_delete_Some in G as [Nk G].
    destruct (W1 _ _ G) as [Hk Ht]. split; [done|].
    rewrite lookup_delete_ne; [done|].
    rewrite Tn. intros E. rewrite <- E in Ht. rewrite H in Ht.
    injection Ht as ->. simpl in Nk. congruence.
  - intros n' tm' G. apply lookup_delete_Some in G as [Nn G].
    destruct (W2 _ _ G) as (A & B & C & D & P & Lt).
    repeat split; auto.
    rewrite resolve_other; [done|]. congruence.
  - done.
Qed.

Lemma onDone_disarm (c : OnDone) (v : PageInfo) (l : t) :
  onDone c v (disarm (od_timer c) l) = onDone c v l.
Proof.
  unfold onDone, disarm. simpl. f_equal.
  apply map_eq. intros i. destruct (decide (i = od_timer c)) as [->|N].
  - by rewrite !lookup_delete_eq.
  - by rewrite !lookup_delete_ne.
Qed.

Lemma timer_fires_onDone (n : nat) (tm : Timer) (l : t) :
  wf l -> timers l !! n = Some tm ->
  timer_fires n l = onDone (tm_callback tm) timeout_result l.
Proof.
  intros W H. unfold timer_fires. rewrite H.
  destruct (wf_timers l W _ _ H) as (Tn & _ & -> & _).
  rewrite <- Tn. apply onDone_disarm.
Qed.

Lemma wf_step (l : t) (e : Event) : wf l -> wf (step l e).
Proof.
  intros W. destruct e as [k|k v|n]; simpl.
  - by apply wf_expect.
  - unfold setPageInfo. destruct (_pageInfoSetters l !! k) as [c|] eqn:E; [|done].
    destruct (wf_setters l W _ _ E) as [_ Ht].
    exact (wf_onDone _ _ v l W Ht).
  - destruct (timers l !! n) as [tm|] eqn:E.
    + rewrite (timer_fires_onDone n tm l W E). by eapply wf_onDone.
    + unfold timer_fires. by rewrite E.
Qed.

Lemma wf_run (es : list Event) (l : t) : wf l -> wf (run es l).
Proof.
  revert l. induction es as [|e es IH]; simpl; intros l W; [done|].
  apply IH, wf_step, W.
Qed.

(** What the signal does to a registered key. *)
Lemma setPageInfo_registered (k : Z) (c : OnDone) (v : PageInfo) (l : t) :
  wf l -> _pageInfoSetters l !! k = Some c ->
  setPageInfo k v l = onDone c v l /\
  promises (setPageInfo k v l) !! od_promise c = Some (Fulfilled v) /\
  _pageInfoSetters (setPageInfo k v l) !! k = None /\
  timers (setPageInfo k v l) !! od_timer c = None.
Proof.
  intros W E. unfold setPageInfo. rewrite E.
  destruct (wf_setters l W _ _ E) as [Hk Ht].
  destruct (wf_timers l W _ _ Ht) as (Tn & Pn & _ & _ & P & _). simpl in *.
  repeat split; simpl.
  - apply resolve_pending. by rewrite Pn.
  - rewrite Hk. apply lookup_delete_eq.
  - apply lookup_delete_eq.
Qed.

Lemma setPageInfo_unregistered (k : Z) (v : PageInfo) (l : t) :
  _pageInfoSetters l !! k = None -> setPageInfo k v l = l.
Proof. intros E. unfold setPageInfo. by rewrite E. Qed.

(** C4. [setPageInfo] on every listener that [new PageInfoListener] and
    any sequence of expect, setPageInfo and timer expiry lead to.  For a
    key with a registration, the signal resolves the promise of that
    registration with the payload, removes the key and clears the timer.
    For a key without registration the call changes nothing (the function
    has no statement that can throw: a map lookup and a test); this is the
    case of a key whose registration a signal has resolved before, and of
    a key whose registration its timer has resolved before. *)
Theorem setPageInfo_resolves_or_ignores :
  forall (timeout : Z) (history : list Event) (k : Z) (pageInfo : PageInfo),
    let l := run history (new timeout) in
    (forall c, _pageInfoSetters l !! k = Some c ->
       promises l !! od_promise c = Some Pending /\
       promises (setPageInfo k pageInfo l) !! od_promise c = Some (Fulfilled pageInfo) /\
       _pageInfoSetters (setPageInfo k pageInfo l) !! k = None /\
       timers (setPageInfo k pageInfo l) !! od_timer c = None) /\
    (_pageInfoSetters l !! k = None -> setPageInfo k pageInfo l = l) /\
    (forall late, setPageInfo k late (setPageInfo k pageInfo l) = setPageInfo k pageInfo l) /\
    (forall n tm, timers l !! n = Some tm -> od_window (tm_callback tm) = k ->
       promises (timer_fires n l) !! od_promise (tm_callback tm) = Some (Fulfilled timeout_result) /\
       setPageInfo k pageInfo (timer_fires n l) = timer_fires n l).
Proof.
  intros timeout history k pageInfo l.
  assert (W : wf l) by apply wf_run, wf_new.
  split; [|split; [|split]].
  - intros c E. destruct (setPageInfo_registered k c pageInfo l W E) as (_ & A & B & C).
    repeat split; auto.
    destruct (wf_setters l W _ _ E) as [_ Ht].
    destruct (wf_timers l W _ _ Ht) as (_ & Pn & _ & _ & P & _). simpl in *.
    by rewrite Pn.
  - apply setPageInfo_unregistered.
  - intros late. apply setPageInfo_unregistered.
    destruct (_pageInfoSetters l !! k) as [c|] eqn:E.
    + by destruct (setPageInfo_registered k c pageInfo l W E) as (_ & _ & B & _).
    + by rewrite (setPageInfo_unregistered k pageInfo l E).
  - intros n tm H Hk. rewrite (timer_fires_onDone n tm l W H).
    destruct (wf_timers l W _ _ H) as (_ & Pn & _ & _ & P & _).
    split.
    + simpl. apply resolve_pending. by rewrite Pn.
    + apply setPageInfo_unregistered. simpl. rewrite Hk. apply lookup_delete_eq.
Qed.

(** The registration made by [expect] stays as it is while neither its
    key is signalled nor its timer expires. *)
Definition leaves_alone (k : Z) (n : nat) (e : Event) : bool :=
  negb (is_signal_for k e) && negb (is_firing_of n e).

Record waiting (k : Z) (n : nat) (l : t) : Prop := {
  waiting_timer : timers l !! n =
    Some {| tm_callback := {| od_window := k; od_timer := n; od_promise := n |};
            tm_argument := timeout_result; tm_delay := _timeout l |};
  waiting_promise : promises l !! n = Some Pending
}.

Lemma waiting_step (k : Z) (n : nat) (l : t) (e : Event) :
  wf l -> waiting k n l -> leaves_alone k n e = true -> waiting k n (step l e).
Proof.
  intros W [T P] A. destruct (wf_timers l W _ _ T) as (_ & _ & _ & _ & _ & Lt).
  unfold leaves_alone in A. apply andb_true_iff in A as [A1 A2].
  apply negb_true_iff in A1, A2.
  destruct e as [k'|k' v|n']; simpl in *.
  - split; simpl.
    + rewrite lookup_insert_ne; [done|lia].
    + rewrite lookup_insert_ne; [done|]. rewrite (wf_next l W). lia.
  - apply bool_decide_eq_false in A1.
    unfold setPageInfo. destruct (_pageInfoSetters l !! k') as [c|] eqn:E; [|by split].
    destruct (wf_setters l W _ _ E) as [Hk Ht].
    destruct (wf_timers l W _ _ Ht) as (_ & Pn & _). simpl in Pn.
    assert (N : od_timer c <> n).
    { intros Eq. rewrite Eq, T in Ht. injection Ht as <-. simpl in Hk. congruence. }
    split; simpl.
    + by rewrite lookup_delete_ne.
    + rewrite resolve_other; [done|]. congruence.
  - apply bool_decide_eq_false in A2.
    destruct (timers l !! n') as [tm|] eqn:E.
    + rewrite (timer_fires_onDone n' tm l W E).
      destruct (wf_timers l W _ _ E) as (Tn & Pn & _).
      split; simpl.
      * rewrite lookup_delete_ne; [done|]. congruence.
      * rewrite resolve_other; [done|]. congruence.
    + unfold timer_fires. rewrite E. by split.
Qed.

Lemma waiting_run (k : Z) (n : nat) (es : list Event) (l : t) :
  wf l -> waiting k n l -> forallb (leaves_alone k n) es = true ->
  wf (run es l) /\ waiting k n (run es l).
Proof.
  revert l. induction es as [|e es IH]; simpl; intros l W Wt A; [done|].
  apply andb_true_iff in A as [A1 A2].
  apply IH; [by apply wf_step|by apply waiting_step|done].
Qed.

Lemma waiting_expect (k : Z) (l : t) :
  wf l -> waiting k (next_timer l) (snd (expect k l)) /\ fst (expect k l) = next_timer l.
Proof.
  intros W. split; [split|]; simpl.
  - rewrite (wf_next l W). by rewrite lookup_insert_eq.
  - rewrite (wf_next l W). by rewrite lookup_insert_eq.
  - apply (wf_next l W).
Qed.

(** C5. [expect] on every listener that can arise, for every key: whatever
    happens afterwards, as long as no signal for the key arrives and the
    timer of the registration has not expired, the promise is pending;
    when the timer then expires the promise is fulfilled (not rejected)
    with {error: "timeout"} and the key is no longer registered, so that a
    later signal for it changes nothing. *)
Theorem expect_times_out :
  forall (timeout : Z) (history : list Event) (k : Z) (meanwhile : list Event),
    let l := run history (new timeout) in
    let promise := fst (expect k l) in
    let timerID := next_timer l in
    forallb (leaves_alone k timerID) meanwhile = true ->
    let before := run meanwhile (snd (expect k l)) in
    let after := timer_fires timerID before in
    promises before !! promise = Some Pending /\
    (exists tm, timers before !! timerID = Some tm /\ tm_delay tm = timeout) /\
    promises after !! promise = Some (Fulfilled timeout_result) /\
    _pageInfoSetters after !! k = None /\
    (forall late, setPageInfo k late after = after).
Proof.
  intros timeout history k meanwhile l promise timerID A before after.
  assert (W : wf l) by apply wf_run, wf_new.
  destruct (waiting_expect k l W) as [Wt Hp].
  destruct (waiting_run k timerID meanwhile _ (wf_expect k l W) Wt A) as [W' [T P]].
  fold before in W', T, P.
  assert (Hto : forall es x, _timeout (run es x) = _timeout x).
  { induction es as [|e es IH]; simpl; intros x; [done|]. rewrite IH.
    destruct e as [?|k' ?|n']; simpl; [done| |].
    - unfold setPageInfo. by destruct (_ !! k').
    - unfold timer_fires. by destruct (_ !! n'). }
  subst promise. rewrite Hp. split; [done|]. split.
  { eexists. split; [exact T|]. simpl. unfold before. rewrite Hto. simpl.
    unfold l. by rewrite Hto. }
  assert (Ha : after = onDone {| od_window := k; od_timer := timerID; od_promise := timerID |}
                         timeout_result before).
  { unfold after. by rewrite (timer_fires_onDone _ _ _ W' T). }
  assert (Hk : _pageInfoSetters after !! k = None).
  { rewrite Ha. simpl. apply lookup_delete_eq. }
  split; [|split; [done|]].
  - rewrite Ha. simpl. by apply resolve_pending.
  - intros late. by apply setPageInfo_unregistered.
Qed.

(** Two registrations, a signal for the other key and the expiry of the
    other timer in between: the first registration times out. *)
Lemma expect_times_out_witness :
  let l := run [Expect 4] (new 30000) in
  let before := run [Expect 9; SetPageInfo 4 empty_object; TimerFires 0%nat] (snd (expect 7 l)) in
  let after := timer_fires 1%nat before in
  promises before !! 1%nat = Some Pending /\
  (exists tm, timers before !! 1%nat = Some tm /\ tm_delay tm = 30000) /\
  promises after !! 1%nat = Some (Fulfilled timeout_result) /\
  _pageInfoSetters after !! 7 = None /\
  (forall late, setPageInfo 7 late after = after).
Proof.
  exact (expect_times_out 30000 [Expect 4] 7
           [Expect 9; SetPageInfo 4 empty_object; TimerFires 0%nat] eq_refl).
Defined.

End ListenerFacts.

(** ** The tab allocator of the crawler built on page-info messages *)

Section WaitingLine.

Lemma line_after_app (strict : bool) (t1 t2 : list PoolEvent) (w : list Request) :
  line_after strict w (t1 ++ t2) =
  match line_after strict w t1 with
  | Some w' => line_after strict w' t2
  | None => None
  end.
Proof.
  revert w. induction t1 as [|e t1 IH]; intros w; simpl; [done|].
  destruct e; simpl; try apply IH.
  - destruct w; [apply IH|]. destruct strict; [done|apply IH].
  - destruct w; [apply IH|done].
  - destruct w as [|r' w]; [done|]. case_bool_decide; [apply IH|done].
  - destruct w as [|r' w]; [done|]. case_bool_decide; [apply IH|done].
Qed.

(** Requests leave the line in the order they joined it. *)
Lemma line_after_order (strict : bool) (tr : list PoolEvent) (w0 w : list Request) :
  line_after strict w0 tr = Some w ->
  handed tr ++ w = w0 ++ queued tr.
Proof.
  revert w0. induction tr as [|e tr IH]; intros w0; simpl.
  - intros [= ->]. unfold handed, queued. simpl. by rewrite app_nil_r.
  - unfold handed, queued in *. destruct e; simpl; try apply IH.
    + destruct w0; [apply IH|]. destruct strict; [done|apply IH].
    + destruct w0; [apply IH|done].
    + intros H. apply IH in H. rewrite H. by rewrite <- app_assoc.
    + destruct w0 as [|r' w0]; [done|]. case_bool_decide as E; [|done].
      intros H. apply IH in H. subst r'. simpl. by rewrite H.
    + destruct w0 as [|r' w0]; [done|]. case_bool_decide as E; [|done].
      intros H. apply IH in H. subst r'. simpl. by rewrite H.
Qed.

End WaitingLine.

Section CrawlerPool.

Import Crawler.TabAllocator.

(** What holds of the allocator after any operations: the trace kept the
    waiting line and [_resolvers] is that line; while a request waits the
    count of tabs is at the maximum; a request waits beside a keep-alive
    tab only for a maximum of one tab or less; the count never drops
    below one. *)
Record pool_inv (a : t) : Prop := {
  inv_line : line_after false [] (trace a) = Some (_resolvers a);
  inv_full : _resolvers a <> [] -> _maxtabs a <= _tabs a;
  inv_keep : _resolvers a <> [] -> is_Some (_tab a) -> _maxtabs a <= 1;
  inv_alive : 1 <= _tabs a
}.

Lemma inv_new (first : Tab) (others : list Tab) (maxtabs : Z) :
  pool_inv (new first others maxtabs).
Proof. split; simpl; try done; lia. Qed.

Lemma inv_getTab (r : Request) (a : t) : pool_inv a -> pool_inv (getTab r a).
Proof.
  intros [L F K A]. unfold getTab.
  destruct (_tab a) as [tab|] eqn:T.
  - split; simpl;
      [ rewrite line_after_app, L; simpl; by destruct (_resolvers a)
      | exact F
      | intros _ [x Hx]; discriminate
      | exact A ].
  - destruct (_tabs a <? _maxtabs a) eqn:C.
    + apply Z.ltb_lt in C.
      assert (E : _resolvers a = []).
      { destruct (_resolvers a) eqn:R; [done|].
        assert (_maxtabs a <= _tabs a) by by apply F. lia. }
      split; simpl;
        [ rewrite !line_after_app, L; simpl; rewrite ?E; done
        | by rewrite E
        | by rewrite E
        | lia ].
    + apply Z.ltb_ge in C.
      split; simpl;
        [ rewrite line_after_app, L; done
        | intros _; exact C
        | rewrite ?T; intros _ [x Hx]; discriminate
        | exact A ].
Qed.

Lemma inv_releaseTab (tab : Tab) (a : t) : pool_inv a -> pool_inv (releaseTab tab a).
Proof.
  intros [L F K A]. unfold releaseTab. simpl.
  destruct (_tabs a =? 1) eqn:C.
  - apply Z.eqb_eq in C.
    split; simpl;
      [ rewrite !line_after_app, L; done
      | intros N; apply F in N; lia
      | intros N _; apply F in N; lia
      | lia ].
  - apply Z.eqb_neq in C.
    destruct (_resolvers a) as [|r rest] eqn:R.
    { split; simpl; rewrite ?R;
        [ rewrite !line_after_app, L; simpl; rewrite ?R; done
        | done
        | done
        | lia ]. }
    destruct (_tab a) as [kept|] eqn:T.
    { assert (_maxtabs a <= 1) by (apply K; [done|by eexists]).
      split; simpl;
        [ rewrite !line_after_app, L; simpl; by rewrite bool_decide_eq_true_2
        | intros _; lia
        | intros _ [x Hx]; discriminate
        | lia ]. }
    simpl. assert (_maxtabs a <= _tabs a) by by apply F.
    destruct (_tabs a - 1 <? _maxtabs a) eqn:D.
    + split; simpl;
        [ rewrite !line_after_app, L; simpl; by rewrite bool_decide_eq_true_2
        | intros _; lia
        | rewrite ?T; intros _ [x Hx]; discriminate
        | lia ].
    + apply Z.ltb_ge in D.
      split; simpl; rewrite ?R, ?T;
        [ rewrite !line_after_app, L; simpl; rewrite ?R; done
        | intros _; lia
        | intros _ [x Hx]; discriminate
        | lia ].
Qed.

Lemma inv_react (x : Tab * Reaction) (a : t) : pool_inv a -> pool_inv (react a x).
Proof.
  intros I. unfold react. destruct (snd x) as [old|tab].
  - destruct I as [L F K A]. split; simpl; auto.
    rewrite line_after_app, L. done.
  - by apply inv_releaseTab.
Qed.

Lemma inv_tabReady (tab : Tab) (a : t) : pool_inv a -> pool_inv (tabReady tab a).
Proof.
  intros I. unfold tabReady.
  generalize (filter (fun x => fst x = tab) (reactions a)). intros mine.
  assert (I0 : pool_inv (log (Initialised tab)
                 (set_reactions (filter (fun x => fst x <> tab) (reactions a)) a))).
  { destruct I as [L F K A]. split; simpl; auto. rewrite line_after_app, L. done. }
  revert I0. generalize (log (Initialised tab)
                 (set_reactions (filter (fun x => fst x <> tab) (reactions a)) a)).
  induction mine as [|x mine IH]; simpl; intros b Ib; [done|].
  apply IH, inv_react, Ib.
Qed.

Lemma inv_step (a : t) (o : PoolOp) : pool_inv a -> pool_inv (step a o).
Proof.
  destruct o; simpl; [apply inv_getTab|apply inv_releaseTab|apply inv_tabReady].
Qed.

Lemma inv_run (ops : list PoolOp) (a : t) : pool_inv a -> pool_inv (run ops a).
Proof.
  revert a. induction ops as [|o ops IH]; simpl; intros a I; [done|].
  apply IH, inv_step, I.
Qed.

(** C6, as the code has it.  For every browser, every maximum and every
    sequence of getTab, releaseTab and tab initialisations: the requests
    queued by getTab are served strictly in the order they were queued
    (each resolver call serves the request at the head of the line, and
    the line is [_resolvers]); no tab is created for a new request while
    another one waits; and while a request waits the count of tabs is at
    the maximum or above.  The one way past the line is the keep-alive
    tab: getTab hands this._tab to its caller without looking at the
    line. *)
Theorem getTab_queue_order :
  forall (first : Tab) (others : list Tab) (maxtabs : Z) (ops : list PoolOp),
    let a := run ops (new first others maxtabs) in
    first_come_first_served_but_keep_alive (trace a) = true /\
    line_after false [] (trace a) = Some (_resolvers a) /\
    handed (trace a) ++ _resolvers a = queued (trace a) /\
    (_resolvers a <> [] -> _maxtabs a <= _tabs a).
Proof.
  intros first others maxtabs ops a.
  destruct (inv_run ops _ (inv_new first others maxtabs)) as [L F K A].
  fold a in L, F, K, A.
  split; [|split; [done|split; [|done]]].
  - unfold first_come_first_served_but_keep_alive. apply bool_decide_eq_true_2.
    rewrite L. by eexists.
  - by apply (line_after_order false _ []).
Qed.

(** C6 as stated fails.  One tab at most: request 1 gets the keep-alive
    tab, request 2 is queued, tab 1 is released (the allocator opens tab 2
    to replace it), and request 3, arriving before tab 2 is initialised,
    is given tab 2 while request 2 still waits; when tab 2 is initialised
    request 2 is still in the line. *)
Lemma getTab_overtakes_the_queue :
  let ops := [GetTab 1%nat; TabReady 1%nat; GetTab 2%nat; ReleaseTab 1%nat; GetTab 3%nat] in
  let a := run ops (new 0%nat [] 1) in
  first_come_first_served (trace a) = false /\
  trace a = [Added 1%nat; Got_keep_alive 1%nat 1%nat; Initialised 1%nat; Removed 0%nat;
             Queued 2%nat; Released 1%nat; Added 2%nat; Got_keep_alive 3%nat 2%nat] /\
  _resolvers a = [2%nat] /\
  _resolvers (run (ops ++ [TabReady 2%nat]) (new 0%nat [] 1)) = [2%nat] /\
  tabs_in_use (trace (run (ops ++ [TabReady 2%nat]) (new 0%nat [] 1))) = [2%nat].
Proof. vm_compute. repeat split. Qed.

End CrawlerPool.

(** The keep-alive rule of this allocator: the browser never runs out of
    tabs. *)
Section CrawlerKeepAlive.

Import Crawler.TabAllocator.

Fixpoint removals (rs : list (Tab * Reaction)) : nat :=
  match rs with
  | [] => 0
  | (_, Remove_old _) :: rest => S (removals rest)
  | _ :: rest => removals rest
  end.

Lemma removals_app (rs qs : list (Tab * Reaction)) :
  removals (rs ++ qs) = (removals rs + removals qs)%nat.
Proof.
  induction rs as [|[t []] rs IH]; simpl; [done| |done]. by rewrite IH.
Qed.

Lemma removals_split (tab : Tab) (rs : list (Tab * Reaction)) :
  (removals (filter (fun x => fst x = tab) rs) + removals (filter (fun x => fst x <> tab) rs))%nat
  = removals rs.
Proof.
  induction rs as [|[t r] rs IH]; [done|].
  rewrite !filter_cons. simpl.
  destruct (decide (t = tab)) as [E|E]; destruct (decide (t <> tab)) as [N|N];
    try contradiction; try (exfalso; by apply N);
    destruct r; simpl; lia.
Qed.

Lemma removeTab_keeps (tab : Tab) (open : list Tab) :
  tab ∉ open -> removeTab tab open = open.
Proof.
  unfold removeTab. induction open as [|x open IH]; intros N; [done|].
  rewrite filter_cons. destruct (decide (x <> tab)) as [D|D].
  - f_equal. apply IH. set_solver.
  - exfalso. apply N. apply dec_stable in D. subst. set_solver.
Qed.

Lemma removeTab_length (tab : Tab) (open : list Tab) :
  NoDup open -> (length open <= S (length (removeTab tab open)))%nat.
Proof.
  unfold removeTab. induction 1 as [|x open Hx ND IH]; [simpl; lia|].
  rewrite filter_cons. destruct (decide (x <> tab)) as [D|D]; simpl; [lia|].
  apply dec_stable in D. subst x.
  fold (removeTab tab open). rewrite removeTab_keeps by done. lia.
Qed.

(** The tabs of the browser are distinct and older than the next one, and
    there are at least as many as [_tabs] counts, plus one for each tab
    that a pending callback of the constructor will remove. *)
Record alive (pending : list (Tab * Reaction)) (a : t) : Prop := {
  al_nodup : NoDup (browser a);
  al_fresh : forall x, x ∈ browser a -> (x < next_tab a)%nat;
  al_count : _tabs a + Z.of_nat (removals (reactions a)) + Z.of_nat (removals pending)
             <= Z.of_nat (length (browser a));
  al_one : 1 <= _tabs a
}.

Lemma alive_createTab (pending : list (Tab * Reaction)) (a : t) :
  alive pending a -> alive pending (snd (_createTab a)).
Proof.
  intros [ND F C O]. split; simpl.
  - apply NoDup_app. split; [done|]. split; [|apply NoDup_singleton].
    intros x Hx Hn. apply F in Hx. apply list_elem_of_singleton in Hn. lia.
  - intros x Hx. apply elem_of_app in Hx as [Hx|Hx]; [apply F in Hx; lia|].
    apply list_elem_of_singleton in Hx. lia.
  - rewrite length_app. simpl. lia.
  - lia.
Qed.

(** Changes that touch neither the browser nor the counts. *)
Lemma alive_same (pending : list (Tab * Reaction)) (a b : t) :
  browser b = browser a -> next_tab b = next_tab a -> _tabs b = _tabs a ->
  removals (reactions b) = removals (reactions a) ->
  alive pending a -> alive pending b.
Proof.
  intros Eb En Et Er [ND F C O]. split; rewrite ?Eb, ?En, ?Et, ?Er; done.
Qed.

Lemma alive_getTab (pending : list (Tab * Reaction)) (r : Request) (a : t) :
  alive pending a -> alive pending (getTab r a).
Proof.
  intros I. unfold getTab. destruct (_tab a).
  - by apply (alive_same pending a).
  - destruct (_ <? _).
    + pose proof (alive_createTab pending a I) as I1.
      destruct (_createTab a) as [tab a1] eqn:E. simpl in I1.
      by apply (alive_same pending a1).
    + by apply (alive_same pending a).
Qed.

Lemma alive_removed (pending : list (Tab * Reaction)) (tab : Tab) (a : t) :
  alive pending a -> _tabs a <> 1 ->
  alive pending (decrement_tabs (browser_removeTab tab (log (Released tab) a))).
Proof.
  intros [ND F C O] T. split; simpl.
  - by apply NoDup_filter.
  - intros x Hx. apply F. unfold removeTab in Hx.
    apply list_elem_of_filter in Hx. tauto.
  - pose proof (removeTab_length tab _ ND). lia.
  - lia.
Qed.

Lemma alive_releaseTab (pending : list (Tab * Reaction)) (tab : Tab) (a : t) :
  alive pending a -> alive pending (releaseTab tab a).
Proof.
  intros I. unfold releaseTab.
  change (_tabs (log (Released tab) a)) with (_tabs a).
  destruct (_tabs a =? 1) eqn:T.
  - assert (I0 : alive pending (log (Released tab) a)) by by apply (alive_same pending a).
    pose proof (alive_createTab pending _ I0) as [ND F C O].
    destruct (_createTab (log (Released tab) a)) as [resultTab a1] eqn:E. simpl in *.
    split; simpl; try done. rewrite removals_app. simpl. lia.
  - apply Z.eqb_neq in T. pose proof (alive_removed pending tab a I T) as I1.
    set (a1 := decrement_tabs (browser_removeTab tab (log (Released tab) a))) in *.
    destruct (_resolvers a1) as [|r rest]; [done|].
    destruct (_tab a1) as [kept|].
    + by apply (alive_same pending a1).
    + destruct (_ <? _); [|done].
      assert (I2 : alive pending (set_resolvers rest a1)) by by apply (alive_same pending a1).
      pose proof (alive_createTab pending _ I2) as I3.
      destruct (_createTab (set_resolvers rest a1)) as [tab' a2] eqn:E. simpl in I3.
      by apply (alive_same pending a2).
Qed.

Lemma alive_react (pending : list (Tab * Reaction)) (x : Tab * Reaction) (a : t) :
  alive (x :: pending) a -> alive pending (react a x).
Proof.
  destruct x as [t [old|tab]]; unfold react; simpl; intros I.
  - destruct I as [ND F C O]. split; simpl.
    + by apply NoDup_filter.
    + intros x Hx. apply F. unfold removeTab in Hx.
      apply list_elem_of_filter in Hx. tauto.
    + simpl in C. pose proof (removeTab_length old _ ND). lia.
    + done.
  - apply alive_releaseTab. destruct I. by split.
Qed.

Lemma alive_tabReady (tab : Tab) (a : t) : alive [] a -> alive [] (tabReady tab a).
Proof.
  intros [ND F C O]. unfold tabReady.
  pose proof (removals_split tab (reactions a)) as Sp.
  set (mine := filter (fun x => fst x = tab) (reactions a)) in *.
  set (others := filter (fun x => fst x <> tab) (reactions a)) in *.
  assert (I0 : alive mine (log (Initialised tab) (set_reactions others a))).
  { split; simpl; try done. simpl in C. lia. }
  revert I0. generalize (log (Initialised tab) (set_reactions others a)).
  clearbody mine. clear. induction mine as [|x mine IH]; simpl; intros b I; [done|].
  apply IH, alive_react, I.
Qed.

Lemma alive_run (ops : list PoolOp) (a : t) : alive [] a -> alive [] (run ops a).
Proof.
  revert a. induction ops as [|o ops IH]; simpl; intros a I; [done|].
  apply IH. destruct o; simpl;
    [by apply alive_getTab|by apply alive_releaseTab|by apply alive_tabReady].
Qed.

Lemma le_foldr_max (x first : nat) (others : list nat) :
  x ∈ first :: others -> (x <= foldr Nat.max first others)%nat.
Proof.
  induction others as [|y others IH]; simpl; intros H.
  - apply list_elem_of_singleton in H. lia.
  - assert (M : x = y \/ x ∈ first :: others).
    { apply elem_of_cons in H as [->|H]; [right; left|].
      apply elem_of_cons in H as [->|H]; [by left|right; by right]. }
    destruct M as [->|M]; [lia|]. specialize (IH M). lia.
Qed.

Lemma alive_new (first : Tab) (others : list Tab) (maxtabs : Z) :
  NoDup (first :: others) -> alive [] (new first others maxtabs).
Proof.
  intros ND. apply NoDup_cons in ND as [N ND].
  assert (E : removeAllTabsBut first (first :: others) = [first]).
  { unfold removeAllTabsBut. rewrite filter_cons_True by done. f_equal.
    clear ND. induction others as [|y others IH]; [done|].
    apply not_elem_of_cons in N as [N1 N2].
    rewrite filter_cons_False by congruence. by apply IH. }
  unfold new. simpl. rewrite E.
  assert (L : (first <= foldr Nat.max first others)%nat) by (apply le_foldr_max; left).
  split; simpl.
  - apply NoDup_cons. split; [|apply NoDup_singleton].
    intros H. apply list_elem_of_singleton in H. lia.
  - intros x Hx. apply elem_of_cons in Hx as [->|Hx]; [lia|].
    apply list_elem_of_singleton in Hx. lia.
  - lia.
  - lia.
Qed.

(** X1. The TabAllocator of the crawler built on page-info messages
    never leaves the browser without a tab.  For a browser with distinct
    tabs and every sequence of operations: the count of tabs is at least
    one and the browser has at least one tab open; the release of the
    last tab (count one) opens the replacement and leaves the released
    tab open, to be removed by the callback that runs when the
    replacement is initialised. *)
Lemma Crawler_keeps_a_tab_open (first : Tab) (others : list Tab) (maxtabs : Z)
    (ops : list PoolOp) :
  NoDup (first :: others) ->
  let a := run ops (new first others maxtabs) in
  1 <= _tabs a /\ browser a <> [] /\
  (forall tab, _tabs a = 1 ->
     browser (releaseTab tab a) = browser a ++ [next_tab a] /\
     _tab (releaseTab tab a) = Some (next_tab a) /\
     reactions (releaseTab tab a) = reactions a ++ [(next_tab a, Release_again tab)]).
Proof.
  intros ND a.
  destruct (alive_run ops _ (alive_new first others maxtabs ND)) as [_ _ C O]. fold a in C, O.
  split; [done|]. split.
  - intros E. rewrite E in C. simpl in C. lia.
  - intros tab T. unfold releaseTab. simpl. rewrite T. simpl. done.
Qed.

End CrawlerKeepAlive.

(** The capacity of this allocator, for clients that release the tabs
    they hold. *)
Section CrawlerCapacity.

Import Crawler.TabAllocator.

(** One event on the list of tabs in use. *)
Definition use (held : list Tab) (e : PoolEvent) : list Tab :=
  match e with
  | Released t => filter (fun x => x <> t) held
  | _ => match given e with
         | Some (_, t) => held ++ [t]
         | None => held
         end
  end.

Lemma in_use_fold (tr : list PoolEvent) (held : list Tab) :
  in_use tr held = fold_left use tr held.
Proof.
  revert held. induction tr as [|e tr IH]; intros held; [done|].
  simpl. destruct e; simpl; apply IH.
Qed.

Lemma in_use_snoc (tr : list PoolEvent) (e : PoolEvent) :
  tabs_in_use (tr ++ [e]) = use (tabs_in_use tr) e.
Proof.
  unfold tabs_in_use. rewrite !in_use_fold, fold_left_app. done.
Qed.

Ltac uses := simpl; rewrite ?in_use_snoc; simpl.

(** The tabs that pending callbacks will release again. *)
Definition releasing (rs : list (Tab * Reaction)) : list Tab :=
  omap (fun x => match snd x with Release_again t => Some t | Remove_old _ => None end) rs.

Lemma releasing_app (rs qs : list (Tab * Reaction)) :
  releasing (rs ++ qs) = releasing rs ++ releasing qs.
Proof. apply omap_app. Qed.

Definition kept (a : t) : Z := match _tab a with Some _ => 1 | None => 0 end.

(** Tabs in use, the keep-alive tab and the tabs about to be released
    again add up to [_tabs]; without the latter the count is within the
    maximum (or one, for the keep-alive tab). *)
Record cap (pending : list Tab) (a : t) : Prop := {
  cap_count : Z.of_nat (length (tabs_in_use (trace a))) + kept a
              + Z.of_nat (length (releasing (reactions a) ++ pending)) = _tabs a;
  cap_bound : _tabs a - Z.of_nat (length (releasing (reactions a) ++ pending))
              <= Z.max (_maxtabs a) 1;
  cap_nodup : NoDup (tabs_in_use (trace a));
  cap_fresh : forall x, x ∈ tabs_in_use (trace a) -> (x < next_tab a)%nat;
  cap_keep : forall tb, _tab a = Some tb -> (tb ∉ tabs_in_use (trace a)) /\ (tb < next_tab a)%nat;
  cap_rel : forall x, x ∈ releasing (reactions a) ++ pending ->
              (x ∉ tabs_in_use (trace a)) /\ (x < next_tab a)%nat /\ _tab a <> Some x
}.

Lemma cap_new (first : Tab) (others : list Tab) (maxtabs : Z) :
  cap [] (new first others maxtabs).
Proof.
  split; unfold kept; simpl; try lia.
  - apply NoDup_nil_2.
  - intros x Hx. by apply elem_of_nil in Hx.
  - intros tb [= <-]. split; [apply not_elem_of_nil|lia].
  - intros x Hx. by apply elem_of_nil in Hx.
Qed.

(** A tab handed to a request: the keep-alive tab, or a new one. *)
Lemma cap_hand_kept (pending : list Tab) (a b : t) (tb : Tab) :
  cap pending a -> _tab a = Some tb ->
  tabs_in_use (trace b) = tabs_in_use (trace a) ++ [tb] ->
  _tab b = None -> reactions b = reactions a -> _tabs b = _tabs a ->
  _maxtabs b = _maxtabs a -> next_tab b = next_tab a ->
  cap pending b.
Proof.
  intros [C B ND F K R] T EU ET ER En Em Ex. destruct (K _ T) as [K1 K2].
  unfold kept in *. rewrite T in C.
  split; unfold kept; rewrite ?EU, ?ET, ?ER, ?En, ?Em, ?Ex.
  - rewrite length_app. simpl. lia.
  - done.
  - apply NoDup_app. split; [done|]. split; [|apply NoDup_singleton].
    intros x Hx Hy. apply list_elem_of_singleton in Hy. by subst.
  - intros x Hx. apply elem_of_app in Hx as [Hx|Hx]; [by apply F|].
    apply list_elem_of_singleton in Hx. by subst.
  - discriminate.
  - intros x Hx. destruct (R x Hx) as (R1 & R2 & R3). split; [|split; [done|discriminate]].
    intros Hy. apply elem_of_app in Hy as [Hy|Hy]; [done|].
    apply list_elem_of_singleton in Hy. subst. by apply R3.
Qed.

Lemma cap_hand_new (pending : list Tab) (a b : t) :
  cap pending a -> _tab a = None -> _tabs a < _maxtabs a ->
  tabs_in_use (trace b) = tabs_in_use (trace a) ++ [next_tab a] ->
  _tab b = None -> reactions b = reactions a -> _tabs b = _tabs a + 1 ->
  _maxtabs b = _maxtabs a -> next_tab b = S (next_tab a) ->
  cap pending b.
Proof.
  intros [C B ND F K R] T Lt EU ET ER En Em Ex.
  unfold kept in *. rewrite T in C.
  split; unfold kept; rewrite ?EU, ?ET, ?ER, ?En, ?Em, ?Ex.
  - rewrite length_app. simpl. lia.
  - lia.
  - apply NoDup_app. split; [done|]. split; [|apply NoDup_singleton].
    intros x Hx Hy. apply list_elem_of_singleton in Hy. apply F in Hx. lia.
  - intros x Hx. apply elem_of_app in Hx as [Hx|Hx]; [apply F in Hx; lia|].
    apply list_elem_of_singleton in Hx. lia.
  - discriminate.
  - intros x Hx. destruct (R x Hx) as (R1 & R2 & R3). split; [|split; [lia|discriminate]].
    intros Hy. apply elem_of_app in Hy as [Hy|Hy]; [done|].
    apply list_elem_of_singleton in Hy. lia.
Qed.

(** Changes that leave all of this alone. *)
Lemma cap_same (pending : list Tab) (a b : t) :
  cap pending a ->
  tabs_in_use (trace b) = tabs_in_use (trace a) ->
  _tab b = _tab a -> reactions b = reactions a -> _tabs b = _tabs a ->
  _maxtabs b = _maxtabs a -> next_tab b = next_tab a ->
  cap pending b.
Proof.
  intros [C B ND F K R] EU ET ER En Em Ex.
  split; unfold kept in *; rewrite ?EU, ?ET, ?ER, ?En, ?Em, ?Ex; done.
Qed.

Lemma cap_getTab (pending : list Tab) (r : Request) (a : t) :
  cap pending a -> cap pending (getTab r a).
Proof.
  intros I. unfold getTab. destruct (_tab a) as [tb|] eqn:T.
  - apply (cap_hand_kept pending a _ tb I T); try done.
    by uses.
  - destruct (_tabs a <? _maxtabs a) eqn:L.
    + apply Z.ltb_lt in L.
      apply (cap_hand_new pending a _ I T L); try done.
      by uses.
    + apply (cap_same pending a _ I); try done. by uses.
Qed.

(** The state between the removal of a tab and the service of the line:
    one tab less. *)
Record cap_mid (pending : list Tab) (a : t) : Prop := {
  mid_count : Z.of_nat (length (tabs_in_use (trace a))) + kept a
              + Z.of_nat (length (releasing (reactions a) ++ pending)) = _tabs a - 1;
  mid_bound : _tabs a - 1 - Z.of_nat (length (releasing (reactions a) ++ pending))
              <= Z.max (_maxtabs a) 1;
  mid_nodup : NoDup (tabs_in_use (trace a));
  mid_fresh : forall x, x ∈ tabs_in_use (trace a) -> (x < next_tab a)%nat;
  mid_keep : forall tb, _tab a = Some tb -> (tb ∉ tabs_in_use (trace a)) /\ (tb < next_tab a)%nat;
  mid_rel : forall x, x ∈ releasing (reactions a) ++ pending ->
              (x ∉ tabs_in_use (trace a)) /\ (x < next_tab a)%nat /\ _tab a <> Some x
}.

Lemma filter_out_length (tab : Tab) (held : list Tab) :
  NoDup held -> tab ∈ held ->
  S (length (filter (fun x => x <> tab) held)) = length held.
Proof.
  induction 1 as [|x held Hx ND IH]; intros H; [by apply elem_of_nil in H|].
  rewrite filter_cons. destruct (decide (x <> tab)) as [D|D]; simpl.
  - f_equal. apply IH. apply elem_of_cons in H as [->|H]; [done|done].
  - apply dec_stable in D. subst x. f_equal. f_equal.
    clear -Hx. induction held as [|y held IH]; [done|].
    apply not_elem_of_cons in Hx as [N1 N2].
    rewrite filter_cons_True by congruence. f_equal. by apply IH.
Qed.

Lemma filter_out_absent (tab : Tab) (held : list Tab) :
  tab ∉ held -> filter (fun x => x <> tab) held = held.
Proof.
  induction held as [|y held IH]; intros N; [done|].
  apply not_elem_of_cons in N as [N1 N2].
  rewrite filter_cons_True by congruence. f_equal. by apply IH.
Qed.

Lemma mid_to_cap (pending : list Tab) (a b : t) :
  cap_mid pending a ->
  tabs_in_use (trace b) = tabs_in_use (trace a) ->
  _tab b = _tab a -> reactions b = reactions a -> _tabs b = _tabs a - 1 ->
  _maxtabs b = _maxtabs a -> next_tab b = next_tab a ->
  cap pending b.
Proof.
  intros [C B ND F K R] EU ET ER En Em Ex.
  split; unfold kept in *; rewrite ?EU, ?ET, ?ER, ?En, ?Em, ?Ex; done.
Qed.

(** A client releases a tab it holds. *)
Lemma mid_client (pending : list Tab) (tab : Tab) (a : t) :
  cap pending a -> tab ∈ tabs_in_use (trace a) ->
  cap_mid pending (log (Released tab) a) /\ (tab < next_tab a)%nat /\
  tab ∉ tabs_in_use (trace (log (Released tab) a)).
Proof.
  intros [C B ND F K R] H.
  pose proof (filter_out_length tab _ ND H) as L.
  assert (Sub : forall x, x ∈ filter (fun x => x <> tab) (tabs_in_use (trace a)) ->
                          x ∈ tabs_in_use (trace a) /\ x <> tab).
  { intros x Hx. apply list_elem_of_filter in Hx. tauto. }
  split; [split|split]; unfold kept in *; uses.
  - lia.
  - lia.
  - by apply NoDup_filter.
  - intros x Hx. apply F. by apply Sub.
  - intros tb T. destruct (K _ T). split; [|done]. intros Hx. apply Sub in Hx. tauto.
  - intros x Hx. destruct (R x Hx) as (R1 & R2 & R3).
    split; [|done]. intros Hy. apply Sub in Hy. tauto.
  - by apply F.
  - intros Hx. apply Sub in Hx. tauto.
Qed.

(** The callback of a replacement releases the replaced tab again. *)
Lemma mid_again (pending : list Tab) (tab : Tab) (a : t) :
  cap (tab :: pending) a ->
  cap_mid pending (log (Released tab) a) /\ (tab < next_tab a)%nat /\
  tab ∉ tabs_in_use (trace (log (Released tab) a)).
Proof.
  intros [C B ND F K R].
  assert (In : tab ∈ releasing (reactions a) ++ tab :: pending).
  { apply elem_of_app. right. left. }
  destruct (R tab In) as (T1 & T2 & T3).
  assert (Len : length (releasing (reactions a) ++ tab :: pending)
                = S (length (releasing (reactions a) ++ pending))).
  { rewrite !length_app. simpl. lia. }
  split; [split|split]; unfold kept in *; uses;
    rewrite ?filter_out_absent by done.
  - lia.
  - lia.
  - done.
  - done.
  - done.
  - intros x Hx. apply R. apply elem_of_app in Hx as [Hx|Hx]; apply elem_of_app;
      [by left|right; by right].
  - done.
  - done.
Qed.

(** From there [releaseTab] goes on in the same way for both. *)
Lemma cap_release_from_mid (pending : list Tab) (tab : Tab) (a : t) :
  cap_mid pending (log (Released tab) a) -> (tab < next_tab a)%nat ->
  tab ∉ tabs_in_use (trace (log (Released tab) a)) ->
  cap pending (releaseTab tab a).
Proof.
  intros M Lt N. unfold releaseTab.
  set (a0 := log (Released tab) a) in *.
  change (_tabs a0) with (_tabs a).
  destruct (_tabs a =? 1) eqn:T.
  - apply Z.eqb_eq in T. destruct M as [C B ND F K R].
    change (_tabs a0) with (_tabs a) in C.
    assert (U0 : tabs_in_use (trace a0) = []).
    { apply nil_length_inv. unfold kept in C. destruct (_tab a0); lia. }
    assert (K0 : _tab a0 = None).
    { unfold kept in C. destruct (_tab a0); [lia|done]. }
    assert (R0 : releasing (reactions a0) ++ pending = []).
    { apply nil_length_inv. unfold kept in C. destruct (_tab a0); lia. }
    apply app_eq_nil in R0 as [R1 R2].
    change (reactions a0) with (reactions a) in R1.
    assert (U1 : filter (fun x => x <> tab) (tabs_in_use (trace a)) = []).
    { rewrite <- U0. unfold a0. by uses. }
    split; unfold kept; uses;
      rewrite ?releasing_app, ?R1, ?R2, ?U1; simpl; try lia.
    + apply NoDup_nil_2.
    + intros x Hx. by apply elem_of_nil in Hx.
    + intros tb [= <-]. split; [apply not_elem_of_nil|lia].
    + intros x Hx. apply list_elem_of_singleton in Hx. subst x.
      split; [apply not_elem_of_nil|]. split; [lia|]. intros [= E]. lia.
  - apply Z.eqb_neq in T.
    set (a1 := decrement_tabs (browser_removeTab tab a0)).
    assert (I1 : cap pending a1).
    { apply (mid_to_cap pending a0 a1 M); try done. unfold a1, a0. by uses. }
    change (_resolvers a1) with (_resolvers a).
    destruct (_resolvers a) as [|r rest] eqn:Q; [done|].
    change (_tab a1) with (_tab a).
    destruct (_tab a) as [tb|] eqn:K.
    + apply (cap_hand_kept pending a1 _ tb I1); try done.
      by uses.
    + change (_tabs a1 <? _maxtabs a1) with (_tabs a - 1 <? _maxtabs a).
      destruct (_tabs a - 1 <? _maxtabs a) eqn:L; [|done].
      apply Z.ltb_lt in L.
      apply (cap_hand_new pending a1 _ I1); try done.
      by uses.
Qed.

Lemma cap_client_release (pending : list Tab) (tab : Tab) (a : t) :
  cap pending a -> tab ∈ tabs_in_use (trace a) -> cap pending (releaseTab tab a).
Proof.
  intros I H. destruct (mid_client pending tab a I H) as (M & Lt & N).
  by apply cap_release_from_mid.
Qed.

Lemma cap_react (pending : list (Tab * Reaction)) (x : Tab * Reaction) (a : t) :
  cap (releasing (x :: pending)) a -> cap (releasing pending) (react a x).
Proof.
  destruct x as [t0 [old|tab]]; unfold react, releasing; simpl; intros I.
  - apply (cap_same _ a _ I); try done. by uses.
  - destruct (mid_again _ tab a I) as (M & Lt & N).
    by apply cap_release_from_mid.
Qed.

Lemma releasing_split (tab : Tab) (rs : list (Tab * Reaction)) :
  releasing rs ≡ₚ releasing (filter (fun x => fst x <> tab) rs)
                  ++ releasing (filter (fun x => fst x = tab) rs).
Proof.
  induction rs as [|[t0 r] rs IH]; [done|].
  rewrite !filter_cons. simpl.
  destruct (decide (t0 <> tab)) as [D|D]; destruct (decide (t0 = tab)) as [E|E];
    try contradiction; try (exfalso; by apply D).
  - unfold releasing in *. destruct r; simpl; [done|]. by rewrite IH.
  - unfold releasing in *. destruct r; simpl; [done|].
    rewrite IH. apply Permutation_middle.
Qed.

Lemma cap_tabReady (tab : Tab) (a : t) : cap [] a -> cap [] (tabReady tab a).
Proof.
  intros [C B ND F K R]. unfold tabReady.
  pose proof (releasing_split tab (reactions a)) as Sp.
  set (mine := filter (fun x => fst x = tab) (reactions a)) in *.
  set (others := filter (fun x => fst x <> tab) (reactions a)) in *.
  rewrite app_nil_r in C, B.
  assert (I0 : cap (releasing mine) (log (Initialised tab) (set_reactions others a))).
  { split; unfold kept in *; uses; rewrite <- ?Sp; try done.
    intros x Hx. apply R. rewrite app_nil_r. by rewrite Sp. }
  revert I0. generalize (log (Initialised tab) (set_reactions others a)).
  clearbody mine. clear. induction mine as [|x mine IH]; intros b I.
  - exact I.
  - simpl. apply IH, cap_react, I.
Qed.

(** Clients that release only tabs they were given and have not yet
    released. *)
Fixpoint polite (ops : list PoolOp) (a : t) : bool :=
  match ops with
  | [] => true
  | o :: rest =>
      match o with
      | ReleaseTab tab => bool_decide (tab ∈ tabs_in_use (trace a))
      | _ => true
      end && polite rest (step a o)
  end.

Lemma cap_run (ops : list PoolOp) (a : t) :
  cap [] a -> polite ops a = true -> cap [] (run ops a).
Proof.
  revert a. induction ops as [|o ops IH]; simpl; intros a I P; [done|].
  apply andb_true_iff in P as [P1 P2].
  apply IH; [|done]. destruct o as [r|tab|tab]; simpl.
  - by apply cap_getTab.
  - apply bool_decide_eq_true in P1. by apply cap_client_release.
  - by apply cap_tabReady.
Qed.

Lemma maxtabs_run' (ops : list PoolOp) (a : t) : _maxtabs (run ops a) = _maxtabs a.
Proof.
  assert (G : forall r b, _maxtabs (getTab r b) = _maxtabs b).
  { intros r b. unfold getTab. destruct (_tab b); [done|]. by destruct (_ <? _). }
  assert (Rl : forall tab b, _maxtabs (releaseTab tab b) = _maxtabs b).
  { intros tab b. unfold releaseTab. simpl. destruct (_ =? _); [done|].
    destruct (_resolvers b); [done|]. destruct (_tab b); [done|]. simpl.
    by destruct (_ <? _). }
  assert (Rs : forall (xs : list (Tab * Reaction)) b, _maxtabs (fold_left react xs b) = _maxtabs b).
  { induction xs as [|x xs IHx]; simpl; intros b; [done|]. rewrite IHx.
    unfold react. destruct (snd x); [done|]. apply Rl. }
  revert a. induction ops as [|o ops IH]; simpl; intros a; [done|]. rewrite IH.
  destruct o; simpl; [apply G|apply Rl|]. unfold tabReady. by rewrite Rs.
Qed.

(** X2. The TabAllocator of the crawler built on page-info messages
    keeps the bound the LoadListener one misses: for every browser, every
    maximum and every sequence of operations of polite clients (they
    release only tabs they hold), the tabs in use are at most [maxtabs]
    (one, for a maximum below one: the keep-alive tab is always given
    out); and at that point getTab queues the request instead of opening
    a tab. *)
Lemma Crawler_tabs_in_use_bounded (first : Tab) (others : list Tab) (maxtabs : Z)
    (ops : list PoolOp) :
  polite ops (new first others maxtabs) = true ->
  let a := run ops (new first others maxtabs) in
  Z.of_nat (length (tabs_in_use (trace a))) <= Z.max maxtabs 1 /\
  (forall r, _tab a = None -> maxtabs <= Z.of_nat (length (tabs_in_use (trace a))) ->
     getTab r a = log (Queued r) (set_resolvers (_resolvers a ++ [r]) a)).
Proof.
  intros P a.
  destruct (cap_run ops _ (cap_new first others maxtabs) P) as [C B _ _ _ _].
  fold a in C, B. rewrite app_nil_r in C, B.
  assert (M : _maxtabs a = maxtabs) by (unfold a; by rewrite maxtabs_run').
  rewrite M in B. unfold kept in C.
  split.
  - destruct (_tab a); lia.
  - intros r T L. unfold getTab. rewrite T, M.
    replace (_tabs a <? maxtabs) with false; [done|].
    symmetry. apply Z.ltb_ge. rewrite T in C. lia.
Qed.

End CrawlerCapacity.

(** The order of service when every request comes before every release,
    as in [crawl_urls], whose loop calls getTab for every url before any
    task can go on. *)
Section RequestsFirst.

Import Crawler.TabAllocator.

Definition is_getTab (o : PoolOp) : bool :=
  match o with GetTab _ => true | _ => false end.

(** No getTab after the first releaseTab. *)
Fixpoint requests_first (ops : list PoolOp) : bool :=
  match ops with
  | [] => true
  | ReleaseTab _ :: rest => forallb (fun o => negb (is_getTab o)) rest
  | _ :: rest => requests_first rest
  end.

Definition strict_line (a : t) : Prop :=
  line_after true [] (trace a) = Some (_resolvers a).

(** Before the first release: a request waits only when the keep-alive
    tab is gone and the count is at the maximum, and no callback will
    call releaseTab. *)
Record asking (a : t) : Prop := {
  ask_line : strict_line a;
  ask_full : _resolvers a <> [] -> _tab a = None /\ _maxtabs a <= _tabs a;
  ask_quiet : Forall (fun x => exists old, snd x = Remove_old old) (reactions a)
}.

Lemma asking_new (first : Tab) (others : list Tab) (maxtabs : Z) :
  asking (new first others maxtabs).
Proof.
  split; unfold strict_line; simpl; [done|done|].
  constructor; [by eexists|constructor].
Qed.

Lemma asking_getTab (r : Request) (a : t) : asking a -> asking (getTab r a).
Proof.
  intros [L F Q]. unfold strict_line in *. unfold getTab.
  destruct (_tab a) as [tb|] eqn:T.
  - assert (E : _resolvers a = []).
    { destruct (_resolvers a); [done|]. destruct F; done. }
    split; unfold strict_line; simpl; rewrite ?E; try done.
    rewrite line_after_app, L, E. done.
  - destruct (_tabs a <? _maxtabs a) eqn:C.
    + apply Z.ltb_lt in C.
      assert (E : _resolvers a = []).
      { destruct (_resolvers a); [done|]. destruct F; [done|lia]. }
      split; unfold strict_line; simpl; rewrite ?E; try done.
      rewrite !line_after_app, L, E. done.
    + apply Z.ltb_ge in C. split; unfold strict_line; simpl; try done.
      rewrite line_after_app, L. done.
Qed.

Lemma asking_tabReady (tab : Tab) (a : t) : asking a -> asking (tabReady tab a).
Proof.
  intros [L F Q]. unfold tabReady.
  assert (Qm : Forall (fun x : Tab * Reaction => exists old, snd x = Remove_old old)
                 (filter (fun x => fst x = tab) (reactions a))).
  { apply Forall_forall. intros x Hx. apply list_elem_of_filter in Hx as [_ Hx].
    rewrite Forall_forall in Q. by apply Q. }
  assert (I0 : asking (log (Initialised tab)
                 (set_reactions (filter (fun x => fst x <> tab) (reactions a)) a))).
  { split; unfold strict_line in *; simpl; try done.
    - rewrite line_after_app, L. done.
    - apply Forall_forall. intros x Hx. apply list_elem_of_filter in Hx as [_ Hx].
      rewrite Forall_forall in Q. by apply Q. }
  revert I0 Qm. generalize (log (Initialised tab)
                 (set_reactions (filter (fun x => fst x <> tab) (reactions a)) a)).
  generalize (filter (fun x => fst x = tab) (reactions a)).
  clear. intros mine. induction mine as [|x mine IH]; simpl; intros b I Qm; [done|].
  apply Forall_cons in Qm as [[old Hx] Qm]. apply IH; [|done].
  unfold react. rewrite Hx. destruct I as [L F Q]. unfold strict_line in *.
  split; unfold strict_line; simpl; try done. rewrite line_after_app, L. done.
Qed.

(** From the first release on, without getTab: every tab goes to the
    head of the line. *)
Lemma strict_releaseTab (tab : Tab) (a : t) : strict_line a -> strict_line (releaseTab tab a).
Proof.
  unfold strict_line. intros L. unfold releaseTab. simpl.
  destruct (_tabs a =? 1).
  - simpl. rewrite !line_after_app, L. done.
  - destruct (_resolvers a) as [|r rest] eqn:R.
    + simpl. rewrite R, !line_after_app, L. done.
    + destruct (_tab a) as [tb|]; simpl.
      * rewrite !line_after_app, L. simpl. by rewrite bool_decide_eq_true_2.
      * destruct (_ <? _); simpl.
        -- rewrite !line_after_app, L. simpl. by rewrite bool_decide_eq_true_2.
        -- rewrite R, !line_after_app, L. done.
Qed.

Lemma strict_tabReady (tab : Tab) (a : t) : strict_line a -> strict_line (tabReady tab a).
Proof.
  intros L. unfold tabReady.
  assert (I0 : strict_line (log (Initialised tab)
                 (set_reactions (filter (fun x => fst x <> tab) (reactions a)) a))).
  { unfold strict_line in *. simpl. rewrite line_after_app, L. done. }
  revert I0. generalize (log (Initialised tab)
                 (set_reactions (filter (fun x => fst x <> tab) (reactions a)) a)).
  generalize (filter (fun x => fst x = tab) (reactions a)).
  clear. intros mine. induction mine as [|x mine IH]; simpl; intros b I; [done|].
  apply IH. unfold react. destruct (snd x) as [old|tab].
  - unfold strict_line in *. simpl. rewrite line_after_app, I. done.
  - by apply strict_releaseTab.
Qed.

Lemma strict_run_quiet (ops : list PoolOp) (a : t) :
  forallb (fun o => negb (is_getTab o)) ops = true ->
  strict_line a -> strict_line (run ops a).
Proof.
  revert a. induction ops as [|o ops IH]; simpl; intros a Q L; [done|].
  apply andb_true_iff in Q as [Q1 Q2]. apply IH; [done|].
  destruct o; simpl in *; [done|by apply strict_releaseTab|by apply strict_tabReady].
Qed.

Lemma strict_run (ops : list PoolOp) (a : t) :
  requests_first ops = true -> asking a -> strict_line (run ops a).
Proof.
  revert a. induction ops as [|o ops IH]; simpl; intros a Q I.
  - by destruct I.
  - destruct o as [r|tab|tab]; simpl.
    + apply IH; [done|]. by apply asking_getTab.
    + apply strict_run_quiet; [done|]. apply strict_releaseTab. by destruct I.
    + apply IH; [done|]. by apply asking_tabReady.
Qed.

(** X3. The TabAllocator of the crawler built on page-info messages:
    when no getTab follows a releaseTab (crawl_urls asks for all its tabs
    at the start), the requests that had to wait are served first come,
    first served, without exception. *)
Lemma requests_first_served_in_order (first : Tab) (others : list Tab) (maxtabs : Z)
    (ops : list PoolOp) :
  requests_first ops = true ->
  first_come_first_served (trace (run ops (new first others maxtabs))) = true.
Proof.
  intros Q. unfold first_come_first_served. apply bool_decide_eq_true_2.
  rewrite (strict_run ops _ Q (asking_new first others maxtabs)). by eexists.
Qed.

(** Scenario A of the specification: one tab at most, three requests;
    the jobs run one after the other and the line is served in order. *)
Example one_tab_three_requests :
  let ops := [GetTab 1%nat; GetTab 2%nat; GetTab 3%nat; TabReady 1%nat;
              ReleaseTab 1%nat; TabReady 2%nat; ReleaseTab 2%nat; TabReady 3%nat;
              ReleaseTab 3%nat; TabReady 4%nat] in
  let a := run ops (new 0%nat [] 1) in
  requests_first ops = true /\
  polite ops (new 0%nat [] 1) = true /\
  queued (trace a) = [2%nat; 3%nat] /\
  handed (trace a) = [2%nat; 3%nat] /\
  omap given (trace a) = [(1%nat, 1%nat); (2%nat, 2%nat); (3%nat, 3%nat)] /\
  browser a = [4%nat] /\ _tabs a = 1.
Proof. vm_compute. repeat split. Qed.

End RequestsFirst.

(** ** The tab allocator of the crawler built on LoadListener *)

Section LoadCrawlerPool.

Import LoadCrawler.TabAllocator.

(** [_createTab] increments [tabs], so [_tabs] only ever goes down from
    zero; with a maximum of one tab or more no request is ever queued. *)
Record drifting (a : t) : Prop := {
  drift_tabs : _tabs a <= 0;
  drift_line : 1 <= _maxtabs a -> _resolvers a = [] /\ queued (trace a) = []
}.

Lemma queued_snoc (tr : list PoolEvent) (e : PoolEvent) :
  queued (tr ++ [e]) = queued tr ++ queued [e].
Proof. unfold queued. apply omap_app. Qed.

Lemma drifting_new (open : list Tab) (maxtabs : Z) : drifting (new open maxtabs).
Proof. split; simpl; [lia|done]. Qed.

Lemma drifting_getTab (r : Request) (a : t) : drifting a -> drifting (getTab r a).
Proof.
  intros [D L]. unfold getTab.
  destruct (_tab a) as [tab|].
  - destruct (negb (_tabInUse a)); split; simpl; try done;
      intros M; destruct (L M) as [-> Q]; rewrite queued_snoc, Q; done.
  - destruct (_tabs a <? _maxtabs a) eqn:C.
    + split; simpl; [done|].
      intros M. destruct (L M) as [-> Q]. by rewrite !queued_snoc, Q.
    + apply Z.ltb_ge in C. split; simpl; [done|]. intros M. lia.
Qed.

(** The keep-alive branch of [releaseTab] is dead: the tab is removed at
    once, and replaced only on behalf of a queued request. *)
Lemma releaseTab_removes (tab : Tab) (a : t) :
  _tabs a <= 0 ->
  releaseTab tab a =
  let a1 := browser_removeTab tab (log (Released tab) a) in
  match _resolvers a with
  | r :: rest =>
      let '(tab', a2) := _createTab (set_resolvers rest a1) in log (Handed_new r tab') a2
  | [] => decrement_tabs a1
  end.
Proof.
  intros D. unfold releaseTab. simpl.
  replace (_tabs a =? 1) with false by (symmetry; apply Z.eqb_neq; lia).
  by rewrite andb_false_r.
Qed.

Lemma drifting_releaseTab (tab : Tab) (a : t) : drifting a -> drifting (releaseTab tab a).
Proof.
  intros [D L]. rewrite (releaseTab_removes tab a D). simpl.
  destruct (_resolvers a) as [|r rest] eqn:R.
  - split; simpl; [lia|]. intros M. destruct (L M) as [_ Q].
    by rewrite !queued_snoc, Q.
  - split; simpl; [done|]. intros M. by destruct (L M).
Qed.

Lemma drifting_react (x : Tab * Reaction) (a : t) : drifting a -> drifting (react a x).
Proof.
  intros I. unfold react. destruct (snd x) as [|tab].
  - destruct I as [D L]. by split.
  - apply drifting_releaseTab. destruct I as [D L]. by split.
Qed.

Lemma drifting_fold_react (xs : list (Tab * Reaction)) (a : t) :
  drifting a -> drifting (fold_left react xs a).
Proof.
  revert a. induction xs as [|x xs IH]; simpl; intros a I; [done|].
  apply IH, drifting_react, I.
Qed.

Lemma drifting_fold_getTab (xs : list (Tab * Request)) (a : t) :
  drifting a -> drifting (fold_left (fun s x => getTab (snd x) s) xs a).
Proof.
  revert a. induction xs as [|x xs IH]; simpl; intros a I; [done|].
  apply IH, drifting_getTab, I.
Qed.

Lemma drifting_tabReady (tab : Tab) (a : t) : drifting a -> drifting (tabReady tab a).
Proof.
  intros [D L]. unfold tabReady.
  apply drifting_fold_getTab.
  match goal with |- drifting (set_deferred _ ?b) =>
    assert (I : drifting b); [|destruct I; by split] end.
  apply drifting_fold_react. split; simpl; [done|].
  intros M. destruct (L M) as [-> Q]. by rewrite queued_snoc, Q.
Qed.

Lemma drifting_run (ops : list PoolOp) (a : t) : drifting a -> drifting (run ops a).
Proof.
  revert a. induction ops as [|o ops IH]; simpl; intros a I; [done|].
  apply IH. destruct o; simpl;
    [by apply drifting_getTab|by apply drifting_releaseTab|by apply drifting_tabReady].
Qed.

Lemma maxtabs_getTab (r : Request) (a : t) : _maxtabs (getTab r a) = _maxtabs a.
Proof.
  unfold getTab. destruct (_tab a); [by destruct (negb _)|by destruct (_ <? _)].
Qed.

Lemma maxtabs_releaseTab (tab : Tab) (a : t) : _maxtabs (releaseTab tab a) = _maxtabs a.
Proof.
  unfold releaseTab. simpl. destruct (_ && _); [done|]. by destruct (_resolvers a).
Qed.

Lemma maxtabs_tabReady (tab : Tab) (a : t) : _maxtabs (tabReady tab a) = _maxtabs a.
Proof.
  unfold tabReady.
  assert (G : forall (xs : list (Tab * Request)) b,
             _maxtabs (fold_left (fun s x => getTab (snd x) s) xs b) = _maxtabs b).
  { induction xs as [|x xs IHx]; simpl; intros b; [done|].
    by rewrite IHx, maxtabs_getTab. }
  assert (R : forall (xs : list (Tab * Reaction)) b, _maxtabs (fold_left react xs b) = _maxtabs b).
  { induction xs as [|x xs IHx]; simpl; intros b; [done|]. rewrite IHx.
    unfold react. destruct (snd x); [done|]. by rewrite maxtabs_releaseTab. }
  rewrite G. simpl. by rewrite R.
Qed.

Lemma maxtabs_run (ops : list PoolOp) (a : t) : _maxtabs (run ops a) = _maxtabs a.
Proof.
  revert a. induction ops as [|o ops IH]; simpl; intros a; [done|]. rewrite IH.
  destruct o; simpl; [apply maxtabs_getTab|apply maxtabs_releaseTab|apply maxtabs_tabReady].
Qed.

(** X4. The TabAllocator of the crawler built on LoadListener, for
    every browser and every sequence of operations: the count [_tabs]
    never exceeds zero ([_createTab] increments [tabs] instead), so for
    a maximum of one or more getTab never queues a request and nothing
    ever waits in [_resolvers]. *)
Lemma LoadCrawler_tabs_never_counted (open : list Tab) (maxtabs : Z) (ops : list PoolOp) :
  let a := run ops (new open maxtabs) in
  _tabs a <= 0 /\ (1 <= maxtabs -> _resolvers a = [] /\ queued (trace a) = []).
Proof.
  destruct (drifting_run ops _ (drifting_new open maxtabs)) as [D L].
  split; [done|]. intros M. apply L. by rewrite maxtabs_run.
Qed.

(** C1 at the failing input.  A maximum of one tab and two requests made
    while the first tab is being opened (as crawl_urls makes them): when
    the first tab is initialised the second request opens a second tab,
    nothing is queued, and two tabs are in use at once. *)
Theorem LoadCrawler_exceeds_maxtabs :
  let a := run [GetTab 1%nat; GetTab 2%nat; TabReady 1%nat; TabReady 2%nat] (new [0%nat] 1) in
  tabs_in_use (trace a) = [1%nat; 2%nat] /\
  queued (trace a) = [] /\
  trace a = [Added 1%nat; Got_keep_alive 1%nat 1%nat; Deferred 2%nat 1%nat;
             Initialised 1%nat; Added 2%nat; Got_new 2%nat 2%nat; Initialised 2%nat] /\
  _maxtabs a = 1 /\ _tabs a = 0 /\ tabs a = Some NaN.
Proof. vm_compute. repeat split. Qed.

(** C7 at the failing input.  A maximum of one tab, one request, and the
    release of its tab with nobody waiting: the tab is removed at once,
    no tab is opened in its place and the browser is left without a tab. *)
Theorem LoadCrawler_closes_last_tab :
  let before := run [GetTab 1%nat; TabReady 1%nat] (new [0%nat] 1) in
  let a := releaseTab 1%nat before in
  browser before = [1%nat] /\ _resolvers before = [] /\
  browser a = [] /\
  trace a = trace before ++ [Released 1%nat; Removed 1%nat] /\
  _tab a = None /\ _tabs a = -1.
Proof. vm_compute. repeat split. Qed.

End LoadCrawlerPool.

(** ** crawl_url *)

Section JobFacts.

Ltac count_releases :=
  simpl; rewrite ?bool_decide_eq_true_2 by reflexivity; auto.

Lemma Crawler_crawl_url_cases (c : Crawler.Collaborators) (u : string) (tab : TabObject)
    (pageInfo : option (JsExn + PageInfo)) :
  let r := Crawler.crawl_url c u (Some (inr tab)) pageInfo in
  (is_Some pageInfo -> exited (fst r) = true) /\
  (exited (fst r) = true ->
     (Crawler.shutdown c = None ->
        releases (tab_name tab) (snd r) = 1%nat /\ all_releases (snd r) = 1%nat) /\
     (Crawler.new_RequestNotifier c = None -> Crawler.shutdown c <> None ->
        all_releases (snd r) = 0%nat)) /\
  (exited (fst r) = false -> all_releases (snd r) = 0%nat).
Proof.
  unfold Crawler.crawl_url, Crawler.start, Crawler.resume_with_tab,
    Crawler.resume_with_pageInfo, leave, finally_block.
  destruct (Crawler.new_RequestNotifier c) as [e1|], (Crawler.expect c) as [e2|],
    (Crawler.loadURI c) as [e3|], (Crawler.shutdown c) as [e4|],
    pageInfo as [[e5|pi]|]; simpl;
    try destruct (Crawler.currentURI_spec c) as [e6|spec]; simpl;
    count_releases;
    repeat split; try done; try (intros [? ?]; done); intros; count_releases; done.
Qed.

Lemma LoadCrawler_crawl_url_cases (c : LoadCrawler.Collaborators) (u : string) (tab : TabObject)
    (load : option (JsExn + Z * list string)) :
  let r := LoadCrawler.crawl_url c u (Some (inr tab)) load in
  (is_Some load -> exited (fst r) = true) /\
  (exited (fst r) = true ->
     (LoadCrawler.shutdown c = None ->
        releases (tab_name tab) (snd r) = 1%nat /\ all_releases (snd r) = 1%nat) /\
     (LoadCrawler.new_RequestNotifier c = None -> LoadCrawler.shutdown c <> None ->
        all_releases (snd r) = 0%nat)) /\
  (exited (fst r) = false -> all_releases (snd r) = 0%nat).
Proof.
  unfold LoadCrawler.crawl_url, LoadCrawler.start, LoadCrawler.resume_with_tab,
    LoadCrawler.resume_with_load, leave, finally_block.
  destruct (LoadCrawler.new_RequestNotifier c) as [e1|], (LoadCrawler.loadURI c) as [e2|],
    (LoadCrawler.waitForLoad c) as [e3|], (LoadCrawler.shutdown c) as [e4|],
    load as [[e5|[status hs]]|]; simpl;
    try destruct (LoadCrawler.currentURI_spec c) as [e6|spec]; simpl;
    try destruct (LoadCrawler.contentDocument c) as [e7|document]; simpl;
    try destruct (ChildScript.documentElement document) as [e11|[root|]]; simpl;
    try destruct (LoadCrawler.capture document root) as [e8|data]; simpl;
    try destruct (LoadCrawler.reportException c e8) as [e12|]; simpl;
    try destruct (LoadCrawler.new_XMLSerializer c) as [e9|serializer]; simpl;
    try destruct (ChildScript.serializeToString serializer root) as [e10|text]; simpl;
    count_releases;
    repeat split; try done; try (intros [? ?]; done); intros; count_releases; done.
Qed.

Lemma no_release_at_all (tab : Tab) (es : list JobEffect) :
  all_releases es = 0%nat -> releases tab es = 0%nat.
Proof. induction es as [|[] es IH]; simpl; auto; discriminate. Qed.

(** How a job that has ended after a throwing shutdown() stands: it threw
    that exception instead of returning its result or throwing the
    exception of its try block. *)
Lemma Crawler_shutdown_exception (c : Crawler.Collaborators) (u : string) (tab : TabObject)
    (pageInfo : option (JsExn + PageInfo)) (e : JsExn) :
  Crawler.new_RequestNotifier c = None -> Crawler.shutdown c = Some e ->
  exited (fst (Crawler.crawl_url c u (Some (inr tab)) pageInfo)) = true ->
  exists abandoned,
    fst (Crawler.crawl_url c u (Some (inr tab)) pageInfo) = Threw e abandoned /\
    Called_shutdown ∈ snd (Crawler.crawl_url c u (Some (inr tab)) pageInfo).
Proof.
  unfold Crawler.crawl_url, Crawler.start, Crawler.resume_with_tab,
    Crawler.resume_with_pageInfo, leave, finally_block.
  intros -> ->.
  destruct (Crawler.expect c) as [e2|], (Crawler.loadURI c) as [e3|],
    pageInfo as [[e5|pi]|]; simpl;
    try destruct (Crawler.currentURI_spec c) as [e6|spec]; simpl;
    try done; intros _; eexists; (split; [reflexivity|]);
    rewrite ?elem_of_app, ?elem_of_cons; auto 10.
Qed.

Lemma LoadCrawler_shutdown_exception (c : LoadCrawler.Collaborators) (u : string)
    (tab : TabObject) (load : option (JsExn + Z * list string)) (e : JsExn) :
  LoadCrawler.new_RequestNotifier c = None -> LoadCrawler.shutdown c = Some e ->
  exited (fst (LoadCrawler.crawl_url c u (Some (inr tab)) load)) = true ->
  exists abandoned,
    fst (LoadCrawler.crawl_url c u (Some (inr tab)) load) = Threw e abandoned /\
    Called_shutdown ∈ snd (LoadCrawler.crawl_url c u (Some (inr tab)) load).
Proof.
  unfold LoadCrawler.crawl_url, LoadCrawler.start, LoadCrawler.resume_with_tab,
    LoadCrawler.resume_with_load, leave, finally_block.
  intros -> ->.
  destruct (LoadCrawler.loadURI c) as [e2|], (LoadCrawler.waitForLoad c) as [e3|],
    load as [[e5|[status hs]]|]; simpl;
    try destruct (LoadCrawler.currentURI_spec c) as [e6|spec]; simpl;
    try destruct (LoadCrawler.contentDocument c) as [e7|document]; simpl;
    try destruct (ChildScript.documentElement document) as [e11|[root|]]; simpl;
    try destruct (LoadCrawler.capture document root) as [e8|data]; simpl;
    try destruct (LoadCrawler.reportException c e8) as [e12|]; simpl;
    try destruct (LoadCrawler.new_XMLSerializer c) as [e9|serializer]; simpl;
    try destruct (ChildScript.serializeToString serializer root) as [e10|text]; simpl;
    try done; intros _; eexists; (split; [reflexivity|]);
    rewrite ?elem_of_app, ?elem_of_cons; auto 10.
Qed.

(** The exit paths on which the tab is released.  Both [crawl_url]
    generators, for every behaviour of the collaborators called inside
    the try block (each call returns or throws), every tab obtained from
    getTab and every way the awaited promise settles (a page info, the
    timeout result, a rejection), given that
    [requestNotifier.shutdown()] in the finally block returns: once the
    awaited promise has settled the generator has ended, and whenever it
    has ended, by return or by exception, releaseTab was called on the
    tab exactly once and on no other tab; while the generator is still
    suspended releaseTab was not called. *)
Lemma crawl_url_releases_tab_once :
  forall (c1 : Crawler.Collaborators) (c2 : LoadCrawler.Collaborators) (u : string)
         (tab : TabObject) (pageInfo : option (JsExn + PageInfo))
         (load : option (JsExn + Z * list string)),
    Crawler.shutdown c1 = None ->
    LoadCrawler.shutdown c2 = None ->
    let r1 := Crawler.crawl_url c1 u (Some (inr tab)) pageInfo in
    let r2 := LoadCrawler.crawl_url c2 u (Some (inr tab)) load in
    ((is_Some pageInfo -> exited (fst r1) = true) /\
     (exited (fst r1) = true ->
        releases (tab_name tab) (snd r1) = 1%nat /\ all_releases (snd r1) = 1%nat) /\
     (exited (fst r1) = false -> all_releases (snd r1) = 0%nat)) /\
    ((is_Some load -> exited (fst r2) = true) /\
     (exited (fst r2) = true ->
        releases (tab_name tab) (snd r2) = 1%nat /\ all_releases (snd r2) = 1%nat) /\
     (exited (fst r2) = false -> all_releases (snd r2) = 0%nat)).
Proof.
  intros c1 c2 u tab pageInfo load S1 S2 r1 r2.
  destruct (Crawler_crawl_url_cases c1 u tab pageInfo) as (A1 & A2 & A3).
  destruct (LoadCrawler_crawl_url_cases c2 u tab load) as (B1 & B2 & B3).
  split; (split; [done|split; [|done]]).
  - intros E. by apply A2.
  - intros E. by apply B2.
Qed.

(** C3, where the code departs from it.  In both [crawl_url] generators
    the finally block calls [requestNotifier.shutdown()] before
    [tabAllocator.releaseTab(tab)], with nothing to catch what it
    throws.  So when the RequestNotifier was made and its shutdown()
    throws, on every exit path of the job body (the awaited promise
    settled with a page info or load, with the timeout result or with a
    rejection, or a step of the try block threw), the generator ends by
    throwing the exception of shutdown(), in place of its result or of
    the exception of the try block, and releaseTab is never called: the
    tab obtained from getTab is not given back. *)
Theorem crawl_url_skips_releaseTab_when_shutdown_throws :
  forall (c1 : Crawler.Collaborators) (c2 : LoadCrawler.Collaborators) (u : string)
         (tab : TabObject) (pageInfo : JsExn + PageInfo) (load : JsExn + Z * list string)
         (e1 e2 : JsExn),
    Crawler.new_RequestNotifier c1 = None -> Crawler.shutdown c1 = Some e1 ->
    LoadCrawler.new_RequestNotifier c2 = None -> LoadCrawler.shutdown c2 = Some e2 ->
    let r1 := Crawler.crawl_url c1 u (Some (inr tab)) (Some pageInfo) in
    let r2 := LoadCrawler.crawl_url c2 u (Some (inr tab)) (Some load) in
    ((exists abandoned, fst r1 = Threw e1 abandoned) /\
     releases (tab_name tab) (snd r1) = 0%nat /\ all_releases (snd r1) = 0%nat /\
     Called_shutdown ∈ snd r1) /\
    ((exists abandoned, fst r2 = Threw e2 abandoned) /\
     releases (tab_name tab) (snd r2) = 0%nat /\ all_releases (snd r2) = 0%nat /\
     Called_shutdown ∈ snd r2).
Proof.
  intros c1 c2 u tab pageInfo load e1 e2 N1 S1 N2 S2 r1 r2.
  destruct (Crawler_crawl_url_cases c1 u tab (Some pageInfo)) as (A1 & A2 & _).
  destruct (LoadCrawler_crawl_url_cases c2 u tab (Some load)) as (B1 & B2 & _).
  assert (X1 : exited (fst r1) = true) by (apply A1; by eexists).
  assert (X2 : exited (fst r2) = true) by (apply B1; by eexists).
  assert (Z1 : all_releases (snd r1) = 0%nat).
  { apply A2; [done|done|]. by rewrite S1. }
  assert (Z2 : all_releases (snd r2) = 0%nat).
  { apply B2; [done|done|]. by rewrite S2. }
  destruct (Crawler_shutdown_exception c1 u tab (Some pageInfo) e1 N1 S1 X1) as (a1 & T1 & C1).
  destruct (LoadCrawler_shutdown_exception c2 u tab (Some load) e2 N2 S2 X2) as (a2 & T2 & C2).
  split; (split; [by eexists|split; [by apply no_release_at_all|done]]).
Qed.

End JobFacts.

(** ** A tab that is not given back *)

Section LeakedTab.

Import Crawler.TabAllocator.

(** No reaction is a release. *)
Definition only_removals (rs : list (Tab * Reaction)) : Prop :=
  Forall (fun x => match snd x with Remove_old _ => True | Release_again _ => False end) rs.

(** Events that give no tab, take none back and queue nobody. *)
Definition idle (e : PoolEvent) : bool :=
  match e with Initialised _ | Removed _ => true | _ => false end.

Lemma idle_events (tr extra : list PoolEvent) :
  Forall (fun e => idle e = true) extra ->
  queued (tr ++ extra) = queued tr /\ handed (tr ++ extra) = handed tr /\
  tabs_in_use (tr ++ extra) = tabs_in_use tr.
Proof.
  intros F. unfold queued, handed, tabs_in_use. rewrite !omap_app, !in_use_fold, fold_left_app.
  generalize (fold_left use tr []). intros held.
  assert (Q : queued extra = [] /\ handed extra = [] /\ fold_left use extra held = held).
  { induction F as [|e extra He _ (I1 & I2 & I3)]; [done|].
    destruct e; try discriminate; simpl; done. }
  destruct Q as (Q1 & Q2 & Q3). unfold queued, handed in Q1, Q2.
  by rewrite Q1, Q2, Q3, !app_nil_r.
Qed.

Lemma tabReady_without_release (tab : Tab) (a : t) :
  only_removals (reactions a) ->
  only_removals (reactions (tabReady tab a)) /\
  _resolvers (tabReady tab a) = _resolvers a /\
  exists extra, trace (tabReady tab a) = trace a ++ extra /\
                Forall (fun e => idle e = true) extra.
Proof.
  unfold only_removals, tabReady. intros F.
  assert (Fm : only_removals (filter (fun x => fst x = tab) (reactions a))).
  { apply Forall_forall. intros x [_ Hx]%list_elem_of_filter.
    by apply (proj1 (Forall_forall _ _) F). }
  assert (Fo : only_removals (filter (fun x => fst x ≠ tab) (reactions a))).
  { apply Forall_forall. intros x [_ Hx]%list_elem_of_filter.
    by apply (proj1 (Forall_forall _ _) F). }
  revert Fm. generalize (filter (fun x => fst x = tab) (reactions a)). intros mine Fm.
  set (a0 := log (Initialised tab) (set_reactions _ a)).
  assert (G : forall b,
    only_removals (reactions b) ->
    only_removals (reactions (fold_left react mine b)) /\
    _resolvers (fold_left react mine b) = _resolvers b /\
    exists extra, trace (fold_left react mine b) = trace b ++ extra /\
                  Forall (fun e => idle e = true) extra).
  { induction Fm as [|[tb [old|again]] mine Hx _ IH]; intros b Fb; simpl.
    - split; [done|]. split; [done|]. exists []. by rewrite app_nil_r.
    - destruct (IH (react b (tb, Remove_old old))) as (I1 & I2 & extra & I3 & I4); [done|].
      split; [done|]. split; [by rewrite I2|].
      exists (Removed old :: extra). split; [|by constructor].
      rewrite I3. unfold react, browser_removeTab, log. simpl. by rewrite <- app_assoc.
    - done. }
  destruct (G a0 Fo) as (G1 & G2 & extra & G3 & G4).
  split; [done|]. split; [by rewrite G2|].
  exists (Initialised tab :: extra). split; [|by constructor].
  rewrite G3. unfold a0, log. simpl. by rewrite <- app_assoc.
Qed.

(** A tab that is not given back.  With a maximum of one tab, the first
    request takes the only tab and the second is queued; if releaseTab
    is never called, then whatever tabs are initialised, and in whatever
    order, the second request stays queued and no resolver is ever
    called: its job never gets a tab. *)
Lemma unreleased_tab_starves_the_queue (first : Tab) (others ready : list Tab) :
  let a := run (map TabReady ready) (run [GetTab 1%nat; GetTab 2%nat] (new first others 1)) in
  _resolvers a = [2%nat] /\ queued (trace a) = [2%nat] /\ handed (trace a) = [] /\
  length (tabs_in_use (trace a)) = 1%nat.
Proof.
  intros a.
  set (a0 := run [GetTab 1%nat; GetTab 2%nat] (new first others 1)) in a.
  assert (G : forall b,
    only_removals (reactions b) ->
    _resolvers (run (map TabReady ready) b) = _resolvers b /\
    exists extra, trace (run (map TabReady ready) b) = trace b ++ extra /\
                  Forall (fun e => idle e = true) extra).
  { induction ready as [|tab ready IH]; intros b Fb; simpl.
    - split; [done|]. exists []. by rewrite app_nil_r.
    - destruct (tabReady_without_release tab b Fb) as (T1 & T2 & ex1 & T3 & T4).
      destruct (IH (tabReady tab b) T1) as (I1 & ex2 & I2 & I3).
      split; [by rewrite I1|]. exists (ex1 ++ ex2).
      split; [by rewrite I2, T3, <- app_assoc|by apply Forall_app]. }
  assert (F0 : only_removals (reactions a0)).
  { unfold a0, only_removals. simpl. repeat constructor. }
  destruct (G a0 F0) as (G1 & extra & G2 & G3). fold a in G1, G2.
  destruct (idle_events (trace a0) extra G3) as (Q & H & U).
  rewrite G1, G2, Q, H, U. by vm_compute.
Qed.

End LeakedTab.

(** ** crawl_urls *)

Section BatchAccess.

Import Crawler.

Lemma jobs_set_status (i : nat) (st : JobStatus) (b : Batch) :
  jobs (set_status i st b) = alter (fun x => (fst x, st)) i (jobs b).
Proof. reflexivity. Qed.

Lemma did_set_status (i : nat) (st : JobStatus) (b : Batch) :
  did (set_status i st b) = did b.
Proof. reflexivity. Qed.

Lemma running_set_status (i : nat) (st : JobStatus) (b : Batch) :
  running (set_status i st b) = running b.
Proof. reflexivity. Qed.

Lemma jobs_do_effects (es : list BatchEffect) (b : Batch) : jobs (do_effects es b) = jobs b.
Proof. reflexivity. Qed.

Lemma did_do_effects (es : list BatchEffect) (b : Batch) : did (do_effects es b) = did b ++ es.
Proof. reflexivity. Qed.

Lemma running_do_effects (es : list BatchEffect) (b : Batch) :
  running (do_effects es b) = running b.
Proof. reflexivity. Qed.


End BatchAccess.

Create Rewrite HintDb batch.
#[global] Hint Rewrite jobs_set_status did_set_status running_set_status
  jobs_do_effects did_do_effects running_do_effects : batch.

Section BatchFacts.

Import Crawler.

Fixpoint count_status (p : JobStatus -> bool) (js : list (string * JobStatus)) : nat :=
  match js with
  | [] => 0
  | x :: rest => ((if p (snd x) then 1 else 0) + count_status p rest)%nat
  end.

(** Jobs for which taskDone has not run, and jobs whose record was sent. *)
Definition not_finished (s : JobStatus) : bool := negb (bool_decide (s = Finished)).
Definition not_spawned (s : JobStatus) : bool := negb (bool_decide (s = Spawned)).
Definition unfinished (b : Batch) : nat := count_status not_finished (jobs b).
Definition reported_jobs (b : Batch) : nat := count_status not_spawned (jobs b).

Lemma count_alter (p : JobStatus -> bool) (js : list (string * JobStatus)) (i : nat)
    (u : string) (st st' : JobStatus) :
  js !! i = Some (u, st) ->
  (count_status p (alter (fun x => (fst x, st')) i js) + (if p st then 1 else 0) =
   count_status p js + (if p st' then 1 else 0))%nat.
Proof.
  revert i. induction js as [|x js IH]; intros i H; [done|].
  destruct i as [|i]; simpl in *.
  - injection H as ->. simpl. destruct (p st), (p st'); lia.
  - specialize (IH i H). unfold alter in IH. destruct (p (snd x)); lia.
Qed.

Lemma count_all (p : JobStatus -> bool) (js : list (string * JobStatus)) :
  Forall (fun x => p (snd x) = true) js -> count_status p js = length js.
Proof. induction 1 as [|x js Hx _ IH]; simpl; [done|]. rewrite Hx, IH. done. Qed.

Lemma count_none (p : JobStatus -> bool) (js : list (string * JobStatus)) :
  count_status p js = 0%nat <-> Forall (fun x => p (snd x) = false) js.
Proof.
  induction js as [|x js IH]; simpl; [by split|].
  destruct (p (snd x)) eqn:E; split.
  - lia.
  - intros F. inversion F; congruence.
  - intros C. constructor; [done|]. by apply IH.
  - intros F. inversion F. by apply IH.
Qed.

Lemma unfinished_zero (b : Batch) : unfinished b = 0%nat <-> all_finished b.
Proof.
  unfold unfinished, all_finished. rewrite count_none.
  apply Forall_proper; [|done]. intros [u s]. simpl. unfold not_finished.
  destruct s; simpl; split; congruence.
Qed.


Lemma sent_before_app (es es' : list BatchEffect) :
  filter (fun e => e = Called_onDone) es = [] ->
  sent_before_onDone (es ++ es') = (sent_before_onDone es + sent_before_onDone es')%nat.
Proof.
  induction es as [|e es IH]; simpl; [done|].
  rewrite filter_cons. destruct e; simpl; intros H; try (by rewrite IH); done.
Qed.

Lemma records_of_app (i : nat) (es es' : list BatchEffect) :
  records_of i (es ++ es') = records_of i es ++ records_of i es'.
Proof. apply omap_app. Qed.

(** After the loop of [crawl_urls]: one spawned job per url, and
    [running] is their number. *)
Lemma crawl_urls_spawned (urls : list string) :
  crawl_urls urls =
  {| running := Z.of_nat (length urls);
     jobs := map (fun u => (u, Spawned)) urls;
     did := [] |}.
Proof.
  unfold crawl_urls.
  assert (G : forall us b,
    fold_left spawn us b =
    {| running := running b + Z.of_nat (length us);
       jobs := jobs b ++ map (fun u => (u, Spawned)) us;
       did := did b |}).
  { induction us as [|u us IH]; intros b; simpl.
    - destruct b; simpl. f_equal; [lia|by rewrite app_nil_r].
    - rewrite IH. simpl. f_equal; [lia|by rewrite <- app_assoc]. }
  rewrite G. simpl. f_equal.
Qed.

(** What holds of a batch at every moment after the loop. *)
Record batch_inv (b : Batch) : Prop := {
  bi_running : running b = Z.of_nat (unfinished b);
  bi_calls : onDone_calls b =
             if bool_decide (unfinished b = 0%nat /\ jobs b <> []) then 1%nat else 0%nat;
  bi_sent : onDone_calls b = 0%nat -> sent_before_onDone (did b) = reported_jobs b;
  bi_all : onDone_calls b = 1%nat -> sent_before_onDone (did b) = length (jobs b);
  bi_records : forall i,
      length (records_of i (did b)) =
      match jobs b !! i with
      | Some (_, Spawned) | None => 0%nat
      | Some _ => 1%nat
      end
}.

Lemma batch_inv_start (urls : list string) : batch_inv (crawl_urls urls).
Proof.
  rewrite crawl_urls_spawned.
  assert (U : forall us, count_status not_finished (map (fun u : string => (u, Spawned)) us) = length us).
  { induction us; simpl; [done|]. by f_equal. }
  assert (R : forall us, count_status not_spawned (map (fun u : string => (u, Spawned)) us) = 0%nat).
  { induction us; simpl; done. }
  split; unfold unfinished, reported_jobs, onDone_calls; simpl; rewrite ?U, ?R; try done.
  - case_bool_decide as E; [|done]. destruct E as [E N]. destruct urls; done.
  - intros i. rewrite list_lookup_fmap. by destruct (urls !! i).
Qed.

Lemma lookup_set_status (i j : nat) (st : JobStatus) (b : Batch) :
  jobs (set_status i st b) !! j =
  if decide (i = j) then (fun x => (fst x, st)) <$> jobs b !! j else jobs b !! j.
Proof.
  unfold set_status. simpl. rewrite list_lookup_alter.
  by destruct (decide (i = j)) as [<-|E].
Qed.

Lemma unfinished_positive (b : Batch) (i : nat) (u : string) (st : JobStatus) :
  jobs b !! i = Some (u, st) -> st <> Finished -> (1 <= unfinished b)%nat.
Proof.
  unfold unfinished. generalize (jobs b). intros js. revert i.
  induction js as [|x js IH]; intros i H N; [done|].
  destruct i; simpl in *.
  - injection H as ->. simpl. unfold not_finished. rewrite bool_decide_eq_false_2 by done.
    simpl. lia.
  - specialize (IH _ H N). lia.
Qed.

Lemma no_calls_yet (b : Batch) :
  batch_inv b -> (1 <= unfinished b)%nat ->
  onDone_calls b = 0%nat /\ filter (fun e => e = Called_onDone) (did b) = [].
Proof.
  intros I U. assert (C0 : onDone_calls b = 0%nat).
  { rewrite (bi_calls b I). rewrite bool_decide_eq_false_2; [done|]. intros [E _]. lia. }
  split; [done|]. unfold onDone_calls in C0. by apply nil_length_inv.
Qed.

Lemma batch_inv_settled (b : Batch) (i : nat) (u : string) (es : list BatchEffect) (r : JobRecord) :
  batch_inv b -> jobs b !! i = Some (u, Spawned) ->
  (es = [Sent i r] \/ exists e, es = [Logged e; Sent i r]) ->
  batch_inv (set_status i Reporting (do_effects es b)).
Proof.
  intros I H Hes.
  pose proof (count_alter not_finished (jobs b) i u Spawned Reporting H) as CU.
  pose proof (count_alter not_spawned (jobs b) i u Spawned Reporting H) as CR.
  simpl in CU, CR.
  assert (U2 : (1 <= unfinished b)%nat) by by eapply unfinished_positive.
  destruct (no_calls_yet b I U2) as [C0 F0].
  destruct I as [R C Sn A Rec].
  set (b' := set_status i Reporting (do_effects es b)).
  assert (U1 : unfinished b' = unfinished b).
  { unfold unfinished, b'. autorewrite with batch. lia. }
  assert (R1 : reported_jobs b' = S (reported_jobs b)).
  { unfold reported_jobs, b'. autorewrite with batch. lia. }
  assert (Fes : filter (fun e => e = Called_onDone) es = []).
  { destruct Hes as [->|[e ->]]; rewrite !filter_cons_False by done; done. }
  assert (Ses : sent_before_onDone es = 1%nat).
  { destruct Hes as [->|[e ->]]; reflexivity. }
  assert (C1 : onDone_calls b' = 0%nat).
  { unfold onDone_calls, b'. autorewrite with batch.
    by rewrite filter_app, length_app, F0, Fes. }
  split.
  - rewrite U1. unfold b'. by autorewrite with batch.
  - rewrite C1, U1. rewrite bool_decide_eq_false_2; [done|]. intros [E _]. lia.
  - intros _. unfold b'. autorewrite with batch. fold b'.
    rewrite sent_before_app by done. rewrite (Sn C0), R1, Ses. lia.
  - rewrite C1. done.
  - intros j. unfold b'. autorewrite with batch.
    rewrite records_of_app, length_app, (Rec j).
    rewrite list_lookup_alter. destruct (decide (i = j)) as [<-|E].
    + rewrite H. simpl.
      destruct Hes as [->|[e ->]]; simpl; by rewrite bool_decide_eq_true_2.
    + assert (records_of j es = []) as ->.
      { destruct Hes as [->|[e ->]]; simpl; by rewrite bool_decide_eq_false_2. }
      simpl. lia.
Qed.

Lemma taskDone_cases (b : Batch) :
  (running b - 1 <= 0 /\
   taskDone b = do_effects [Stopped_windowCloser; Called_onDone]
                  {| running := running b - 1; jobs := jobs b; did := did b |}) \/
  (0 < running b - 1 /\
   taskDone b = {| running := running b - 1; jobs := jobs b; did := did b |}).
Proof.
  unfold taskDone. destruct (running b - 1 <=? 0) eqn:D.
  - left. apply Z.leb_le in D. done.
  - right. apply Z.leb_gt in D. done.
Qed.

Lemma batch_inv_finished (b : Batch) (i : nat) (u : string) :
  batch_inv b -> jobs b !! i = Some (u, Reporting) ->
  batch_inv (taskDone (set_status i Finished b)).
Proof.
  intros I H.
  pose proof (count_alter not_finished (jobs b) i u Reporting Finished H) as CU.
  pose proof (count_alter not_spawned (jobs b) i u Reporting Finished H) as CR.
  simpl in CU, CR.
  assert (U2 : (1 <= unfinished b)%nat) by by eapply unfinished_positive.
  destruct (no_calls_yet b I U2) as [C0 F0].
  destruct I as [R C Sn A Rec].
  set (b1 := set_status i Finished b).
  assert (N : jobs b1 <> []).
  { unfold b1. autorewrite with batch. intros E. apply (f_equal length) in E.
    rewrite length_alter in E. apply lookup_lt_Some in H. simpl in E. lia. }
  assert (U : unfinished b = S (unfinished b1)).
  { unfold unfinished, b1. autorewrite with batch. lia. }
  assert (R1 : reported_jobs b1 = reported_jobs b).
  { unfold reported_jobs, b1. autorewrite with batch. lia. }
  assert (Rec1 : forall j,
     length (records_of j (did b)) =
     match jobs b1 !! j with
     | Some (_, Spawned) | None => 0%nat
     | Some _ => 1%nat
     end).
  { intros j. rewrite (Rec j). unfold b1. autorewrite with batch.
    rewrite list_lookup_alter. destruct (decide (i = j)) as [<-|E]; [|done].
    by rewrite H. }
  destruct (taskDone_cases b1) as [[D ->]|[D ->]];
    unfold b1 in D; autorewrite with batch in D.
  - assert (U0 : unfinished b1 = 0%nat) by lia.
    assert (AF : all_finished b1) by by apply unfinished_zero.
    assert (L : reported_jobs b1 = length (jobs b1)).
    { apply count_all. eapply Forall_impl; [exact AF|]. by intros [? s] ->. }
    split; unfold onDone_calls, unfinished, reported_jobs in *; simpl in *.
    + lia.
    + rewrite filter_app, length_app, F0. simpl.
      rewrite bool_decide_eq_true_2; [done|]. split; [lia|done].
    + rewrite filter_app, length_app, F0. simpl. done.
    + intros _. rewrite sent_before_app by done. simpl. rewrite (Sn C0). lia.
    + intros j. rewrite records_of_app, length_app. simpl. rewrite Nat.add_0_r.
      apply Rec1.
  - split; unfold onDone_calls, unfinished, reported_jobs in *; simpl in *.
    + lia.
    + rewrite F0. simpl. rewrite bool_decide_eq_false_2; [done|]. lia.
    + intros _. rewrite (Sn C0). lia.
    + rewrite F0. done.
    + apply Rec1.
Qed.

Lemma batch_inv_step (b : Batch) (e : BatchEvent) : batch_inv b -> batch_inv (batch_step b e).
Proof.
  intros I. destruct e as [i [x|r] now|i ok]; simpl.
  - destruct (jobs b !! i) as [[u []]|] eqn:H; try done.
    eapply batch_inv_settled; eauto.
  - destruct (jobs b !! i) as [[u []]|] eqn:H; try done.
    eapply batch_inv_settled; eauto.
  - destruct (jobs b !! i) as [[u []]|] eqn:H; try done.
    eapply batch_inv_finished; eauto.
Qed.

Lemma batch_inv_run (es : list BatchEvent) (b : Batch) :
  batch_inv b -> batch_inv (batch_run es b).
Proof.
  revert b. induction es as [|e es IH]; simpl; intros b I; [done|].
  apply IH, batch_inv_step, I.
Qed.




Definition rank (s : JobStatus) : nat :=
  match s with Spawned => 0 | Reporting => 1 | Finished => 2 end.

Lemma jobs_taskDone (b : Batch) : jobs (taskDone b) = jobs b.
Proof. unfold taskDone. by destruct (_ <=? _). Qed.

Lemma batch_step_rank (b : Batch) (e : BatchEvent) (j : nat) (u : string) (st : JobStatus) :
  jobs b !! j = Some (u, st) ->
  exists st', jobs (batch_step b e) !! j = Some (u, st') /\ (rank st <= rank st')%nat.
Proof.
  intros H.
  assert (K : forall i st0, (rank st <= rank st0 \/ i <> j)%nat ->
     exists st', alter (fun x : string * JobStatus => (fst x, st0)) i (jobs b) !! j = Some (u, st')
                 /\ (rank st <= rank st')%nat).
  { intros i st0 C. rewrite list_lookup_alter. destruct (decide (i = j)) as [<-|N].
    - rewrite H. simpl. destruct C; [eauto|done].
    - eauto. }
  destruct e as [i [x|r] now|i ok]; simpl.
  - destruct (jobs b !! i) as [[v []]|] eqn:G; eauto.
    autorewrite with batch. apply K.
    destruct (decide (i = j)) as [<-|N]; [|by right].
    left. rewrite H in G. injection G as _ ->. simpl. lia.
  - destruct (jobs b !! i) as [[v []]|] eqn:G; eauto.
    autorewrite with batch. apply K.
    destruct (decide (i = j)) as [<-|N]; [|by right].
    left. rewrite H in G. injection G as _ ->. simpl. lia.
  - destruct (jobs b !! i) as [[v []]|] eqn:G; eauto.
    rewrite jobs_taskDone. autorewrite with batch. apply K.
    destruct (decide (i = j)) as [<-|N]; [|by right].
    left. rewrite H in G. injection G as _ ->. simpl. lia.
Qed.

Lemma batch_run_rank (es : list BatchEvent) (b : Batch) (j : nat) (u : string) (st : JobStatus) :
  jobs b !! j = Some (u, st) ->
  exists st', jobs (batch_run es b) !! j = Some (u, st') /\ (rank st <= rank st')%nat.
Proof.
  revert b st. induction es as [|e es IH]; simpl; intros b st H; [eauto|].
  destruct (batch_step_rank b e j u st H) as (st1 & H1 & L1).
  destruct (IH _ _ H1) as (st2 & H2 & L2). exists st2. split; [done|lia].
Qed.

(** Every job settles and its request finishes afterwards: the events of
    a batch that runs to its end, in any interleaving. *)
Definition runs_to_end (n : nat) (es : list BatchEvent) : Prop :=
  forall i, (i < n)%nat ->
    exists es1 outcome now es2 loaded es3,
      es = es1 ++ Task_settled i outcome now :: es2 ++ Xhr_finished i loaded :: es3.

Lemma batch_run_app (es fs : list BatchEvent) (b : Batch) :
  batch_run (es ++ fs) b = batch_run fs (batch_run es b).
Proof. unfold batch_run. apply fold_left_app. Qed.

Lemma jobs_length_run (es : list BatchEvent) (b : Batch) :
  length (jobs (batch_run es b)) = length (jobs b).
Proof.
  revert b. induction es as [|e es IH]; intros b; simpl; [done|]. rewrite IH.
  destruct e as [i [x|r] now|i ok]; simpl;
    destruct (jobs b !! i) as [[u []]|]; try done;
    rewrite ?jobs_taskDone; autorewrite with batch; by rewrite length_alter.
Qed.

Lemma jobs_length (urls : list string) (es : list BatchEvent) :
  length (jobs (batch_run es (crawl_urls urls))) = length urls.
Proof.
  rewrite jobs_length_run, crawl_urls_spawned. simpl. by rewrite length_map.
Qed.

Lemma runs_to_end_finishes (urls : list string) (es : list BatchEvent) :
  runs_to_end (length urls) es -> all_finished (batch_run es (crawl_urls urls)).
Proof.
  intros C. unfold all_finished. apply Forall_lookup. intros i [u st] H.
  assert (Li : (i < length urls)%nat).
  { apply lookup_lt_Some in H. by rewrite jobs_length in H. }
  destruct (C i Li) as (es1 & o & now & es2 & ok & es3 & ->).
  assert (H0 : exists v, jobs (crawl_urls urls) !! i = Some (v, Spawned)).
  { rewrite crawl_urls_spawned. simpl. rewrite list_lookup_fmap.
    destruct (lookup_lt_is_Some_2 urls i Li) as [v ->]. by eexists. }
  destruct H0 as [v H0].
  set (b1 := batch_run es1 (crawl_urls urls)).
  set (b2 := batch_step b1 (Task_settled i o now)).
  set (b3 := batch_run es2 b2).
  set (b4 := batch_step b3 (Xhr_finished i ok)).
  assert (Split : batch_run (es1 ++ Task_settled i o now :: es2 ++ Xhr_finished i ok :: es3)
                    (crawl_urls urls) = batch_run es3 b4).
  { rewrite batch_run_app. change (batch_run (?e :: ?r) ?x) with (batch_run r (batch_step x e)).
    rewrite batch_run_app. reflexivity. }
  rewrite Split in H. clear Split.
  destruct (batch_run_rank es1 _ i v Spawned H0) as (s1 & H1 & _). fold b1 in H1.
  assert (exists s2, jobs b2 !! i = Some (v, s2) /\ (1 <= rank s2)%nat) as (s2 & H2 & L2).
  { destruct (batch_step_rank b1 (Task_settled i o now) i v s1 H1) as (s2 & H2 & L2).
    exists s2. split; [done|]. revert H2. simpl. rewrite H1. destruct s1.
    - destruct o; autorewrite with batch; rewrite list_lookup_alter_eq, H1;
        simpl; intros [= <-]; simpl; lia.
    - simpl in L2. lia.
    - simpl in L2. lia. }
  destruct (batch_run_rank es2 _ i v s2 H2) as (s3 & H3 & L3). fold b3 in H3.
  assert (jobs b4 !! i = Some (v, Finished)) as H4.
  { unfold b4. simpl. rewrite H3. destruct s3; simpl in *; [lia| |done].
    rewrite jobs_taskDone. autorewrite with batch. by rewrite list_lookup_alter_eq, H3. }
  destruct (batch_run_rank es3 _ i v Finished H4) as (s5 & H5 & L5).
  rewrite H5 in H. injection H as _ <-. simpl in *. destruct s5; simpl in *; try lia. done.
Qed.

(** The part of C2 that holds.  For every list of urls and whatever
    happens to the batch: onDone is called at most once; it has been
    called exactly when [urls] is not empty and taskDone has run for every
    job; when it was called, the records sent before the call are as many
    as the urls; no job ever has two records; and when every task settles
    and every request finishes, in any interleaving, onDone is called,
    also when every task was rejected. *)
Lemma crawl_urls_calls_onDone_once (urls : list string) (es : list BatchEvent) :
  let b := batch_run es (crawl_urls urls) in
  (onDone_calls b <= 1)%nat /\
  (onDone_calls b = 1%nat <-> all_finished b /\ urls <> []) /\
  (onDone_calls b = 1%nat -> sent_before_onDone (did b) = length urls) /\
  (forall i, (length (records_of i (did b)) <= 1)%nat) /\
  (urls <> [] -> runs_to_end (length urls) es -> onDone_calls b = 1%nat).
Proof.
  intros b.
  pose proof (batch_inv_run es _ (batch_inv_start urls)) as I. fold b in I.
  assert (Len : length (jobs b) = length urls) by apply jobs_length.
  assert (NE : jobs b <> [] <-> urls <> []).
  { split; intros N E; apply N.
    - subst urls. simpl in Len. by apply nil_length_inv.
    - rewrite E in Len. simpl in Len. symmetry in Len. by apply nil_length_inv in Len. }
  assert (Iff : onDone_calls b = 1%nat <-> all_finished b /\ urls <> []).
  { rewrite (bi_calls b I). rewrite <- unfinished_zero, <- NE.
    case_bool_decide as E; [done|]. split; [done|]. intros F. by apply E in F. }
  split; [|split; [done|split; [|split]]].
  - rewrite (bi_calls b I). destruct (bool_decide _); lia.
  - intros C. rewrite (bi_all b I C). done.
  - intros i. rewrite (bi_records b I i). destruct (jobs b !! i) as [[? []]|]; lia.
  - intros N C. apply Iff. split; [|done]. by apply runs_to_end_finishes.
Qed.

(** C2 at the failing input.  With no urls the loop spawns nothing and
    taskDone is never called: whatever happens afterwards, onDone is not
    called. *)
Theorem crawl_urls_without_urls_never_calls_onDone :
  forall (es : list BatchEvent),
    let b := batch_run es (crawl_urls []) in
    onDone_calls b = 0%nat /\ b = crawl_urls [] /\ did b = [] /\ running b = 0.
Proof.
  intros es b.
  assert (E : b = crawl_urls []).
  { unfold b. induction es as [|e es IH]; simpl; [done|].
    destruct e as [i o now|i ok]; simpl; exact IH. }
  rewrite E. by vm_compute.
Qed.

End BatchFacts.

(** ** A job that fails, from crawl_url to crawl_urls *)

Section FailedJob.

Import Crawler.

(** A page of which the browser reports no URI once it has loaded. *)
Definition dead_page : Collaborators :=
  {| now_at_start := 100;
     new_RequestNotifier := None;
     expect := None;
     loadURI := None;
     seen := [];
     currentURI_spec := inl (JsError "dead object");
     now_at_end := 180;
     shutdown := None |}.

Definition a_tab : TabObject := {| tab_name := 1%nat; outerWindowID := 7 |}.













(** A page whose canvas cannot be made (the screenshot fails and is
    recorded) and whose serializer cannot be made (the job throws). *)
Definition broken_page : LoadCrawler.Collaborators :=
  {| LoadCrawler.now_at_start := 100;
     LoadCrawler.new_RequestNotifier := None;
     LoadCrawler.loadURI := None;
     LoadCrawler.waitForLoad := None;
     LoadCrawler.seen := [];
     LoadCrawler.now_at_end := 180;
     LoadCrawler.currentURI_spec := inr "http://a.example/"%string;
     LoadCrawler.contentDocument :=
       inr {| ChildScript.documentElement :=
                inr (Some {| ChildScript.scrollWidth := 800; ChildScript.scrollHeight := 600 |});
              ChildScript.createElementNS := inl (JsError "no canvas") |};
     LoadCrawler.reportException := fun _ => None;
     LoadCrawler.new_XMLSerializer := inl (JsError "no serializer");
     LoadCrawler.shutdown := None |}.

(** One job of each crawler: the first times out and then finds its page
    dead, the second loads a broken page; both release their tab once. *)
Lemma crawl_url_releases_tab_once_witness :
  let r1 := crawl_url dead_page "http://a.example/" (Some (inr a_tab)) (Some (inr timeout_result)) in
  let r2 := LoadCrawler.crawl_url broken_page "http://a.example/" (Some (inr a_tab))
              (Some (inr (0, ["HTTP/x.x 200 OK"%string]))) in
  ((is_Some (Some (inr timeout_result : JsExn + PageInfo)) -> exited (fst r1) = true) /\
   (exited (fst r1) = true ->
      releases (tab_name a_tab) (snd r1) = 1%nat /\ all_releases (snd r1) = 1%nat) /\
   (exited (fst r1) = false -> all_releases (snd r1) = 0%nat)) /\
  ((is_Some (Some (inr (0, ["HTTP/x.x 200 OK"%string]) : JsExn + Z * list string)) ->
      exited (fst r2) = true) /\
   (exited (fst r2) = true ->
      releases (tab_name a_tab) (snd r2) = 1%nat /\ all_releases (snd r2) = 1%nat) /\
   (exited (fst r2) = false -> all_releases (snd r2) = 0%nat)).
Proof.
  exact (crawl_url_releases_tab_once dead_page broken_page "http://a.example/" a_tab
           (Some (inr timeout_result)) (Some (inr (0, ["HTTP/x.x 200 OK"%string])))
           eq_refl eq_refl).
Defined.

(** A page that loads, in a window whose request notifier cannot be shut
    down. *)
Definition stuck_notifier : Collaborators :=
  {| now_at_start := 100;
     new_RequestNotifier := None;
     expect := None;
     loadURI := None;
     seen := [];
     currentURI_spec := inr "http://a.example/"%string;
     now_at_end := 180;
     shutdown := Some (JsError "notifier is gone") |}.

Definition stuck_load_notifier : LoadCrawler.Collaborators :=
  {| LoadCrawler.now_at_start := 100;
     LoadCrawler.new_RequestNotifier := None;
     LoadCrawler.loadURI := None;
     LoadCrawler.waitForLoad := None;
     LoadCrawler.seen := [];
     LoadCrawler.now_at_end := 180;
     LoadCrawler.currentURI_spec := inr "http://a.example/"%string;
     LoadCrawler.contentDocument :=
       inr {| ChildScript.documentElement := inr None;
              ChildScript.createElementNS := inl (JsError "no canvas") |};
     LoadCrawler.reportException := fun _ => None;
     LoadCrawler.new_XMLSerializer := inl (JsError "no serializer");
     LoadCrawler.shutdown := Some (JsError "notifier is gone") |}.

(** One job of each crawler whose page loads and whose try block
    completes; shutdown() throws and the tab is not released. *)
Lemma crawl_url_skips_releaseTab_when_shutdown_throws_witness :
  let r1 := crawl_url stuck_notifier "http://a.example/" (Some (inr a_tab))
              (Some (inr empty_object)) in
  let r2 := LoadCrawler.crawl_url stuck_load_notifier "http://a.example/" (Some (inr a_tab))
              (Some (inr (0, ["HTTP/x.x 200 OK"%string]))) in
  ((exists abandoned, fst r1 = Threw (JsError "notifier is gone") abandoned) /\
   releases (tab_name a_tab) (snd r1) = 0%nat /\ all_releases (snd r1) = 0%nat /\
   Called_shutdown ∈ snd r1) /\
  ((exists abandoned, fst r2 = Threw (JsError "notifier is gone") abandoned) /\
   releases (tab_name a_tab) (snd r2) = 0%nat /\ all_releases (snd r2) = 0%nat /\
   Called_shutdown ∈ snd r2).
Proof.
  exact (crawl_url_skips_releaseTab_when_shutdown_throws stuck_notifier stuck_load_notifier
           "http://a.example/" a_tab (inr empty_object) (inr (0, ["HTTP/x.x 200 OK"%string]))
           (JsError "notifier is gone") (JsError "notifier is gone")
           eq_refl eq_refl eq_refl eq_refl).
Defined.

(** What the job of the sample does, call by call: the record is ready
    when shutdown() throws, and it is dropped. *)
Example stuck_notifier_run :
  crawl_url stuck_notifier "http://a.example/" (Some (inr a_tab)) (Some (inr empty_object)) =
  (Threw (JsError "notifier is gone")
     (Some {| url := "http://a.example/"; requests := Some [];
              startTime := Some 100; endTime := Some 180;
              finalUrl := Some "http://a.example/"%string; channelStatus := None;
              headers := None; screenshot := None; source := None; error := None |}),
   [Called_getTab; Made_RequestNotifier 7; Called_expect 7;
    Called_loadURI "http://a.example/"; Called_shutdown]).
Proof. reflexivity. Qed.

End FailedJob.

(** ** Further properties of the tab allocators and of crawl_urls *)

Section AllocatorWitnesses.

Import Crawler.TabAllocator.

(** One tab at most and two jobs, the second served when the first
    releases its tab. *)
Lemma Crawler_tabs_in_use_bounded_witness :
  let a := run [GetTab 1%nat; GetTab 2%nat; TabReady 1%nat; ReleaseTab 1%nat; TabReady 2%nat]
               (new 0%nat [] 1) in
  Z.of_nat (length (tabs_in_use (trace a))) <= Z.max 1 1 /\
  (forall r, _tab a = None -> 1 <= Z.of_nat (length (tabs_in_use (trace a))) ->
     getTab r a = log (Queued r) (set_resolvers (_resolvers a ++ [r]) a)).
Proof.
  exact (Crawler_tabs_in_use_bounded 0%nat [] 1
           [GetTab 1%nat; GetTab 2%nat; TabReady 1%nat; ReleaseTab 1%nat; TabReady 2%nat]
           eq_refl).
Defined.

(** A browser with two tabs, one job that takes and releases its tab. *)
Lemma Crawler_keeps_a_tab_open_witness :
  let a := run [GetTab 1%nat; TabReady 2%nat; ReleaseTab 2%nat] (new 0%nat [1%nat] 2) in
  1 <= _tabs a /\ browser a <> [] /\
  (forall tab, _tabs a = 1 ->
     browser (releaseTab tab a) = browser a ++ [next_tab a] /\
     _tab (releaseTab tab a) = Some (next_tab a) /\
     reactions (releaseTab tab a) = reactions a ++ [(next_tab a, Release_again tab)]).
Proof.
  apply (Crawler_keeps_a_tab_open 0%nat [1%nat] 2
           [GetTab 1%nat; TabReady 2%nat; ReleaseTab 2%nat]).
  apply NoDup_cons. split; [|apply NoDup_singleton].
  intros H. apply list_elem_of_singleton in H. discriminate.
Defined.

(** Three requests made before the first release. *)
Lemma requests_first_served_in_order_witness :
  first_come_first_served
    (trace (run [GetTab 1%nat; GetTab 2%nat; GetTab 3%nat; TabReady 1%nat;
                 ReleaseTab 1%nat; TabReady 2%nat; ReleaseTab 2%nat]
                (new 0%nat [] 1))) = true.
Proof.
  exact (requests_first_served_in_order 0%nat [] 1
           [GetTab 1%nat; GetTab 2%nat; GetTab 3%nat; TabReady 1%nat;
            ReleaseTab 1%nat; TabReady 2%nat; ReleaseTab 2%nat] eq_refl).
Defined.

End AllocatorWitnesses.

Section BatchReports.

Import Crawler.

(** X5. crawl_urls, whatever happens to the batch and in whatever order:
    onDone is never called twice; it is never called before taskDone has
    run for every job, and by then exactly one record per url has been
    sent; no job ever has more than one record. *)
Theorem onDone_never_early_never_twice (urls : list string) (es : list BatchEvent) :
  let b := batch_run es (crawl_urls urls) in
  (onDone_calls b <= 1)%nat /\
  (onDone_calls b = 1%nat ->
     all_finished b /\ sent_before_onDone (did b) = length urls) /\
  (forall i, (length (records_of i (did b)) <= 1)%nat).
Proof.
  intros b.
  pose proof (batch_inv_run es _ (batch_inv_start urls)) as I. fold b in I.
  assert (Len : length (jobs b) = length urls) by apply jobs_length.
  split; [|split].
  - rewrite (bi_calls b I). destruct (bool_decide _); lia.
  - intros C. split; [|by rewrite (bi_all b I C)].
    rewrite (bi_calls b I) in C. apply unfinished_zero.
    case_bool_decide as E; [|done]. by destruct E.
  - intros i. rewrite (bi_records b I i). destruct (jobs b !! i) as [[? []]|]; lia.
Qed.

(** X6. crawl_urls with at least one url: once every task has settled
    (fulfilled or rejected) and every XMLHttpRequest has finished, in any
    interleaving, onDone has been called exactly once and every url has
    exactly one record. *)
Theorem crawl_urls_reports_every_url (urls : list string) (es : list BatchEvent) :
  urls <> [] -> runs_to_end (length urls) es ->
  let b := batch_run es (crawl_urls urls) in
  onDone_calls b = 1%nat /\
  sent_before_onDone (did b) = length urls /\
  (forall i, (i < length urls)%nat -> length (records_of i (did b)) = 1%nat).
Proof.
  intros N R b.
  pose proof (batch_inv_run es _ (batch_inv_start urls)) as I. fold b in I.
  assert (Len : length (jobs b) = length urls) by apply jobs_length.
  assert (F : all_finished b) by (by apply runs_to_end_finishes).
  assert (C : onDone_calls b = 1%nat).
  { rewrite (bi_calls b I). apply unfinished_zero in F.
    rewrite bool_decide_eq_true_2; [done|]. split; [done|].
    intros E. rewrite E in Len. simpl in Len. symmetry in Len.
    by apply nil_length_inv in Len. }
  split; [done|]. split; [by rewrite (bi_all b I C)|].
  intros i Li. rewrite (bi_records b I i).
  destruct (lookup_lt_is_Some_2 (jobs b) i) as [[v s] H]; [lia|].
  rewrite H. unfold all_finished in F.
  assert (s = Finished) as ->; [|done].
  exact (proj1 (Forall_lookup _ _) F i (v, s) H).
Qed.

(** One url whose job settles and whose request then finishes. *)
Lemma crawl_urls_reports_every_url_witness :
  let b := batch_run [Task_settled 0 (inl (JsError "no tab")) 7; Xhr_finished 0 true]
                     (crawl_urls ["http://example.com/"%string]) in
  onDone_calls b = 1%nat /\
  sent_before_onDone (did b) = 1%nat /\
  (forall i, (i < 1)%nat -> length (records_of i (did b)) = 1%nat).
Proof.
  apply (crawl_urls_reports_every_url ["http://example.com/"%string]
           [Task_settled 0 (inl (JsError "no tab")) 7; Xhr_finished 0 true]).
  - discriminate.
  - intros i Li. simpl in Li. assert (i = 0%nat) as -> by lia.
    exists [], (inl (JsError "no tab")), 7, [], true, []. reflexivity.
Defined.

End BatchReports.

(** ** The record a job returns *)

Section JobRecords.

(** X7. crawl_url of the crawler built on page-info messages returns
    (rather than throws) exactly when getTab gave a tab, the constructor
    of the notifier, expect, loadURI, currentURI.spec and shutdown all
    returned and the awaited promise was fulfilled, be it with the
    timeout result; the record then has the url, the requests seen, both
    clock readings, the final url and the properties of the page info;
    and the job called, in this order, getTab, the notifier, expect,
    loadURI, shutdown and releaseTab: the registration is made before the
    load is started. *)
Theorem Crawler_crawl_url_returns (c : Crawler.Collaborators) (u : string)
    (tab : option (JsExn + TabObject)) (pageInfo : option (JsExn + PageInfo))
    (r : JobRecord) (es : list JobEffect) :
  Crawler.crawl_url c u tab pageInfo = (Returned r, es) <->
  exists (t : TabObject) (p : PageInfo) (spec : string),
    tab = Some (inr t) /\ pageInfo = Some (inr p) /\
    Crawler.new_RequestNotifier c = None /\ Crawler.expect c = None /\
    Crawler.loadURI c = None /\ Crawler.currentURI_spec c = inr spec /\
    Crawler.shutdown c = None /\
    r = {| url := u; requests := Some (omap id (Crawler.seen c));
           startTime := Some (Crawler.now_at_start c);
           endTime := Some (Crawler.now_at_end c);
           finalUrl := Some spec; channelStatus := None;
           headers := pi_headers p; screenshot := pi_screenshot p;
           source := pi_source p; error := pi_error p |} /\
    es = [Called_getTab; Made_RequestNotifier (outerWindowID t);
          Called_expect (outerWindowID t); Called_loadURI u;
          Called_shutdown; Called_releaseTab (tab_name t)].
Proof.
  unfold Crawler.crawl_url, Crawler.start, Crawler.resume_with_tab,
    Crawler.resume_with_pageInfo, leave, finally_block.
  split.
  - destruct tab as [[e0|t]|]; simpl; [discriminate| |discriminate].
    destruct (Crawler.new_RequestNotifier c) as [e1|]; simpl;
      [destruct (Crawler.shutdown c); discriminate|].
    destruct (Crawler.expect c) as [e2|]; simpl;
      [destruct (Crawler.shutdown c); discriminate|].
    destruct (Crawler.loadURI c) as [e3|]; simpl;
      [destruct (Crawler.shutdown c); discriminate|].
    destruct pageInfo as [[e5|p]|]; simpl;
      [destruct (Crawler.shutdown c); discriminate| |discriminate].
    destruct (Crawler.currentURI_spec c) as [e6|spec]; simpl;
      [destruct (Crawler.shutdown c); discriminate|].
    destruct (Crawler.shutdown c) as [e4|]; simpl; [discriminate|].
    intros [= <- <-]. exists t, p, spec.
    unfold Object_assign, overwrite. simpl.
    repeat split; try done.
    f_equal; by destruct p as [[] [] [] []].
  - intros (t & p & spec & -> & -> & -> & -> & -> & -> & -> & -> & ->). simpl.
    unfold Object_assign, overwrite. simpl. f_equal.
    f_equal; by destruct p as [[] [] [] []].
Qed.

(** X8. crawl_url of the crawler built on LoadListener, when it returns:
    the record has the url, the requests seen, the clock readings, the
    final url and the channel status and headers the load was resolved
    with, and the documentElement of the document could be read.  A
    document without root element gives neither screenshot nor source.
    Otherwise the source is the serialized root, and a failed screenshot
    does not fail the job: the exception goes to reportException, which
    returned, and the record carries the error text, "Capturing
    screenshot failed: " followed by the exception as a string, instead
    of the screenshot, never both. *)
Theorem LoadCrawler_crawl_url_returns (c : LoadCrawler.Collaborators) (u : string)
    (tab : option (JsExn + TabObject)) (load : option (JsExn + Z * list string))
    (r : JobRecord) (es : list JobEffect) :
  LoadCrawler.crawl_url c u tab load = (Returned r, es) ->
  exists (t : TabObject) (status : Z) (hs : list string) (spec : string)
         (document : ChildScript.Document),
    tab = Some (inr t) /\ load = Some (inr (status, hs)) /\
    LoadCrawler.currentURI_spec c = inr spec /\
    LoadCrawler.contentDocument c = inr document /\
    url r = u /\ requests r = Some (omap id (LoadCrawler.seen c)) /\
    startTime r = Some (LoadCrawler.now_at_start c) /\
    endTime r = Some (LoadCrawler.now_at_end c) /\
    finalUrl r = Some spec /\ channelStatus r = Some status /\ headers r = Some hs /\
    match ChildScript.documentElement document with
    | inl _ => False
    | inr None => screenshot r = None /\ source r = None /\ error r = None
    | inr (Some root) =>
        (exists serializer text,
           LoadCrawler.new_XMLSerializer c = inr serializer /\
           ChildScript.serializeToString serializer root = inr text /\
           source r = Some text) /\
        match LoadCrawler.capture document root with
        | inr data => screenshot r = Some data /\ error r = None
        | inl e =>
            LoadCrawler.reportException c e = None /\
            screenshot r = None /\
            error r = Some ("Capturing screenshot failed: " +:+ String_of e) /\
            Called_reportException e ∈ es
        end
    end.
Proof.
  unfold LoadCrawler.crawl_url, LoadCrawler.start, LoadCrawler.resume_with_tab,
    LoadCrawler.resume_with_load, leave, finally_block.
  destruct tab as [[e0|t]|]; simpl; [discriminate| |discriminate].
  destruct (LoadCrawler.new_RequestNotifier c) as [e1|]; simpl;
    [destruct (LoadCrawler.shutdown c); discriminate|].
  destruct (LoadCrawler.loadURI c) as [e2|]; simpl;
    [destruct (LoadCrawler.shutdown c); discriminate|].
  destruct (LoadCrawler.waitForLoad c) as [e3|]; simpl;
    [destruct (LoadCrawler.shutdown c); discriminate|].
  destruct load as [[e5|[status hs]]|]; simpl;
    [destruct (LoadCrawler.shutdown c); discriminate| |discriminate].
  destruct (LoadCrawler.currentURI_spec c) as [e6|spec]; simpl;
    [destruct (LoadCrawler.shutdown c); discriminate|].
  destruct (LoadCrawler.contentDocument c) as [e7|document]; simpl;
    [destruct (LoadCrawler.shutdown c); discriminate|].
  destruct (ChildScript.documentElement document) as [e11|[root|]] eqn:Root; simpl.
  - destruct (LoadCrawler.shutdown c); discriminate.
  - destruct (LoadCrawler.capture document root) as [e8|data] eqn:Cap; simpl.
    + destruct (LoadCrawler.reportException c e8) as [e12|] eqn:Rep; simpl;
        [destruct (LoadCrawler.shutdown c); discriminate|].
      destruct (LoadCrawler.new_XMLSerializer c) as [e9|serializer]; simpl;
        [destruct (LoadCrawler.shutdown c); discriminate|].
      destruct (ChildScript.serializeToString serializer root) as [e10|text] eqn:Ser; simpl;
        [destruct (LoadCrawler.shutdown c); discriminate|].
      destruct (LoadCrawler.shutdown c) as [e4|]; simpl; [discriminate|].
      intros [= <- <-]. exists t, status, hs, spec, document. rewrite Root, Cap. simpl.
      repeat split; try done; try (by exists serializer, text).
      set_solver.
    + destruct (LoadCrawler.new_XMLSerializer c) as [e9|serializer]; simpl;
        [destruct (LoadCrawler.shutdown c); discriminate|].
      destruct (ChildScript.serializeToString serializer root) as [e10|text] eqn:Ser; simpl;
        [destruct (LoadCrawler.shutdown c); discriminate|].
      destruct (LoadCrawler.shutdown c) as [e4|]; simpl; [discriminate|].
      intros [= <- <-]. exists t, status, hs, spec, document. rewrite Root, Cap. simpl.
      repeat split; try done; try (by exists serializer, text).
  - destruct (LoadCrawler.shutdown c) as [e4|]; simpl; [discriminate|].
    intros [= <- <-]. exists t, status, hs, spec, document. rewrite Root. simpl.
    repeat split; done.
Qed.

(** A page that loads and whose canvas cannot be made, by an exception
    without message: the job returns with the error text and the
    source. *)
Definition page_without_canvas : LoadCrawler.Collaborators :=
  {| LoadCrawler.now_at_start := 100;
     LoadCrawler.new_RequestNotifier := None;
     LoadCrawler.loadURI := None;
     LoadCrawler.waitForLoad := None;
     LoadCrawler.seen := [];
     LoadCrawler.now_at_end := 180;
     LoadCrawler.currentURI_spec := inr "http://a.example/"%string;
     LoadCrawler.contentDocument :=
       inr {| ChildScript.documentElement :=
                inr (Some {| ChildScript.scrollWidth := 800; ChildScript.scrollHeight := 600 |});
              ChildScript.createElementNS := inl (JsError EmptyString) |};
     LoadCrawler.reportException := fun _ => None;
     LoadCrawler.new_XMLSerializer :=
       inr {| ChildScript.serializeToString := fun _ => inr "<html/>"%string |};
     LoadCrawler.shutdown := None |}.

Lemma LoadCrawler_crawl_url_returns_witness :
  let c := page_without_canvas in
  let r := {| url := "http://a.example/"; requests := Some [];
              startTime := Some 100; endTime := Some 180;
              finalUrl := Some "http://a.example/"%string;
              channelStatus := Some 0; headers := Some ["HTTP/x.x 200 OK"%string];
              screenshot := None; source := Some "<html/>"%string;
              error := Some "Capturing screenshot failed: Error"%string |} in
  let es := [Called_getTab; Made_RequestNotifier 7; Called_loadURI "http://a.example/";
             Called_waitForLoad 1%nat; Called_reportException (JsError EmptyString);
             Called_shutdown; Called_releaseTab 1%nat] in
  exists (t : TabObject) (status : Z) (hs : list string) (spec : string)
         (document : ChildScript.Document),
    Some (inr {| tab_name := 1%nat; outerWindowID := 7 |}) = Some (inr t : JsExn + TabObject) /\
    Some (inr (0, ["HTTP/x.x 200 OK"%string])) =
      Some (inr (status, hs) : JsExn + Z * list string) /\
    LoadCrawler.currentURI_spec c = inr spec /\
    LoadCrawler.contentDocument c = inr document /\
    url r = "http://a.example/"%string /\
    requests r = Some (omap id (LoadCrawler.seen c)) /\
    startTime r = Some (LoadCrawler.now_at_start c) /\
    endTime r = Some (LoadCrawler.now_at_end c) /\
    finalUrl r = Some spec /\ channelStatus r = Some status /\ headers r = Some hs /\
    match ChildScript.documentElement document with
    | inl _ => False
    | inr None => screenshot r = None /\ source r = None /\ error r = None
    | inr (Some root) =>
        (exists serializer text,
           LoadCrawler.new_XMLSerializer c = inr serializer /\
           ChildScript.serializeToString serializer root = inr text /\
           source r = Some text) /\
        match LoadCrawler.capture document root with
        | inr data => screenshot r = Some data /\ error r = None
        | inl e =>
            LoadCrawler.reportException c e = None /\
            screenshot r = None /\
            error r = Some ("Capturing screenshot failed: " +:+ String_of e) /\
            Called_reportException e ∈ es
        end
    end.
Proof.
  exact (LoadCrawler_crawl_url_returns page_without_canvas "http://a.example/"
           (Some (inr {| tab_name := 1%nat; outerWindowID := 7 |}))
           (Some (inr (0, ["HTTP/x.x 200 OK"%string]))) _ _ eq_refl).
Defined.

End JobRecords.

(** ** The body of an action *)

Section ActionBody.

Import Action.

(** X9. [_body] of a Defer or Delay action calls the try function, then
    the catch function exactly when the try function threw, then the
    finally function, which is therefore called exactly once in every
    case, also when the catch function throws.  The state becomes Done
    when the try function returned and Exception when it threw.  The
    exception of the try function never leaves [_body]: what leaves is
    the exception of the finally function, or else that of the catch
    function. *)
Theorem body_calls_finally_exactly_once (a : Asynchronous_Action) :
  class_of a <> Asynchronous_Action_proto ->
  let o := _body a in
  let threw := snd (call_if_set (try_f a)) in
  effects o =
    fst (call_if_set (try_f a))
    ++ (match threw with Some _ => fst (call_if_set (catch_f a)) | None => [] end)
    ++ fst (call_if_set (finally_f a)) /\
  _state (obj o) = Some (match threw with Some _ => Exception | None => Done end) /\
  thrown o =
    match snd (call_if_set (finally_f a)) with
    | Some e => Some e
    | None => match threw with Some _ => snd (call_if_set (catch_f a)) | None => None end
    end.
Proof.
  intros K. unfold _body, end_well, end_badly.
  destruct (class_of a); [done| |];
    destruct (try_f a) as [f|]; simpl;
    try destruct (cb_throws f) as [e|]; simpl;
    destruct (catch_f a) as [k|], (finally_f a) as [g|]; simpl;
    try destruct (cb_throws g); done.
Qed.

(** A Defer action whose try, catch and finally functions all throw. *)
Lemma body_calls_finally_exactly_once_witness :
  let f := {| cb_name := "try"; cb_throws := Some (JsError "first") |} in
  let k := {| cb_name := "catch"; cb_throws := Some (JsError "second") |} in
  let g := {| cb_name := "finally"; cb_throws := Some (JsError "third") |} in
  let o := _body (set_handlers (Some g) (Some k) (new_Defer (Some f))) in
  effects o = [Invoke f; Invoke k; Invoke g] /\
  _state (obj o) = Some Exception /\
  thrown o = Some (JsError "third").
Proof.
  intros f k g.
  apply (body_calls_finally_exactly_once (set_handlers (Some g) (Some k) (new_Defer (Some f)))).
  discriminate.
Defined.

End ActionBody.

(** ** Timers and promises of PageInfoListener *)

Section ListenerTimers.

Import PageInfoListener.

(** Every pending promise has its timer armed. *)
Definition covered (l : t) : Prop :=
  forall p, promises l !! p = Some Pending -> is_Some (timers l !! p).

Lemma covered_onDone (n : nat) (tm : Timer) (v : PageInfo) (l : t) :
  wf l -> timers l !! n = Some tm -> covered l -> covered (onDone (tm_callback tm) v l).
Proof.
  intros W H C p. simpl.
  destruct (wf_timers l W _ _ H) as (Tn & Pn & _ & _ & P & _).
  rewrite Tn, Pn. destruct (decide (p = n)) as [->|N].
  - by rewrite (resolve_pending n v _ P).
  - rewrite resolve_other by done. rewrite lookup_delete_ne by done. apply C.
Qed.

Lemma covered_step (l : t) (e : Event) : wf l -> covered l -> covered (step l e).
Proof.
  intros W C. destruct e as [k|k v|n]; simpl.
  - intros p. simpl. rewrite (wf_next l W).
    destruct (decide (p = next_timer l)) as [->|N].
    + by rewrite !lookup_insert_eq.
    + rewrite !lookup_insert_ne by done. apply C.
  - unfold setPageInfo. destruct (_pageInfoSetters l !! k) as [c|] eqn:E; [|done].
    destruct (wf_setters l W _ _ E) as [_ Ht].
    exact (covered_onDone _ _ v l W Ht C).
  - destruct (timers l !! n) as [tm|] eqn:E.
    + rewrite (timer_fires_onDone n tm l W E). by eapply covered_onDone.
    + unfold timer_fires. by rewrite E.
Qed.

Lemma covered_run (es : list Event) (l : t) : wf l -> covered l -> covered (run es l).
Proof.
  revert l. induction es as [|e es IH]; simpl; intros l W C; [done|].
  apply IH; [by apply wf_step|by apply covered_step].
Qed.

Lemma timeout_run (es : list Event) (l : t) : _timeout (run es l) = _timeout l.
Proof.
  revert l. induction es as [|e es IH]; simpl; intros l; [done|]. rewrite IH.
  destruct e as [?|k ?|n]; simpl; [done| |].
  - unfold setPageInfo. by destruct (_ !! k).
  - unfold timer_fires. by destruct (_ !! n).
Qed.

(** X10. PageInfoListener, for every listener that can arise: a timer is
    armed exactly as long as its promise is pending.  So no promise made
    by expect can wait for ever: while it is pending its timer, set to
    the configured timeout, is armed, and when that timer fires the
    promise is fulfilled with {error: "timeout"}; and no timer outlives
    its promise. *)
Theorem pending_promise_has_its_timer (timeout : Z) (es : list Event) (p : nat) :
  let l := run es (new timeout) in
  (promises l !! p = Some Pending <-> is_Some (timers l !! p)) /\
  (forall tm, timers l !! p = Some tm ->
     tm_delay tm = timeout /\
     promises (timer_fires p l) !! p = Some (Fulfilled timeout_result) /\
     timers (timer_fires p l) !! p = None).
Proof.
  intros l.
  assert (W : wf l) by apply wf_run, wf_new.
  assert (C : covered l).
  { apply covered_run; [apply wf_new|]. intros q. simpl. by rewrite lookup_empty. }
  split.
  - split; [apply C|]. intros [tm H].
    by destruct (wf_timers l W _ _ H) as (_ & _ & _ & _ & P & _).
  - intros tm H. destruct (wf_timers l W _ _ H) as (Tn & Pn & _ & D & P & _).
    split; [|split].
    + rewrite D. unfold l. by rewrite timeout_run.
    + rewrite (timer_fires_onDone p tm l W H). simpl. rewrite Pn.
      by apply resolve_pending.
    + rewrite (timer_fires_onDone p tm l W H). simpl. rewrite Tn.
      apply lookup_delete_eq.
Qed.

(** X11. A second expect for a window id whose first registration is
    still pending replaces the setter.  A signal for the id then fulfils
    the second promise only, the first stays pending until its own timer
    fires.  And when the timer of the first fires, it removes the setter
    of the second: the id is no longer registered, a later signal for it
    is ignored, and the second promise stays pending until it times out
    as well. *)
Theorem second_expect_takes_over :
  forall (timeout : Z) (es : list Event) (k : Z) (v : PageInfo),
    let l := run es (new timeout) in
    let first := fst (expect k l) in
    let l1 := snd (expect k l) in
    let second := fst (expect k l1) in
    let l2 := snd (expect k l1) in
    first <> second /\
    promises (setPageInfo k v l2) !! second = Some (Fulfilled v) /\
    promises (setPageInfo k v l2) !! first = Some Pending /\
    (let l3 := timer_fires first l2 in
     promises l3 !! first = Some (Fulfilled timeout_result) /\
     _pageInfoSetters l3 !! k = None /\
     setPageInfo k v l3 = l3 /\
     promises l3 !! second = Some Pending /\
     promises (timer_fires second l3) !! second = Some (Fulfilled timeout_result)).
Proof.
  intros timeout es k v l first l1 second l2.
  assert (W : wf l) by apply wf_run, wf_new.
  assert (W1 : wf l1) by (by apply wf_expect).
  assert (W2 : wf l2) by (by apply wf_expect).
  pose proof (wf_next l W) as Nx.
  assert (F : first = next_timer l) by (unfold first; simpl; done).
  assert (S2 : second = S (next_timer l)) by (unfold second; simpl; by rewrite Nx).
  assert (T1 : timers l2 !! first =
               Some {| tm_callback := {| od_window := k; od_timer := first; od_promise := first |};
                       tm_argument := timeout_result; tm_delay := _timeout l |}).
  { unfold l2, l1. simpl. rewrite lookup_insert_ne by lia.
    rewrite F, Nx. by rewrite lookup_insert_eq. }
  assert (T2 : timers l2 !! second =
               Some {| tm_callback := {| od_window := k; od_timer := second; od_promise := second |};
                       tm_argument := timeout_result; tm_delay := _timeout l |}).
  { unfold l2, l1. simpl. rewrite S2, Nx. by rewrite lookup_insert_eq. }
  assert (K2 : _pageInfoSetters l2 !! k =
               Some {| od_window := k; od_timer := second; od_promise := second |}).
  { unfold l2, l1. simpl. rewrite S2, Nx. by rewrite lookup_insert_eq. }
  destruct (wf_timers l2 W2 _ _ T1) as (_ & _ & _ & _ & P1 & _).
  destruct (wf_timers l2 W2 _ _ T2) as (_ & _ & _ & _ & P2 & _).
  assert (N : first <> second) by lia.
  split; [done|].
  split; [|split].
  - unfold setPageInfo. rewrite K2. simpl. by apply resolve_pending.
  - unfold setPageInfo. rewrite K2. simpl. rewrite resolve_other by done. done.
  - intros l3.
    assert (E3 : l3 = onDone {| od_window := k; od_timer := first; od_promise := first |}
                        timeout_result l2).
    { unfold l3. by rewrite (timer_fires_onDone _ _ _ W2 T1). }
    assert (K3 : _pageInfoSetters l3 !! k = None).
    { rewrite E3. simpl. apply lookup_delete_eq. }
    assert (P3 : promises l3 !! second = Some Pending).
    { rewrite E3. simpl. rewrite resolve_other by done. done. }
    assert (T3 : timers l3 !! second =
               Some {| tm_callback := {| od_window := k; od_timer := second; od_promise := second |};
                       tm_argument := timeout_result; tm_delay := _timeout l |}).
    { rewrite E3. simpl. rewrite lookup_delete_ne by done. done. }
    assert (W3 : wf l3).
    { rewrite E3. exact (wf_onDone _ _ timeout_result l2 W2 T1). }
    split; [|split; [done|split; [|split; [done|]]]].
    + rewrite E3. simpl. by apply resolve_pending.
    + unfold setPageInfo. by rewrite K3.
    + rewrite (timer_fires_onDone _ _ _ W3 T3). simpl. by apply resolve_pending.
Qed.

End ListenerTimers.

(** ** The object gatherPageInfo returns *)

Section GatherShape.

Import ChildScript.

Ltac shape :=
  intros [= <-]; simpl;
  repeat match goal with |- _ /\ _ => split end;
  try done; try (by left); try (by right); try (by intros ? [= <-]).

(** X12. The object gatherPageInfo returns, when it returns (the
    function is the same in processScript.js and frameScript.js), never
    has headers; it never has both a source and an error; its error, if
    any, is the text "Cannot gather page info" and then exactly one
    exception was reported; and it has a screenshot only if the document
    has a root element, the canvas was created with a width and a height
    above zero and toDataURL returned that screenshot: a page of no
    width or no height gets no screenshot, whatever the canvas would
    do. *)
Theorem gatherPageInfo_result_shape (logging : JsExn -> Host unit) (wnd : option Window)
    (r : PageInfo) :
  fst (processScript.gatherPageInfo logging wnd) = inr r ->
  fst (frameScript.gatherPageInfo logging wnd) = inr r /\
  pi_headers r = None /\
  (pi_source r = None \/ pi_error r = None) /\
  (forall m, pi_error r = Some m ->
     m = "Cannot gather page info"%string /\
     length (reported (snd (processScript.gatherPageInfo logging wnd))) = 1%nat) /\
  (pi_error r = None -> reported (snd (processScript.gatherPageInfo logging wnd)) = []) /\
  (forall data, pi_screenshot r = Some data ->
     exists w d root canvas,
       wnd = Some w /\ document w = inr (Some d) /\
       documentElement d = inr (Some root) /\
       createElementNS d = inr canvas /\
       0 < stored_dimension canvas (scrollWidth root) /\
       0 < stored_dimension canvas (scrollHeight root) /\
       toDataURL canvas = inr data).
Proof.
  unfold processScript.gatherPageInfo, frameScript.gatherPageInfo.
  intros H. split; [done|]. revert H.
  unfold gather_body, try_catch, try_block, bind, host, ret, get_result,
    set_source, set_screenshot, set_error, reportException.
  destruct wnd as [w|]; simpl; [|done].
  destruct (document w) as [?|[d|]] eqn:Doc; simpl; try done.
  destruct (documentElement d) as [?|[root|]] eqn:Root; simpl; try done; [|shape].
  destruct (createElementNS d) as [e|canvas] eqn:Cv; simpl;
    [destruct (logging e) as [?|[]]; simpl; [done|shape]|].
  destruct (0 <? stored_dimension canvas (scrollWidth root)) eqn:Wd; simpl;
    [destruct (0 <? stored_dimension canvas (scrollHeight root)) eqn:Ht; simpl|].
  - apply Z.ltb_lt in Wd, Ht.
    destruct (getContext canvas) as [e|context]; simpl;
      [destruct (logging e) as [?|[]]; simpl; [done|shape]|].
    destruct (drawWindow context _ _) as [e|[]]; simpl;
      [destruct (logging e) as [?|[]]; simpl; [done|shape]|].
    destruct (toDataURL canvas) as [e|data] eqn:TD; simpl;
      [destruct (logging e) as [?|[]]; simpl; [done|shape]|].
    destruct (new_XMLSerializer w) as [e|serializer]; simpl;
      [destruct (logging e) as [?|[]]; simpl;
         [done|shape; intros ? [= <-]; exists w, d, root, canvas; repeat split; done]|].
    destruct (serializeToString serializer root) as [e|text]; simpl;
      [destruct (logging e) as [?|[]]; simpl; [done|]|];
      shape; intros ? [= <-]; exists w, d, root, canvas; repeat split; done.
  - destruct (new_XMLSerializer w) as [e|serializer]; simpl;
      [destruct (logging e) as [?|[]]; simpl; [done|shape]|].
    destruct (serializeToString serializer root) as [e|text]; simpl;
      [destruct (logging e) as [?|[]]; simpl; [done|shape]|shape].
  - destruct (new_XMLSerializer w) as [e|serializer]; simpl;
      [destruct (logging e) as [?|[]]; simpl; [done|shape]|].
    destruct (serializeToString serializer root) as [e|text]; simpl;
      [destruct (logging e) as [?|[]]; simpl; [done|shape]|shape].
Qed.

End GatherShape.

(** A page of no height whose canvas would throw: the source is gathered,
    without screenshot and without error. *)
Definition flat_document : ChildScript.Document :=
  {| ChildScript.documentElement :=
       inr (Some {| ChildScript.scrollWidth := 800; ChildScript.scrollHeight := 0 |});
     ChildScript.createElementNS :=
       inr {| ChildScript.stored_dimension := fun v => v;
              ChildScript.getContext := inl (JsError "no context");
              ChildScript.toDataURL := inl (JsError "no data") |} |}.

Definition flat_window : ChildScript.Window :=
  {| ChildScript.document := inr (Some flat_document);
     ChildScript.new_XMLSerializer :=
       inr {| ChildScript.serializeToString := fun _ => inr "<html/>"%string |} |}.

Lemma gatherPageInfo_result_shape_witness :
  let r := {| pi_headers := None; pi_screenshot := None;
              pi_source := Some "<html/>"%string; pi_error := None |} in
  fst (ChildScript.frameScript.gatherPageInfo quiet (Some flat_window)) = inr r /\
  pi_headers r = None /\
  (pi_source r = None \/ pi_error r = None) /\
  (forall m, pi_error r = Some m ->
     m = "Cannot gather page info"%string /\
     length (ChildScript.reported
               (snd (ChildScript.processScript.gatherPageInfo quiet (Some flat_window))))
     = 1%nat) /\
  (pi_error r = None ->
     ChildScript.reported
       (snd (ChildScript.processScript.gatherPageInfo quiet (Some flat_window))) = []) /\
  (forall data, pi_screenshot r = Some data ->
     exists w d root canvas,
       Some flat_window = Some w /\ ChildScript.document w = inr (Some d) /\
       ChildScript.documentElement d = inr (Some root) /\
       ChildScript.createElementNS d = inr canvas /\
       0 < ChildScript.stored_dimension canvas (ChildScript.scrollWidth root) /\
       0 < ChildScript.stored_dimension canvas (ChildScript.scrollHeight root) /\
       ChildScript.toDataURL canvas = inr data).
Proof.
  exact (gatherPageInfo_result_shape quiet (Some flat_window) _ eq_refl).
Defined.

(** ** The child scripts: getRequestWindow and the state listeners *)

Section ChildMessagesFacts.

Import ChildScript ChildMessages.

(** X13. getRequestWindow of processScript.js never throws and always
    returns: the window of the channel's own notification callbacks
    whenever that lookup returns, be it null (the load group is then not
    asked); otherwise what the callbacks of the load group give; and null
    when neither lookup returns.  A window it returns is the associated
    window of one of the two. *)
Theorem getRequestWindow_never_throws (channel : Channel) :
  (exists w, getRequestWindow channel = Returns w) /\
  (forall cb w,
     notificationCallbacks channel = inr (Some cb) -> associatedWindow cb = inr w ->
     getRequestWindow channel = Returns w) /\
  (forall w, getRequestWindow channel = Returns (Some w) ->
     (exists cb, notificationCallbacks channel = inr (Some cb) /\
                 associatedWindow cb = inr (Some w)) \/
     (exists g cb, loadGroup channel = inr (Some g) /\
                   group_notificationCallbacks g = inr (Some cb) /\
                   associatedWindow cb = inr (Some w))) /\
  ((forall cb, notificationCallbacks channel = inr (Some cb) ->
               exists e, associatedWindow cb = inl e) ->
   (forall g cb, loadGroup channel = inr (Some g) ->
                 group_notificationCallbacks g = inr (Some cb) ->
                 exists e, associatedWindow cb = inl e) ->
   getRequestWindow channel = Returns None).
Proof.
  unfold getRequestWindow, loadGroup_notificationCallbacks, return_associatedWindow,
    and_then, swallow.
  split; [|split; [|split]].
  - destruct (notificationCallbacks channel) as [?|[cb|]];
      try destruct (associatedWindow cb) as [?|w]; eauto;
      destruct (loadGroup channel) as [?|[g|]]; eauto;
      destruct (group_notificationCallbacks g) as [?|[cb'|]]; eauto;
      destruct (associatedWindow cb') as [?|w']; eauto.
  - by intros cb w -> ->.
  - intros w.
    destruct (notificationCallbacks channel) as [?|[cb|]];
      try destruct (associatedWindow cb) as [?|w0] eqn:A;
      try (intros [= ->]; left; by exists cb);
      (destruct (loadGroup channel) as [?|[g|]]; try done;
       destruct (group_notificationCallbacks g) as [?|[cb'|]] eqn:G; try done;
       destruct (associatedWindow cb') as [?|w'] eqn:A'; try done;
       intros [= ->]; right; by exists g, cb').
  - intros H1 H2.
    destruct (notificationCallbacks channel) as [?|[cb|]];
      try (destruct (H1 cb eq_refl) as [e ->]);
      (destruct (loadGroup channel) as [?|[g|]]; try done;
       destruct (group_notificationCallbacks g) as [?|[cb'|]] eqn:G; try done;
       by destruct (H2 g cb' eq_refl G) as [e' ->]).
Qed.

(** What a state listener did that got to [let pageInfo = {headers: []}]
    for the window [win] and the response [channel]. *)
Definition sends_page_info (g : Globals)
    (gatherPageInfo : (JsExn -> Host unit) -> option Window -> Host PageInfo * Store)
    (win : option Window) (channel : HttpChannel) (data : PageInfo -> MessageData)
    (o : Outcome) : Prop :=
  let pushed := push_headers channel [] in
  let caught := match snd pushed with Some e => [e] | None => [] end in
  let gathering := gatherPageInfo (logging g) win in
  (length (sent o) <= 1)%nat /\
  (sent o = [] <-> is_Some (thrown o)) /\
  (forall m, sent o = [m] ->
     exists gathered,
       fst gathering = inr gathered /\
       m = data {| pi_headers := Some (fst pushed);
                   pi_screenshot := pi_screenshot gathered;
                   pi_source := pi_source gathered;
                   pi_error := pi_error gathered |} /\
       sendAsyncMessage g m = inr tt /\
       reported_exceptions o = caught ++ reported (snd gathering)) /\
  (forall e, thrown o = Some e ->
     (exists x, snd pushed = Some x /\ logging g x = inl e) \/
     fst gathering = inl e \/
     (exists m, sendAsyncMessage g m = inl e)) /\
  ((forall e, logging g e = inr tt) -> (forall m, sendAsyncMessage g m = inr tt) ->
   forall w d root,
     win = Some w -> document w = inr (Some d) -> documentElement d = inr root ->
     exists m, sent o = [m] /\ thrown o = None) /\
  (win = None ->
   sent o = [] /\
   ((forall e, logging g e = inr tt) -> thrown o = Some (JsTypeError "wnd is null"))).

Lemma assign_gathered (hs : list string) (gathered : PageInfo) :
  pi_headers gathered = None ->
  assign (with_headers hs) gathered =
  {| pi_headers := Some hs; pi_screenshot := pi_screenshot gathered;
     pi_source := pi_source gathered; pi_error := pi_error gathered |}.
Proof.
  intros Hh. unfold assign, with_headers, overwrite. rewrite Hh. simpl.
  by destruct (pi_screenshot gathered), (pi_source gathered), (pi_error gathered).
Qed.

Lemma report_page_sends (g : Globals)
    (gatherPageInfo : (JsExn -> Host unit) -> option Window -> Host PageInfo * Store)
    (win : option Window) (channel : HttpChannel) (data : PageInfo -> MessageData) :
  (forall l w, gatherPageInfo l w = gather_body l w fresh_store) ->
  sends_page_info g gatherPageInfo win channel data
    (report_page g gatherPageInfo win channel data).
Proof.
  intros Gp. unfold sends_page_info, report_page. rewrite Gp.
  destruct (push_headers channel []) as [hs x]. simpl.
  assert (Caught : forall o,
    o = match gather_body (logging g) win fresh_store with
        | (inl e, s) => throws (match x with Some e => [e] | None => [] end ++ reported s) e
        | (inr gathered, s) =>
            send g (match x with Some e => [e] | None => [] end ++ reported s)
              (data (assign (with_headers hs) gathered))
        end ->
    (length (sent o) <= 1)%nat /\
    (sent o = [] <-> is_Some (thrown o)) /\
    (forall m, sent o = [m] ->
       exists gathered,
         fst (gather_body (logging g) win fresh_store) = inr gathered /\
         m = data {| pi_headers := Some hs;
                     pi_screenshot := pi_screenshot gathered;
                     pi_source := pi_source gathered;
                     pi_error := pi_error gathered |} /\
         sendAsyncMessage g m = inr tt /\
         reported_exceptions o = match x with Some e => [e] | None => [] end
                                 ++ reported (snd (gather_body (logging g) win fresh_store))) /\
    (forall e, thrown o = Some e ->
       (exists x', x = Some x' /\ logging g x' = inl e) \/
       fst (gather_body (logging g) win fresh_store) = inl e \/
       (exists m, sendAsyncMessage g m = inl e)) /\
    ((forall e, logging g e = inr tt) -> (forall m, sendAsyncMessage g m = inr tt) ->
     forall w d root,
       win = Some w -> document w = inr (Some d) -> documentElement d = inr root ->
       exists m, sent o = [m] /\ thrown o = None) /\
    (win = None ->
     sent o = [] /\
     ((forall e, logging g e = inr tt) -> thrown o = Some (JsTypeError "wnd is null")))).
  { intros o ->.
    destruct (gather_body (logging g) win fresh_store) as [[e|gathered] s] eqn:B; simpl.
    - split; [lia|]. split; [split; [by eexists|done]|]. split; [done|].
      split; [intros ? [= <-]; right; by left|].
      split.
      + intros L S w d root -> D R.
        destruct (gather_body_returns (logging g) w d root D R (fun _ e' _ _ => L e')) as [r Hr].
        rewrite B in Hr. done.
      + intros ->. split; [done|]. intros _. revert B. by intros [= <- _].
    - pose proof (gather_body_headers (logging g) win gathered) as Hh.
      rewrite B in Hh. specialize (Hh eq_refl).
      rewrite (assign_gathered hs gathered Hh).
      unfold send.
      destruct (sendAsyncMessage g _) as [e|[]] eqn:Sd; simpl.
      + split; [lia|]. split; [split; [by eexists|done]|]. split; [done|].
        split; [intros ? [= <-]; right; right; by eexists|].
        split.
        * intros L S. by rewrite S in Sd.
        * intros ->. revert B. done.
      + split; [lia|]. split; [split; [done|by intros [? ?]]|].
        split; [intros m [= <-]; by exists gathered|].
        split; [done|].
        split; [intros; by eexists|].
        intros ->. revert B. done. }
  destruct x as [e0|].
  - destruct (logging g e0) as [e'|[]] eqn:Lg.
    + simpl. split; [lia|]. split; [split; [by eexists|done]|]. split; [done|].
      split; [intros ? [= <-]; left; by exists e0|].
      split; [intros L; by rewrite L in Lg|].
      intros _. split; [done|]. intros L. by rewrite L in Lg.
    + by apply Caught.
  - by apply Caught.
Qed.

(** X14. webProgressListener.onStateChange of both child scripts.  For a
    request that is not an HTTP channel, a progress that is not top
    level, or flags without the STOP or the IS_WINDOW bit, the listener
    does nothing.  Otherwise frameScript.js works on [content] and
    processScript.js on webProgress.DOMWindow, after reading the window
    and its outer window id: an exception of these reads, and the
    TypeError of a DOMWindow that is null, leave the listener before
    anything is gathered.  From there on both listeners send at most one
    message, and one exactly when no exception leaves them.  The page
    info of the message has the headers pushed until reading the status
    or visiting the headers threw (that exception went to
    reportException), which Object.assign never overwrites, and the
    screenshot, source and error gatherPageInfo returned; frameScript.js
    sends the page info itself, processScript.js sends it with the outer
    window id.  An exception that leaves the listener is one of
    reportException in the catch block of the headers, of gatherPageInfo
    or of sendAsyncMessage.  The message is sent whenever reportException
    and sendAsyncMessage return and the window is there with a document
    and a documentElement that can be read; for a window that is null
    nothing is sent, and the TypeError of gatherPageInfo leaves the
    listener when reportException returns. *)
Theorem onStateChange_sends_page_info (Ci : nsIWebProgressListener) (g : Globals)
    (webProgress : WebProgress) (content : option Window) (request : ChannelRequest)
    (flags status : Z) :
  let frame :=
    frameScript.onStateChange Ci g content (isTopLevel webProgress) request flags status in
  let process := processScript.onStateChange Ci g webProgress request flags status in
  match request with
  | HttpRequest channel =>
      if isTopLevel webProgress && window_stopped Ci flags then
        sends_page_info g ChildScript.frameScript.gatherPageInfo content channel Bare frame /\
        match DOMWindow webProgress with
        | inl e => process = throws [] e
        | inr None => process = throws [] (JsTypeError "win is null")
        | inr (Some w) =>
            match DOMWindow_outerWindowID webProgress with
            | inl e => process = throws [] e
            | inr outerWindowID =>
                sends_page_info g ChildScript.processScript.gatherPageInfo (Some w) channel
                  (With_outerWindowID outerWindowID) process
            end
        end
      else frame = nothing /\ process = nothing
  | OtherRequest => frame = nothing /\ process = nothing
  end.
Proof.
  intros frame process.
  unfold frame, process, frameScript.onStateChange, processScript.onStateChange.
  destruct request as [channel|]; [|by destruct (_ && _)].
  destruct (isTopLevel webProgress && window_stopped Ci flags); [|done].
  split; [by apply report_page_sends|].
  destruct (DOMWindow webProgress) as [e|[w|]]; simpl; try done.
  destruct (DOMWindow_outerWindowID webProgress) as [e|outerWindowID]; [done|].
  by apply report_page_sends.
Qed.

End ChildMessagesFacts.

(** ** LoadListener *)

Section LoadListenerFacts.

Import LoadListener.

Variable Ci : nsIWebProgressListener.

Lemma resolve_other' (p q : nat) (status : Z) (hs : list string) (ps : gmap nat PromiseState) :
  p <> q -> resolve p status hs ps !! q = ps !! q.
Proof.
  intros N. unfold resolve. destruct (ps !! p) as [[]|]; try done.
  by rewrite lookup_insert_ne.
Qed.

(** A pending promise, made before, that only the browser of [owners]
    can still reach through the map of deferreds. *)
Record held (owners : Tab -> Prop) (p : nat) (l : t) : Prop := {
  held_pending : promises l !! p = Some Pending;
  held_owner : forall b, _deferred l !! b = Some p -> owners b;
  held_old : (p < next_promise l)%nat
}.

Lemma held_step (owners : Tab -> Prop) (p : nat) (l : t) (e : Event) :
  (forall b, owners b -> is_window_stop Ci b e = false) ->
  held owners p l -> held owners p (step Ci l e).
Proof.
  intros Q [P O L]. destruct e as [tab| |b request flags status|n]; simpl.
  - split; simpl.
    + rewrite lookup_insert_ne by lia. done.
    + intros b. rewrite lookup_insert. case_decide as E; [intros [= Eq]; lia|apply O].
    + lia.
  - by split.
  - destruct (listening l); [|by split].
    unfold onStateChange. destruct (window_stopped Ci flags) eqn:Ws; [|by split].
    destruct (_deferred l !! b) as [q|] eqn:D; [|by split].
    assert (N : q <> p).
    { intros ->. specialize (Q b (O b D)). simpl in Q.
      rewrite Ws, bool_decide_eq_true_2 in Q by done. done. }
    split; simpl.
    + by rewrite resolve_other'.
    + intros b'. rewrite lookup_delete_Some. intros [_ H]. by apply O.
    + done.
  - unfold timer_fires. destruct (timers l !! n) as [[tab d]|]; by split.
Qed.

Lemma held_run (owners : Tab -> Prop) (p : nat) (es : list Event) (l : t) :
  (forall b, owners b -> forallb (fun e => negb (is_window_stop Ci b e)) es = true) ->
  held owners p l -> held owners p (run Ci es l).
Proof.
  revert l. induction es as [|e es IH]; simpl; intros l Q H; [done|].
  apply IH.
  - intros b Ob. specialize (Q b Ob). by apply andb_true_iff in Q as [_ Q].
  - apply held_step; [|done]. intros b Ob. specialize (Q b Ob).
    apply andb_true_iff in Q as [Q _]. by apply negb_true_iff in Q.
Qed.

Lemma fresh_promise (es : list Event) (l0 : t) :
  (forall b q, _deferred l0 !! b = Some q -> (q < next_promise l0)%nat) ->
  forall b q, _deferred (run Ci es l0) !! b = Some q -> (q < next_promise (run Ci es l0))%nat.
Proof.
  revert l0. induction es as [|e es IH]; simpl; intros l0 H; [done|]. apply IH.
  destruct e as [tab| |b request flags status|n]; simpl; try done.
  - intros b q. rewrite lookup_insert. case_decide; [intros [= <-]; lia|].
    intros D. specialize (H b q D). lia.
  - destruct (listening l0); [|done]. unfold onStateChange.
    destruct (window_stopped Ci flags); [|done].
    destruct (_deferred l0 !! b) eqn:D; [|done]. simpl.
    intros b' q. rewrite lookup_delete_Some. intros [_ D']. by eapply H.
  - unfold timer_fires. destruct (timers l0 !! n) as [[tab d]|]; done.
Qed.

Lemma held_waitForLoad (tab : Tab) (es : list Event) (timeout : Z) :
  let l := run Ci es (new timeout) in
  held (fun b => b = tab) (fst (waitForLoad tab l)) (snd (waitForLoad tab l)).
Proof.
  intros l. split; simpl.
  - by rewrite lookup_insert_eq.
  - intros b. rewrite lookup_insert. case_decide as E; [done|].
    intros D. exfalso.
    assert (next_promise l < next_promise l)%nat; [|lia].
    apply (fresh_promise es (new timeout)) with b; [|done].
    intros b' q. simpl. by rewrite lookup_empty.
  - lia.
Qed.

Lemma held_meanwhile (timeout : Z) (history : list Event) (tab : Tab)
    (meanwhile : list Event) :
  forallb (fun e => negb (is_window_stop Ci tab e)) meanwhile = true ->
  let l := run Ci history (new timeout) in
  held (fun b => b = tab) (fst (waitForLoad tab l))
       (run Ci meanwhile (snd (waitForLoad tab l))).
Proof.
  intros Q l. apply held_run; [by intros b ->|apply held_waitForLoad].
Qed.

Lemma LoadListener_timeout_run (es : list Event) (l : t) :
  _timeout (run Ci es l) = _timeout l.
Proof.
  revert l. induction es as [|e es IH]; simpl; intros l; [done|]. rewrite IH.
  destruct e as [tab| |b request flags status|n]; simpl; try done.
  - destruct (listening l); [|done]. unfold onStateChange.
    destruct (window_stopped Ci flags); [|done]. by destruct (_deferred l !! b).
  - unfold timer_fires. by destruct (timers l !! n) as [[? ?]|].
Qed.

(** X15. The promise of waitForLoad is settled by nothing but a state
    change of its browser with the STOP and IS_WINDOW bits.  The call
    arms a timer with the configured timeout for the tab; for every
    listener that can arise and whatever happens afterwards short of such
    a state change (other state changes, loads of other tabs, stop(), and
    the firing of any timer, the one of this call included), the promise
    is pending: the callback of a timer stops the browser of its tab and
    leaves every promise alone. *)
Theorem waitForLoad_waits_for_window_stop (timeout : Z) (history : list Event)
    (tab : Tab) (meanwhile : list Event) :
  forallb (fun e => negb (is_window_stop Ci tab e)) meanwhile = true ->
  let l := run Ci history (new timeout) in
  let promise := fst (waitForLoad tab l) in
  let before := run Ci meanwhile (snd (waitForLoad tab l)) in
  timers (snd (waitForLoad tab l)) !! next_timer l = Some (tab, timeout) /\
  promises before !! promise = Some Pending /\
  (forall n b d, timers before !! n = Some (b, d) ->
     stopped (timer_fires n before) = stopped before ++ [b] /\
     promises (timer_fires n before) = promises before).
Proof.
  intros Q l promise before. split; [|split].
  - simpl. rewrite lookup_insert_eq. unfold l. by rewrite LoadListener_timeout_run.
  - apply (held_pending (fun b => b = tab)). by apply held_meanwhile.
  - intros n b d H. unfold timer_fires. by rewrite H.
Qed.

(** Events that leave the registration of a tab alone: no state change
    that ends its load and no further waitForLoad for it. *)
Definition leaves_registered (tab : Tab) (e : Event) : bool :=
  negb (is_window_stop Ci tab e) &&
  match e with WaitForLoad tab' => negb (bool_decide (tab' = tab)) | _ => true end.

Lemma registered_run (tab : Tab) (p : nat) (es : list Event) (l : t) :
  forallb (leaves_registered tab) es = true ->
  _deferred l !! tab = Some p -> _deferred (run Ci es l) !! tab = Some p.
Proof.
  revert l. induction es as [|e es IH]; simpl; intros l Q D; [done|].
  apply andb_true_iff in Q as [Q1 Q2]. apply IH; [done|].
  unfold leaves_registered in Q1. apply andb_true_iff in Q1 as [Q1 Q3].
  apply negb_true_iff in Q1.
  destruct e as [tab'| |b request flags status|n]; simpl in *; try done.
  - apply negb_true_iff, bool_decide_eq_false in Q3. by rewrite lookup_insert_ne.
  - destruct (listening l); [|done]. unfold onStateChange.
    destruct (window_stopped Ci flags) eqn:Ws; [|done].
    destruct (_deferred l !! b) eqn:Db; [|done]. simpl.
    rewrite lookup_delete_ne; [done|]. intros ->.
    rewrite bool_decide_eq_true_2 in Q1 by done. done.
  - unfold timer_fires. by destruct (timers l !! n) as [[? ?]|].
Qed.

(** X16. When the browser of a tab with a pending waitForLoad reports a
    state change with the STOP and IS_WINDOW bits, the promise is
    resolved with the status of the call and the headers of the request
    (none for a request that is not an HTTP channel; the ones pushed
    before an exception otherwise), and the registration is removed, so
    that every later state change of that browser changes nothing. *)
Theorem waitForLoad_resolved_by_window_stop (timeout : Z) (history : list Event)
    (tab : Tab) (meanwhile : list Event) (request : ChannelRequest) (flags status : Z) :
  forallb (leaves_registered tab) meanwhile = true ->
  window_stopped Ci flags = true ->
  let l := run Ci history (new timeout) in
  let promise := fst (waitForLoad tab l) in
  let before := run Ci meanwhile (snd (waitForLoad tab l)) in
  let after := onStateChange Ci tab request flags status before in
  let headers :=
    match request with
    | HttpRequest channel => fst (push_headers channel [])
    | OtherRequest => []
    end in
  promises before !! promise = Some Pending /\
  promises after !! promise = Some (Resolved status headers) /\
  _deferred after !! tab = None /\
  (forall request' flags' status',
     onStateChange Ci tab request' flags' status' after = after).
Proof.
  intros Q Ws l promise before after headers.
  assert (Q' : forallb (fun e => negb (is_window_stop Ci tab e)) meanwhile = true).
  { clear -Q. induction meanwhile as [|e es IH]; simpl in *; [done|].
    apply andb_true_iff in Q as [Q1 Q2]. apply andb_true_iff in Q1 as [Q1 _].
    rewrite Q1. by apply IH. }
  assert (P : promises before !! promise = Some Pending)
    by (apply (held_pending (fun b => b = tab)); by apply held_meanwhile).
  assert (D : _deferred before !! tab = Some promise).
  { apply registered_run; [done|]. simpl. by rewrite lookup_insert_eq. }
  assert (Da : _deferred after !! tab = None).
  { unfold after, onStateChange. rewrite Ws, D. simpl. apply lookup_delete_eq. }
  split; [done|]. split; [|split; [done|]].
  - unfold after, onStateChange. rewrite Ws, D. simpl. unfold resolve.
    rewrite P. by rewrite lookup_insert_eq.
  - intros request' flags' status'. unfold onStateChange at 1.
    rewrite Da. by destruct (window_stopped Ci flags').
Qed.

(** X17. A second waitForLoad for a tab whose first promise is pending
    replaces the deferred of its browser: whatever happens afterwards,
    state changes of that browser included, the first promise is never
    settled. *)
Theorem second_waitForLoad_orphans_the_first (timeout : Z) (history : list Event)
    (tab : Tab) (meanwhile later : list Event) :
  forallb (fun e => negb (is_window_stop Ci tab e)) meanwhile = true ->
  let l := run Ci history (new timeout) in
  let first := fst (waitForLoad tab l) in
  let before := run Ci meanwhile (snd (waitForLoad tab l)) in
  let second := fst (waitForLoad tab before) in
  first <> second /\
  promises (run Ci later (snd (waitForLoad tab before))) !! first = Some Pending.
Proof.
  intros Q l first before second.
  assert (H : held (fun b => b = tab) first before) by (by apply held_meanwhile).
  destruct H as [P O L].
  split; [unfold second; simpl; lia|].
  apply (held_pending (fun _ => False)). apply held_run; [done|].
  split; simpl.
  - rewrite lookup_insert_ne by lia. done.
  - intros b. rewrite lookup_insert. case_decide as E; [intros [= Eq]; lia|].
    intros D. specialize (O b D). done.
  - lia.
Qed.

End LoadListenerFacts.

(** ** run: crawl_urls starts once the filters are there *)

Section StartupFacts.

Import Startup.

Lemma notify_without_listener (crawl_urls : option JsExn) (actions : list string) (s : t) :
  listener_added s = false -> fold_left (notify crawl_urls) actions s = s.
Proof.
  intros H. induction actions as [|a actions IH]; simpl; [done|].
  unfold notify at 2. by rewrite H.
Qed.

(** X18. run calls crawl_urls exactly once, and only when the filters
    are there: at once when FilterStorage has a subscription; otherwise
    at the first "load" notification of FilterNotifier and not before,
    whatever other notifications come.  The listener is removed at that
    notification, later ones start nothing, and an exception of
    crawl_urls goes to reportException. *)
Theorem run_calls_crawl_urls_once (subscriptions_length : Z) (crawl_urls : option JsExn)
    (actions : list string) :
  let s := fold_left (notify crawl_urls) actions (run subscriptions_length crawl_urls) in
  let started := bool_decide (0 < subscriptions_length \/ "load"%string ∈ actions) in
  crawl_urls_calls s = (if started then 1 else 0)%nat /\
  listener_added s = negb started /\
  reported s = (if started then match crawl_urls with Some e => [e] | None => [] end else []).
Proof.
  intros s started. unfold s, started, run.
  destruct (0 <? subscriptions_length) eqn:L.
  - apply Z.ltb_lt in L. rewrite notify_without_listener by done.
    rewrite bool_decide_eq_true_2 by auto. done.
  - apply Z.ltb_ge in L. simpl.
    assert (forall n rs,
      let s0 := {| listener_added := true; resolved := false; crawl_urls_calls := n;
                   reported := rs |} in
      let s1 := fold_left (notify crawl_urls) actions s0 in
      if bool_decide ("load"%string ∈ actions) then
        s1 = {| listener_added := false; resolved := true; crawl_urls_calls := S n;
                reported := rs ++ match crawl_urls with Some e => [e] | None => [] end |}
      else s1 = s0) as H.
    { induction actions as [|a actions IH]; intros n rs; simpl; [done|].
      assert (St : notify crawl_urls
                     {| listener_added := true; resolved := false; crawl_urls_calls := n;
                        reported := rs |} a =
                   if String.eqb a "load" then
                     {| listener_added := false; resolved := true; crawl_urls_calls := S n;
                        reported := rs ++ match crawl_urls with Some e => [e] | None => [] end |}
                   else {| listener_added := true; resolved := false; crawl_urls_calls := n;
                           reported := rs |}).
      { unfold notify, onFiltersLoaded, resolve. simpl. by destruct (String.eqb a "load"). }
      rewrite St. clear St.
      destruct (String.eqb a "load") eqn:E.
      - apply String.eqb_eq in E. subst a.
        rewrite bool_decide_eq_true_2 by (apply elem_of_cons; by left).
        by rewrite notify_without_listener.
      - apply String.eqb_neq in E. specialize (IH n rs). simpl in IH.
        destruct (bool_decide ("load"%string ∈ actions)) eqn:M.
        + apply bool_decide_eq_true in M.
          rewrite bool_decide_eq_true_2 by (apply elem_of_cons; by right). done.
        + apply bool_decide_eq_false in M.
          rewrite bool_decide_eq_false_2; [done|].
          intros [Eq|In]%elem_of_cons; [by apply E|by apply M]. }
    specialize (H 0%nat []). simpl in H.
    destruct (bool_decide ("load"%string ∈ actions)) eqn:M.
    + apply bool_decide_eq_true in M. rewrite bool_decide_eq_true_2 by auto.
      rewrite H. done.
    + apply bool_decide_eq_false in M.
      rewrite bool_decide_eq_false_2; [by rewrite H|]. intros [?|?]; [lia|done].
Qed.

End StartupFacts.

(** ** From the load of a page to the record of its job *)

Section LoadedPage.

Import ChildMessages.

(** X19. The crawler built on page-info messages, end to end.  A job
    waits with expect on the window id of its tab; the page loads and
    onLoad of processScript.js finds the window of that id, a window
    with a document and a documentElement that can be read, and
    reportException and sendAsyncMessage return: it sends one message,
    onWindowLoaded gives it to setPageInfo, the promise of the job is
    fulfilled with what gatherPageInfo returned and the registration is
    gone; and the job, its other calls returning, returns a record with
    that screenshot, source and error, and without headers and channel
    status, which this path never gathers. *)
Theorem loaded_page_reaches_the_record :
  forall (timeout : Z) (history : list PageInfoListener.Event)
         (c : Crawler.Collaborators) (u : string) (t : TabObject) (g : Globals)
         (getOuterWindowWithId : Z -> option ChildScript.Window)
         (wnd : ChildScript.Window) (d : ChildScript.Document)
         (root : option ChildScript.Element) (spec : string),
    getOuterWindowWithId (outerWindowID t) = Some wnd ->
    ChildScript.document wnd = inr (Some d) ->
    ChildScript.documentElement d = inr root ->
    (forall e, logging g e = inr tt) ->
    (forall m, sendAsyncMessage g m = inr tt) ->
    Crawler.new_RequestNotifier c = None -> Crawler.expect c = None ->
    Crawler.loadURI c = None -> Crawler.currentURI_spec c = inr spec ->
    Crawler.shutdown c = None ->
    let l := PageInfoListener.run history (PageInfoListener.new timeout) in
    let promise := fst (PageInfoListener.expect (outerWindowID t) l) in
    let waiting := snd (PageInfoListener.expect (outerWindowID t) l) in
    let child := processScript.onLoad g (inr (outerWindowID t)) getOuterWindowWithId in
    let l' := fold_left (fun l data => onWindowLoaded data l) (sent child) waiting in
    exists gathered r es,
      fst (ChildScript.processScript.gatherPageInfo (logging g) (Some wnd)) = inr gathered /\
      sent child = [With_outerWindowID (outerWindowID t) gathered] /\
      thrown child = None /\
      PageInfoListener.promises waiting !! promise = Some PageInfoListener.Pending /\
      PageInfoListener.promises l' !! promise = Some (PageInfoListener.Fulfilled gathered) /\
      PageInfoListener._pageInfoSetters l' !! outerWindowID t = None /\
      Crawler.crawl_url c u (Some (inr t)) (Some (inr gathered)) = (Returned r, es) /\
      screenshot r = pi_screenshot gathered /\ source r = pi_source gathered /\
      error r = pi_error gathered /\ headers r = None /\ channelStatus r = None.
Proof.
  intros timeout history c u t g getOuter wnd d root spec G D R Lg Sd N E L C S
    l promise waiting child l'.
  destruct (gather_body_returns (logging g) wnd d root D R (fun _ e _ _ => Lg e))
    as [gathered B].
  pose proof (gather_body_headers (logging g) (Some wnd) gathered B) as Hh.
  assert (Ch : sent child = [With_outerWindowID (outerWindowID t) gathered] /\
               thrown child = None).
  { unfold child, processScript.onLoad. rewrite G.
    unfold ChildScript.processScript.gatherPageInfo, send.
    destruct (ChildScript.gather_body (logging g) (Some wnd) ChildScript.fresh_store)
      as [[e|p] s]; simpl in B; [done|]. injection B as ->. by rewrite Sd. }
  destruct Ch as [Cs Ct].
  assert (L' : l' = PageInfoListener.setPageInfo (outerWindowID t) gathered waiting)
    by (unfold l'; by rewrite Cs).
  assert (P : PageInfoListener.promises waiting !! promise = Some PageInfoListener.Pending).
  { unfold waiting, promise. simpl. by rewrite lookup_insert_eq. }
  assert (K : PageInfoListener._pageInfoSetters waiting !! outerWindowID t =
              Some {| PageInfoListener.od_window := outerWindowID t;
                      PageInfoListener.od_timer := PageInfoListener.next_timer l;
                      PageInfoListener.od_promise := promise |}).
  { unfold waiting. simpl. by rewrite lookup_insert_eq. }
  clearbody l' waiting promise.
  exists gathered. eexists _, _.
  split; [done|]. split; [done|]. split; [done|]. split; [done|].
  split; [|split; [|split]].
  - rewrite L'. unfold PageInfoListener.setPageInfo. rewrite K.
    simpl. unfold PageInfoListener.resolve. rewrite P.
    by rewrite lookup_insert_eq.
  - rewrite L'. unfold PageInfoListener.setPageInfo. rewrite K.
    simpl. apply lookup_delete_eq.
  - unfold Crawler.crawl_url, Crawler.start, Crawler.resume_with_tab,
      Crawler.resume_with_pageInfo, leave, finally_block.
    rewrite N, E, L. simpl. rewrite C, S. reflexivity.
  - simpl. unfold overwrite. rewrite Hh.
    by destruct (pi_screenshot gathered), (pi_source gathered), (pi_error gathered).
Qed.

End LoadedPage.

(** ** The logging service *)

Section LoggerFacts.

Import Logger.

Lemma append_nil (b : string) : EmptyString +:+ b = b.
Proof. reflexivity. Qed.

Lemma append_cons (x : Ascii.ascii) (a b : string) : String x a +:+ b = String x (a +:+ b).
Proof. reflexivity. Qed.

Lemma length_cons (x : Ascii.ascii) (a : string) :
  String.length (String x a) = S (String.length a).
Proof. reflexivity. Qed.

Lemma prefix_cons (x y : Ascii.ascii) (p s : string) :
  String.prefix (String x p) (String y s) =
  if Ascii.ascii_dec x y then String.prefix p s else false.
Proof. reflexivity. Qed.

Lemma append_assoc (a b c : string) : (a +:+ b) +:+ c = a +:+ (b +:+ c).
Proof. induction a as [|x a IH]; [done|]. rewrite !append_cons. by f_equal. Qed.

Lemma append_length (a b : string) :
  String.length (a +:+ b) = (String.length a + String.length b)%nat.
Proof. induction a as [|x a IH]; [done|]. rewrite append_cons, !length_cons. simpl. by f_equal. Qed.

Lemma prefix_append (p b : string) : String.prefix p (p +:+ b) = true.
Proof.
  induction p as [|x p IH]; [by destruct b|]. rewrite append_cons, prefix_cons.
  destruct (Ascii.ascii_dec x x); [done|congruence].
Qed.

Lemma prefix_inv (p s : string) : String.prefix p s = true -> exists b, s = p +:+ b.
Proof.
  revert s. induction p as [|x p IH]; intros s.
  - intros _. exists s. reflexivity.
  - destruct s as [|y s]; [done|]. rewrite prefix_cons.
    destruct (Ascii.ascii_dec x y) as [->|]; [|done].
    intros H. destruct (IH s H) as [b ->]. exists b. reflexivity.
Qed.

Lemma drop_chars_append (a b : string) : drop_chars (String.length a) (a +:+ b) = b.
Proof. induction a as [|x a IH]; [by destruct b|]. by rewrite append_cons, length_cons. Qed.

(** [lastIndexOf_from] gives the start of the last occurrence of the
    pattern, or [found] when there is none. *)
Lemma lastIndexOf_from_spec (pattern s : string) (from found : Z) :
  (lastIndexOf_from pattern s from found = found /\
   forall a b, s <> a +:+ pattern +:+ b) \/
  (exists a b, s = a +:+ pattern +:+ b /\
     lastIndexOf_from pattern s from found = from + Z.of_nat (String.length a) /\
     forall a' b', s = a' +:+ pattern +:+ b' ->
                   (String.length a' <= String.length a)%nat).
Proof.
  revert from found. induction s as [|c rest IH]; intros from found.
  - cbn [lastIndexOf_from]. destruct (String.prefix pattern EmptyString) eqn:P.
    + right. destruct (prefix_inv _ _ P) as [b Hb]. exists EmptyString, b.
      split; [done|]. split; [simpl; lia|].
      intros a' b' H. destruct a'; [simpl; lia|discriminate].
    + left. split; [done|]. intros a b H.
      destruct a; [|discriminate]. rewrite append_nil in H.
      rewrite H, prefix_append in P. done.
  - cbn [lastIndexOf_from].
    set (found' := if String.prefix pattern (String c rest) then from else found).
    destruct (IH (from + 1) found') as [[R N]|(a & b & Ha & R & M)].
    + rewrite R. unfold found'. destruct (String.prefix pattern (String c rest)) eqn:P.
      * right. destruct (prefix_inv _ _ P) as [b Hb]. exists EmptyString, b.
        split; [done|]. split; [simpl; lia|].
        intros a' b' H. destruct a' as [|x a']; [simpl; lia|].
        rewrite append_cons in H. injection H as _ H. by apply N in H.
      * left. split; [done|]. intros a b H. destruct a as [|x a].
        -- rewrite append_nil in H. rewrite H, prefix_append in P. done.
        -- rewrite append_cons in H. injection H as _ H. by apply N in H.
    + right. exists (String c a), b. split; [by rewrite append_cons, Ha|].
      split; [rewrite R, length_cons; lia|].
      intros a' b' H. destruct a' as [|x a']; [simpl; lia|].
      rewrite append_cons in H. injection H as _ H. apply M in H.
      rewrite !length_cons. lia.
Qed.

(** The file name the report is given: what follows the last text arrow
    of the caller's file name. *)
Lemma stripped_name (name : string) :
  let n := lastIndexOf " -> " name in
  let stripped := if -1 <? n then substr (n + 4) name else name in
  (forall a b, stripped <> a +:+ " -> " +:+ b) /\
  ((stripped = name /\ n = -1) \/
   exists a, name = a +:+ " -> " +:+ stripped /\ n = Z.of_nat (String.length a)).
Proof.
  intros n stripped. unfold stripped, n, lastIndexOf.
  destruct (lastIndexOf_from_spec " -> " name 0 (-1)) as [[R N]|(a & b & Ha & R & M)].
  - rewrite R. simpl. split; [done|]. by left.
  - rewrite R. replace (-1 <? 0 + Z.of_nat (String.length a)) with true
      by (symmetry; apply Z.ltb_lt; lia).
    assert (S : substr (0 + Z.of_nat (String.length a) + 4) name = b).
    { unfold substr.
      replace (0 + Z.of_nat (String.length a) + 4 <? 0) with false
        by (symmetry; apply Z.ltb_ge; lia).
      replace (Z.to_nat (0 + Z.of_nat (String.length a) + 4))
        with (String.length (a +:+ " -> ")) by (rewrite append_length; simpl; lia).
      rewrite Ha, <- append_assoc. apply drop_chars_append. }
    rewrite S. split.
    + intros a' b' H.
      assert (E : name = (a +:+ " -> " +:+ a') +:+ " -> " +:+ b').
      { rewrite Ha, H. by rewrite !append_assoc. }
      apply M in E. rewrite !append_length in E. simpl in E. lia.
    + right. exists a. split; [done|lia].
Qed.

(** X20. The log functions made by make_log.  A call reports unless it
    is given a second argument that is false.  The message of the report
    is the module name, then "/" and the submodule unless that is
    undefined or empty, then ": " and the message given; the line is the
    caller's, the flag is 1 and the category "javascript".  The source
    name is the caller's file name from after its last text arrow
    " -> " on (the whole name when it has none), so it never contains
    an arrow. *)
Theorem make_log_reports (module : string) (submodule : option string) (text : string)
    (allow : option bool) (caller : Frame) :
  let report := make_log module submodule text allow caller in
  (report = None <-> allow = Some false) /\
  (forall r, report = Some r ->
     message r =
       module +:+ match submodule with
                  | Some (String c s) => "/" +:+ String c s
                  | _ => EmptyString
                  end +:+ ": " +:+ text /\
     error_lineNumber r = lineNumber caller /\ flags r = 1 /\
     category r = "javascript"%string /\
     (forall a b, sourceName r <> a +:+ " -> " +:+ b) /\
     (sourceName r = filename caller \/
      exists a, filename caller = a +:+ " -> " +:+ sourceName r)).
Proof.
  intros report. unfold report, make_log, log. split.
  - destruct allow as [[]|]; split; done.
  - intros r H.
    assert (exists p, p +:+ ": " +:+ text =
                      module +:+ match submodule with
                                 | Some (String c s) => "/" +:+ String c s
                                 | _ => EmptyString
                                 end +:+ ": " +:+ text /\
                      (match submodule with
                       | Some submodule =>
                           if (0 <? String.length submodule)%nat
                           then module +:+ "/" +:+ submodule else module
                       | None => module
                       end) = p) as (p & Hp & Eq).
    { eexists. split; [|reflexivity].
      destruct submodule as [[|c s]|]; simpl; by rewrite ?append_assoc. }
    rewrite Eq in H. clear Eq.
    destruct (stripped_name (filename caller)) as [A B].
    assert (r = {| message := (p +:+ ": ") +:+ text;
                   sourceName := if -1 <? lastIndexOf " -> " (filename caller)
                                 then substr (lastIndexOf " -> " (filename caller) + 4)
                                        (filename caller)
                                 else filename caller;
                   sourceLine := None; error_lineNumber := lineNumber caller;
                   columnNumber := None; flags := 1; category := "javascript" |}) as ->.
    { destruct allow as [[]|]; try done; by injection H as <-. }
    simpl. split; [by rewrite append_assoc|].
    split; [done|]. split; [done|]. split; [done|]. split; [exact A|].
    destruct B as [[-> _]|(a & Ha & _)]; [by left|right; by exists a].
Qed.

End LoggerFacts.

(** ** crawl_urls of the crawler built on LoadListener *)

Section LoadBatchFacts.

Import LoadCrawlerBatch.

Lemma without_spawn (b : Batch) (u : string) :
  without_loadListener (spawn b u) = Crawler.spawn (without_loadListener b) u.
Proof. reflexivity. Qed.

Lemma without_crawl_urls (urls : list string) :
  without_loadListener (crawl_urls urls) = Crawler.crawl_urls urls.
Proof.
  unfold crawl_urls, Crawler.crawl_urls.
  change {| Crawler.running := 0; Crawler.jobs := []; Crawler.did := [] |}
    with (without_loadListener {| running := 0; jobs := []; did := [] |}).
  generalize {| running := 0; jobs := []; did := [] |}.
  induction urls as [|u urls IH]; simpl; intros b; [done|].
  by rewrite IH, without_spawn.
Qed.

Lemma without_step (b : Batch) (e : Crawler.BatchEvent) :
  without_loadListener (batch_step b e) = Crawler.batch_step (without_loadListener b) e.
Proof.
  destruct e as [i outcome now|i loaded]; simpl.
  - destruct (jobs b !! i) as [[u []]|]; try done.
    destruct outcome as [exception|result]; unfold without_loadListener; simpl;
      by rewrite omap_app.
  - destruct (jobs b !! i) as [[u []]|]; try done.
    unfold taskDone, Crawler.taskDone, without_loadListener. simpl.
    destruct (running b - 1 <=? 0); simpl; [|done]. by rewrite omap_app.
Qed.

Lemma without_run (es : list Crawler.BatchEvent) (b : Batch) :
  without_loadListener (batch_run es b) = Crawler.batch_run es (without_loadListener b).
Proof.
  revert b. induction es as [|e es IH]; simpl; intros b; [done|].
  by rewrite IH, without_step.
Qed.

(** loadListener.stop() and onDone are called together. *)
Definition paired (b : Batch) : Prop :=
  stop_calls b = Crawler.onDone_calls (without_loadListener b).

Lemma paired_step (b : Batch) (e : Crawler.BatchEvent) : paired b -> paired (batch_step b e).
Proof.
  intros P. destruct e as [i outcome now|i loaded]; simpl.
  - destruct (jobs b !! i) as [[u []]|]; try done.
    destruct outcome as [exception|result]; unfold paired in *; simpl;
      unfold stop_calls, Crawler.onDone_calls in *; simpl;
      rewrite omap_app, !filter_app, !length_app; simpl; rewrite P; done.
  - destruct (jobs b !! i) as [[u []]|]; try done.
    unfold taskDone. simpl. destruct (running b - 1 <=? 0); [|exact P].
    unfold paired in *. unfold stop_calls, Crawler.onDone_calls in *. simpl.
    rewrite omap_app, !filter_app, !length_app. simpl. rewrite P. done.
Qed.

Lemma paired_run (es : list Crawler.BatchEvent) (b : Batch) : paired b -> paired (batch_run es b).
Proof.
  revert b. induction es as [|e es IH]; simpl; intros b P; [done|].
  by apply IH, paired_step.
Qed.

Lemma paired_start (urls : list string) : paired (crawl_urls urls).
Proof.
  unfold paired, stop_calls. rewrite without_crawl_urls.
  assert (D : forall b, did (fold_left spawn urls b) = did b).
  { induction urls as [|u urls IH]; simpl; intros b; [done|]. by rewrite IH. }
  unfold crawl_urls. rewrite D. simpl.
  pose proof (batch_inv_start urls) as I.
  rewrite (bi_calls _ I). rewrite bool_decide_eq_false_2; [done|].
  intros [U N]. apply unfinished_zero in U.
  unfold Crawler.all_finished in U. rewrite crawl_urls_spawned in U.
  destruct urls as [|u urls]; [by apply N; rewrite crawl_urls_spawned|].
  simpl in U. by inversion U.
Qed.

(** X21. crawl_urls of the crawler built on LoadListener.  Apart from
    the calls of loadListener.stop() the batch does, event for event,
    what the batch of the other crawler does.  loadListener.stop() is
    called as often as onDone: at most once, and never while a job has
    not reported, so it strands no job that still waits for its load;
    no job has more than one record; and for a non-empty urls, once
    every task has settled and every request has finished, it has been
    called. *)
Theorem loadListener_stopped_with_onDone (urls : list string) (es : list Crawler.BatchEvent) :
  let b := batch_run es (crawl_urls urls) in
  without_loadListener b = Crawler.batch_run es (Crawler.crawl_urls urls) /\
  stop_calls b = Crawler.onDone_calls (without_loadListener b) /\
  (stop_calls b <= 1)%nat /\
  (stop_calls b = 1%nat ->
     Forall (fun x => snd x = Crawler.Finished) (jobs b) /\
     Crawler.sent_before_onDone (omap shared (did b)) = length urls) /\
  (forall i, (length (Crawler.records_of i (omap shared (did b))) <= 1)%nat) /\
  (urls <> [] -> runs_to_end (length urls) es -> stop_calls b = 1%nat).
Proof.
  intros b.
  assert (W : without_loadListener b = Crawler.batch_run es (Crawler.crawl_urls urls)).
  { unfold b. by rewrite without_run, without_crawl_urls. }
  assert (P : paired b) by apply paired_run, paired_start.
  pose proof (batch_inv_run es _ (batch_inv_start urls)) as I. rewrite <- W in I.
  assert (Len : length (jobs b) = length urls).
  { change (jobs b) with (Crawler.jobs (without_loadListener b)). rewrite W.
    apply jobs_length. }
  unfold paired in P.
  split; [done|]. split; [done|]. rewrite P. split; [|split; [|split]].
  - rewrite (bi_calls _ I). destruct (bool_decide _); lia.
  - intros C. split.
    + rewrite (bi_calls _ I) in C.
      change (jobs b) with (Crawler.jobs (without_loadListener b)).
      apply unfinished_zero. case_bool_decide as E; [|done]. by destruct E.
    + change (omap shared (did b)) with (Crawler.did (without_loadListener b)).
      rewrite (bi_all _ I C). exact Len.
  - intros i. change (omap shared (did b)) with (Crawler.did (without_loadListener b)).
    rewrite (bi_records _ I i). simpl. destruct (jobs b !! i) as [[? []]|]; lia.
  - intros N R. rewrite W.
    by destruct (crawl_urls_calls_onDone_once urls es) as (_ & _ & _ & _ & L); apply L.
Qed.

End LoadBatchFacts.

(** ** No tab is given to two requests *)

Section ExclusiveTabs.

(** X22. The TabAllocator of the crawler built on page-info messages
    gives a tab to one request at a time: for clients that release only
    tabs they hold and every sequence of operations, no tab is in use
    twice, and the keep-alive tab kept in [_tab] is in use by nobody. *)
Theorem Crawler_tabs_are_exclusive (first : Tab) (others : list Tab) (maxtabs : Z)
    (ops : list PoolOp) :
  polite ops (Crawler.TabAllocator.new first others maxtabs) = true ->
  let a := Crawler.TabAllocator.run ops (Crawler.TabAllocator.new first others maxtabs) in
  NoDup (tabs_in_use (Crawler.TabAllocator.trace a)) /\
  (forall tab, Crawler.TabAllocator._tab a = Some tab ->
               tab ∉ tabs_in_use (Crawler.TabAllocator.trace a)).
Proof.
  intros P a.
  destruct (cap_run ops _ (cap_new first others maxtabs) P) as [_ _ N _ K _].
  split; [done|]. intros tab T. by destruct (K tab T).
Qed.

Lemma Crawler_tabs_are_exclusive_witness :
  let a := Crawler.TabAllocator.run
             [GetTab 1%nat; GetTab 2%nat; TabReady 1%nat; TabReady 2%nat; ReleaseTab 1%nat]
             (Crawler.TabAllocator.new 0%nat [] 2) in
  NoDup (tabs_in_use (Crawler.TabAllocator.trace a)) /\
  (forall tab, Crawler.TabAllocator._tab a = Some tab ->
               tab ∉ tabs_in_use (Crawler.TabAllocator.trace a)).
Proof.
  exact (Crawler_tabs_are_exclusive 0%nat [] 2
           [GetTab 1%nat; GetTab 2%nat; TabReady 1%nat; TabReady 2%nat; ReleaseTab 1%nat]
           eq_refl).
Defined.

Import LoadCrawler.TabAllocator.

(** Tabs in use are distinct and were made before; the tab kept in
    [_tab] is in use only when [_tabInUse] says so. *)
Record exclusive (a : t) : Prop := {
  ex_nodup : NoDup (tabs_in_use (trace a));
  ex_old : forall x, x ∈ tabs_in_use (trace a) -> (x < next_tab a)%nat;
  ex_kept : forall tab, _tab a = Some tab ->
      (tab < next_tab a)%nat /\ (_tabInUse a = false -> tab ∉ tabs_in_use (trace a))
}.

Lemma exclusive_new (open : list Tab) (maxtabs : Z) : exclusive (new open maxtabs).
Proof.
  split; simpl.
  - apply NoDup_nil_2.
  - intros x H. by apply elem_of_nil in H.
  - intros tab [= <-]. split; [lia|]. intros _ H. by apply elem_of_nil in H.
Qed.

Lemma exclusive_hand (r : Request) (a : t) (e : PoolEvent) :
  given e = Some (r, next_tab a) ->
  exclusive a -> exclusive (log e (snd (_createTab a))).
Proof.
  intros G [N O K].
  assert (U : tabs_in_use (trace (log e (snd (_createTab a)))) =
              tabs_in_use (trace a) ++ [next_tab a]).
  { simpl. rewrite !in_use_snoc. simpl. unfold use.
    destruct e; simpl in *; try done; by injection G as _ <-. }
  split.
  - rewrite U. apply NoDup_app. split; [done|]. split; [|apply NoDup_singleton].
    intros x Hx Hy. apply list_elem_of_singleton in Hy. subst x.
    specialize (O _ Hx). lia.
  - intros x. rewrite U. intros [Hx|Hx]%elem_of_app.
    + specialize (O _ Hx). simpl. lia.
    + apply list_elem_of_singleton in Hx. subst x. simpl. lia.
  - intros tab T. simpl in T. destruct (K tab T) as [L F]. split; [simpl; lia|].
    intros I. rewrite U. intros [Hx|Hx]%elem_of_app.
    + by apply F.
    + apply list_elem_of_singleton in Hx. lia.
Qed.

Lemma exclusive_getTab (r : Request) (a : t) : exclusive a -> exclusive (getTab r a).
Proof.
  intros E. unfold getTab. destruct (_tab a) as [tab|] eqn:T.
  - destruct (_tabInUse a) eqn:I; simpl.
    + destruct E as [N O K]. split; simpl; rewrite ?in_use_snoc; simpl; [done|done|].
      intros tab' T'. rewrite I. destruct (K tab' T') as [L _]. by split.
    + destruct E as [N O K]. destruct (K tab T) as [L F].
      split; simpl; rewrite ?in_use_snoc; simpl.
      * apply NoDup_app. split; [done|]. split; [|apply NoDup_singleton].
        intros x Hx Hy. apply list_elem_of_singleton in Hy. subst x. by apply F.
      * intros x [Hx|Hx]%elem_of_app; [by apply O|].
        apply list_elem_of_singleton in Hx. by subst x.
      * intros tab' T'. destruct (K tab' T') as [L' _]. by split.
  - destruct (_tabs a <? _maxtabs a).
    + by apply (exclusive_hand r a (Got_new r (next_tab a))).
    + destruct E as [N O K]. split; simpl; rewrite ?in_use_snoc; simpl; done.
Qed.

Lemma exclusive_released (tab : Tab) (a : t) :
  exclusive a -> exclusive (log (Released tab) a).
Proof.
  intros [N O K]. split; simpl; rewrite ?in_use_snoc; simpl.
  - by apply NoDup_filter.
  - intros x Hx. apply list_elem_of_filter in Hx as [_ Hx]. by apply O.
  - intros tab' T. destruct (K tab' T) as [L F]. split; [done|].
    intros I Hx. apply list_elem_of_filter in Hx as [_ Hx]. by apply F.
Qed.

Lemma exclusive_releaseTab (tab : Tab) (a : t) : exclusive a -> exclusive (releaseTab tab a).
Proof.
  intros E. apply (exclusive_released tab) in E. unfold releaseTab.
  revert E. generalize (log (Released tab) a). clear a. intros a0 E. cbv zeta.
  destruct (bool_decide (_resolvers a0 = []) && (_tabs a0 =? 1)).
  - destruct E as [N O K]. split; simpl; rewrite ?in_use_snoc; simpl.
    + done.
    + intros x Hx. specialize (O _ Hx). simpl in O. lia.
    + intros tab' [= <-]. split; [lia|]. intros _ Hx. specialize (O _ Hx). simpl in O. lia.
  - assert (E1 : exclusive (browser_removeTab tab a0)).
    { destruct E as [N O K]. split; simpl; rewrite ?in_use_snoc; simpl; done. }
    destruct (_resolvers (browser_removeTab tab a0)) as [|r rest] eqn:R.
    + destruct E1 as [N O K]. by split.
    + assert (E2 : exclusive (set_resolvers rest (browser_removeTab tab a0))).
      { destruct E1 as [N O K]. by split. }
      exact (exclusive_hand r _ (Handed_new r (next_tab (set_resolvers rest (browser_removeTab tab a0))))
               eq_refl E2).
Qed.

Lemma exclusive_react (a : t) (x : Tab * Reaction) : exclusive a -> exclusive (react a x).
Proof.
  intros E. unfold react. destruct (snd x) as [|tab].
  - destruct E as [N O K]. by split.
  - apply exclusive_releaseTab. destruct E as [N O K]. by split.
Qed.

Lemma exclusive_tabReady (tab : Tab) (a : t) : exclusive a -> exclusive (tabReady tab a).
Proof.
  intros E. unfold tabReady.
  assert (E0 : exclusive (log (Initialised tab)
                 (set_reactions (filter (fun x => fst x <> tab) (reactions a)) a))).
  { destruct E as [N O K]. split; simpl; rewrite ?in_use_snoc; simpl; done. }
  revert E0. generalize (log (Initialised tab)
                 (set_reactions (filter (fun x => fst x <> tab) (reactions a)) a)).
  generalize (filter (fun x => fst x = tab) (reactions a)).
  intros mine. induction mine as [|x mine IH]; simpl; intros b E0.
  - assert (E1 : exclusive (set_deferred (filter (fun x => fst x <> tab) (deferred b)) b)).
    { destruct E0 as [N O K]. by split. }
    revert E1. generalize (set_deferred (filter (fun x => fst x <> tab) (deferred b)) b).
    generalize (filter (fun x => fst x = tab) (deferred b)).
    intros again. induction again as [|y again IHa]; simpl; intros c E1; [done|].
    by apply IHa, exclusive_getTab.
  - by apply IH, exclusive_react.
Qed.

(** X23. The TabAllocator of the crawler built on LoadListener gives a
    tab to one request at a time: after every sequence of operations no
    tab is in use twice, and the tab kept in [_tab] is in use only when
    [_tabInUse] is set. *)
Theorem LoadCrawler_tabs_are_exclusive (open : list Tab) (maxtabs : Z) (ops : list PoolOp) :
  let a := run ops (new open maxtabs) in
  NoDup (tabs_in_use (trace a)) /\
  (forall tab, _tab a = Some tab -> _tabInUse a = false -> tab ∉ tabs_in_use (trace a)).
Proof.
  intros a.
  assert (E : exclusive a).
  { unfold a. generalize (exclusive_new open maxtabs). generalize (new open maxtabs).
    induction ops as [|o ops IH]; simpl; intros b E; [done|].
    apply IH. destruct o; simpl;
      [by apply exclusive_getTab|by apply exclusive_releaseTab|by apply exclusive_tabReady]. }
  destruct E as [N _ K]. split; [done|]. intros tab T I. by destruct (K tab T) as [_ F]; apply F.
Qed.

End ExclusiveTabs.

(** ** Sample runs *)

(** The two constants as Firefox has them. *)
Definition Firefox_flags : nsIWebProgressListener :=
  {| STATE_STOP := 16; STATE_IS_WINDOW := 524288 |}.

Definition a_response : HttpChannel :=
  {| responseStatus := inr 200;
     responseStatusText := inr "OK"%string;
     visitResponseHeaders :=
       ([("Content-Type", "text/html"); ("Server", "nginx")]%string,
        Some (JsError "NS_ERROR_NOT_AVAILABLE")) |}.

Section LoadListenerSamples.

Import LoadListener.

(** The timer of the call fires, the browser reports the stop of a
    request that is not a window, another browser stops, and the listener
    is deactivated: the promise is pending. *)
Lemma waitForLoad_waits_for_window_stop_witness :
  let meanwhile := [TimerFires 0%nat; StateChange 1%nat OtherRequest 16 0;
                    StateChange 2%nat OtherRequest 524304 0; Stop] in
  let l := run Firefox_flags [] (new 30000) in
  let promise := fst (waitForLoad 1%nat l) in
  let before := run Firefox_flags meanwhile (snd (waitForLoad 1%nat l)) in
  timers (snd (waitForLoad 1%nat l)) !! next_timer l = Some (1%nat, 30000) /\
  promises before !! promise = Some Pending /\
  (forall n b d, timers before !! n = Some (b, d) ->
     stopped (timer_fires n before) = stopped before ++ [b] /\
     promises (timer_fires n before) = promises before).
Proof.
  exact (waitForLoad_waits_for_window_stop Firefox_flags 30000 [] 1%nat
           [TimerFires 0%nat; StateChange 1%nat OtherRequest 16 0;
            StateChange 2%nat OtherRequest 524304 0; Stop] eq_refl).
Defined.

(** The load of another tab ends in between; then the window of the tab
    stops with a response whose headers cannot all be visited. *)
Lemma waitForLoad_resolved_by_window_stop_witness :
  let meanwhile := [WaitForLoad 2%nat; StateChange 2%nat OtherRequest 524304 0; TimerFires 0%nat] in
  let l := run Firefox_flags [] (new 30000) in
  let promise := fst (waitForLoad 1%nat l) in
  let before := run Firefox_flags meanwhile (snd (waitForLoad 1%nat l)) in
  let after := onStateChange Firefox_flags 1%nat (HttpRequest a_response) 524304 0 before in
  let headers := fst (push_headers a_response []) in
  promises before !! promise = Some Pending /\
  promises after !! promise = Some (Resolved 0 headers) /\
  _deferred after !! 1%nat = None /\
  (forall request' flags' status',
     onStateChange Firefox_flags 1%nat request' flags' status' after = after).
Proof.
  exact (waitForLoad_resolved_by_window_stop Firefox_flags 30000 [] 1%nat
           [WaitForLoad 2%nat; StateChange 2%nat OtherRequest 524304 0; TimerFires 0%nat]
           (HttpRequest a_response) 524304 0 eq_refl eq_refl).
Defined.

(** Two loads of the same tab, then two stops of its window. *)
Lemma second_waitForLoad_orphans_the_first_witness :
  let l := run Firefox_flags [] (new 30000) in
  let first := fst (waitForLoad 1%nat l) in
  let before := run Firefox_flags [TimerFires 0%nat] (snd (waitForLoad 1%nat l)) in
  let second := fst (waitForLoad 1%nat before) in
  first <> second /\
  promises (run Firefox_flags
              [StateChange 1%nat OtherRequest 524304 0; StateChange 1%nat OtherRequest 524304 0]
              (snd (waitForLoad 1%nat before))) !! first = Some Pending.
Proof.
  exact (second_waitForLoad_orphans_the_first Firefox_flags 30000 [] 1%nat [TimerFires 0%nat]
           [StateChange 1%nat OtherRequest 524304 0; StateChange 1%nat OtherRequest 524304 0]
           eq_refl).
Defined.

(** The headers of the sample response: the status line and the two
    headers visited before the exception. *)
Example push_headers_sample :
  push_headers a_response [] =
  (["HTTP/x.x 200 OK"; "Content-Type: text/html"; "Server: nginx"]%string,
   Some (JsError "NS_ERROR_NOT_AVAILABLE")).
Proof. reflexivity. Qed.

End LoadListenerSamples.

(** A page that loads: every call of the job returns. *)
Definition live_page : Crawler.Collaborators :=
  {| Crawler.now_at_start := 100;
     Crawler.new_RequestNotifier := None;
     Crawler.expect := None;
     Crawler.loadURI := None;
     Crawler.seen := [];
     Crawler.currentURI_spec := inr "http://a.example/"%string;
     Crawler.now_at_end := 180;
     Crawler.shutdown := None |}.

Section LoadedPageSample.

Import ChildMessages.

(** The window of the flat page stops with the sample response, whose
    headers cannot all be visited: frameScript.js sends the page info
    with the headers visited and the source, and the exception of the
    visit went to reportException. *)
Example frameScript_onStateChange_sample :
  frameScript.onStateChange Firefox_flags quiet_globals (Some flat_window) true
    (HttpRequest a_response) 524304 0 =
  {| sent := [Bare {| pi_headers :=
                        Some ["HTTP/x.x 200 OK"; "Content-Type: text/html"; "Server: nginx"]%string;
                      pi_screenshot := None;
                      pi_source := Some "<html/>"%string;
                      pi_error := None |}];
     reported_exceptions := [JsError "NS_ERROR_NOT_AVAILABLE"];
     thrown := None |}.
Proof. reflexivity. Qed.

(** The same stop when [content] is null, and in processScript.js when
    webProgress.DOMWindow is null: a TypeError leaves the listener and
    nothing is sent. *)
Example onStateChange_without_window :
  frameScript.onStateChange Firefox_flags quiet_globals None true
    (HttpRequest a_response) 524304 0 =
  {| sent := []; reported_exceptions := [JsError "NS_ERROR_NOT_AVAILABLE"];
     thrown := Some (JsTypeError "wnd is null") |} /\
  processScript.onStateChange Firefox_flags quiet_globals
    {| isTopLevel := true; DOMWindow := inr None; DOMWindow_outerWindowID := inr 7 |}
    (HttpRequest a_response) 524304 0 =
  {| sent := []; reported_exceptions := []; thrown := Some (JsTypeError "win is null") |}.
Proof. split; reflexivity. Qed.

(** The job of tab 1, whose window has id 7, and the flat page. *)
Lemma loaded_page_reaches_the_record_witness :
  let t := {| tab_name := 1%nat; outerWindowID := 7 |} in
  let getOuterWindowWithId := fun id : Z => if id =? 7 then Some flat_window else None in
  let l := PageInfoListener.run [PageInfoListener.Expect 4] (PageInfoListener.new 30000) in
  let promise := fst (PageInfoListener.expect (outerWindowID t) l) in
  let waiting := snd (PageInfoListener.expect (outerWindowID t) l) in
  let child := processScript.onLoad quiet_globals (inr (outerWindowID t)) getOuterWindowWithId in
  let l' := fold_left (fun l data => onWindowLoaded data l) (sent child) waiting in
  exists gathered r es,
    fst (ChildScript.processScript.gatherPageInfo quiet (Some flat_window)) = inr gathered /\
    sent child = [With_outerWindowID (outerWindowID t) gathered] /\
    thrown child = None /\
    PageInfoListener.promises waiting !! promise = Some PageInfoListener.Pending /\
    PageInfoListener.promises l' !! promise = Some (PageInfoListener.Fulfilled gathered) /\
    PageInfoListener._pageInfoSetters l' !! outerWindowID t = None /\
    Crawler.crawl_url live_page "http://a.example/" (Some (inr t)) (Some (inr gathered))
      = (Returned r, es) /\
    screenshot r = pi_screenshot gathered /\ source r = pi_source gathered /\
    error r = pi_error gathered /\ headers r = None /\ channelStatus r = None.
Proof.
  exact (loaded_page_reaches_the_record 30000 [PageInfoListener.Expect 4] live_page
           "http://a.example/" {| tab_name := 1%nat; outerWindowID := 7 |} quiet_globals
           (fun id : Z => if id =? 7 then Some flat_window else None)
           flat_window flat_document
           (Some {| ChildScript.scrollWidth := 800; ChildScript.scrollHeight := 0 |})
           "http://a.example/"
           eq_refl eq_refl eq_refl (fun _ => eq_refl) (fun _ => eq_refl)
           eq_refl eq_refl eq_refl eq_refl eq_refl).
Defined.

End LoadedPageSample.

(** A file name with two text arrows, and a log function of a submodule. *)
Example make_log_sample :
  Logger.make_log "abpcrawler" (Some "crawler") "started" None
    {| Logger.filename := "resource://gre/a.js -> file:///x/bootstrap.js -> file:///x/lib/crawler.js";
       Logger.lineNumber := 42 |} =
  Some {| Logger.message := "abpcrawler/crawler: started";
          Logger.sourceName := "file:///x/lib/crawler.js";
          Logger.sourceLine := None; Logger.error_lineNumber := 42;
          Logger.columnNumber := None; Logger.flags := 1;
          Logger.category := "javascript" |}.
Proof. vm_compute. reflexivity. Qed.
